(** * lootcli: game-settings resolution, masterlist-source migration and
    report assembly of [LOOTWorker] (src/lootthread.cpp).

    The C++ worker is embedded shallowly: every member function that takes
    part in settings resolution or in report assembly becomes a Rocq function
    of the same name.  The file system, the settings file as the parser
    hands it over and the sorter's database are explicit arguments, each
    with the exceptions its queries can raise; calls to [LOOTWorker::log]
    are collected in a writer; C++ exceptions and the dereference of an
    empty [std::optional] are explicit outcomes. *)

From Stdlib Require Import ZArith String Ascii List Bool Lia.
From stdpp Require Import base option gmap strings.

Set Default Proof Using "Type".
Set Warnings "-register-all".
Open Scope string_scope.

(* ===================================================================== *)
(** * Part I: definitions *)
(* ===================================================================== *)

(** ** Characters and strings *)

Module Text.

(** [std::tolower] and [std::toupper] on a byte: only the ASCII letters move
    (bytes above 127 are left alone by the single-byte [ctype<char>] facet). *)
Definition is_upper (c : ascii) : bool :=
  (65 <=? nat_of_ascii c)%nat && (nat_of_ascii c <=? 90)%nat.

Definition is_lower (c : ascii) : bool :=
  (97 <=? nat_of_ascii c)%nat && (nat_of_ascii c <=? 122)%nat.

Definition tolower (c : ascii) : ascii :=
  if is_upper c then ascii_of_nat (nat_of_ascii c + 32) else c.

Definition toupper (c : ascii) : ascii :=
  if is_lower c then ascii_of_nat (nat_of_ascii c - 32) else c.

(** [std::regex::icase]: both characters are translated with [tolower]. *)
Definition ieq_regex (c d : ascii) : bool := Ascii.eqb (tolower c) (tolower d).

(** [boost::is_iequal]: both characters are translated with [toupper]. *)
Definition ieq_boost (c d : ascii) : bool := Ascii.eqb (toupper c) (toupper d).

Definition slash : ascii := "/"%char.

Definition is_slash (c : ascii) : bool := Ascii.eqb c slash.

(** [std::string::starts_with]. *)
Fixpoint starts_with (s p : string) {struct p} : bool :=
  match p, s with
  | EmptyString, _ => true
  | String _ _, EmptyString => false
  | String d p', String c s' => Ascii.eqb c d && starts_with s' p'
  end.

(** [std::string::ends_with]. *)
Fixpoint ends_with (s p : string) : bool :=
  String.eqb s p ||
  match s with
  | EmptyString => false
  | String _ s' => ends_with s' p
  end.

(** [boost::istarts_with]. *)
Fixpoint istarts_with (s p : string) {struct p} : bool :=
  match p, s with
  | EmptyString, _ => true
  | String _ _, EmptyString => false
  | String d p', String c s' => ieq_boost c d && istarts_with s' p'
  end.

(** [boost::icontains]: some position of [s] starts a case-insensitive copy
    of [p]. *)
Fixpoint icontains (s p : string) : bool :=
  istarts_with s p ||
  match s with
  | EmptyString => false
  | String _ s' => icontains s' p
  end.

Fixpoint ToUpper (s : string) : string :=
  match s with
  | EmptyString => EmptyString
  | String c s' => String (toupper c) (ToUpper s')
  end.

(** What [icontains] decides, said without the search: a stretch of [s]
    equals [p] once both are put in upper case. *)
Definition contains_ignoring_case (s p : string) : Prop :=
  exists pre mid post : string, s = pre +:+ mid +:+ post /\ ToUpper mid = ToUpper p.

(** Absence of a path or URL separator, the class [[^/]] of the regex. *)
Fixpoint no_slash (s : string) : bool :=
  match s with
  | EmptyString => true
  | String c s' => negb (is_slash c) && no_slash s'
  end.

(** Case-insensitive equality of whole strings, as [std::regex::icase]
    compares a literal of the pattern with a stretch of the subject. *)
Fixpoint ieq_string (s p : string) : bool :=
  match s, p with
  | EmptyString, EmptyString => true
  | String c s', String d p' => ieq_regex c d && ieq_string s' p'
  | _, _ => false
  end.

(** Consume a literal of the pattern case-insensitively; the rest of the
    subject is returned. *)
Fixpoint strip_literal (p s : string) {struct p} : option string :=
  match p, s with
  | EmptyString, _ => Some s
  | String _ _, EmptyString => None
  | String d p', String c s' =>
      if ieq_regex c d then strip_literal p' s' else None
  end.

(** [boost::replace_all_copy] for a one-character needle. *)
Fixpoint replace_char (c : ascii) (by_ : string) (s : string) : string :=
  match s with
  | EmptyString => EmptyString
  | String x s' =>
      if Ascii.eqb x c then by_ +:+ replace_char c by_ s'
      else String x (replace_char c by_ s')
  end.

End Text.

(** [ToLower] of lootthread.cpp: [std::transform] with [std::tolower]. *)
Fixpoint ToLower (text : string) : string :=
  match text with
  | EmptyString => EmptyString
  | String c s => String (Text.tolower c) (ToLower s)
  end.

(** ** Paths and the file system *)

Module Path.

(** [std::filesystem::path::operator/] on a POSIX host: an absolute right
    operand replaces the left one; otherwise a separator is added when the
    left operand has a filename, and the right operand is appended. *)
Definition has_filename (p : string) : bool :=
  negb (String.eqb p "") && negb (Text.ends_with p "/").

Definition is_absolute (p : string) : bool := Text.starts_with p "/".

Definition append (p q : string) : string :=
  if is_absolute q then q
  else if has_filename p then p +:+ "/" +:+ q
  else p +:+ q.

(** [std::filesystem::path::filename]: what follows the last separator. *)
Fixpoint filename (p : string) : string :=
  match p with
  | EmptyString => EmptyString
  | String c s =>
      if Text.no_slash (String c s) then String c s else filename s
  end.

End Path.

Infix "//" := Path.append (at level 40, left associativity) : string_scope.

(** The queries the worker makes to the disk.  [std::filesystem::exists]
    and [std::filesystem::is_regular_file] are called in the overloads
    without an [error_code]: when the status of the path cannot be read
    (access denied, a name that is too long, ...) they throw a
    [filesystem_error], which is the answer [None] here.  A stream that
    cannot be opened throws nothing. *)
Record FileSystem : Type := {
  fs_exists : string -> option bool;
  fs_is_regular_file : string -> option bool;
  (** first line of a file, [None] when the stream cannot be opened *)
  fs_getline : string -> option string
}.

(** ** Logging *)

Module LogLevel.

Inductive t : Set := trace | debug | info | warning | error | fatal.

Definition rank (l : t) : nat :=
  match l with
  | trace => 0 | debug => 1 | info => 2 | warning => 3 | error => 4 | fatal => 5
  end.

End LogLevel.

(** [lootcli::LogLevels] as the two conversion functions use it. *)
Module LogLevels.

Inductive t : Set := Trace | Debug | Info | Warning | Error.

End LogLevels.

Definition toLootLogLevel (level : LogLevels.t) : LogLevel.t :=
  match level with
  | LogLevels.Trace => LogLevel.trace
  | LogLevels.Debug => LogLevel.debug
  | LogLevels.Info => LogLevel.info
  | LogLevels.Warning => LogLevel.warning
  | LogLevels.Error => LogLevel.error
  end.

Definition fromLootLogLevel (level : LogLevel.t) : LogLevels.t :=
  match level with
  | LogLevel.trace => LogLevels.Trace
  | LogLevel.debug => LogLevels.Debug
  | LogLevel.info => LogLevels.Info
  | LogLevel.warning => LogLevels.Warning
  | LogLevel.error => LogLevels.Error
  | LogLevel.fatal => LogLevels.Error
  end.

Definition escapeNewlines (s : string) : string :=
  Text.replace_char "013"%char "\r" (Text.replace_char "010"%char "\n" s).

(** One call of [LOOTWorker::log]. *)
Record log_call : Set := LogCall { call_level : LogLevel.t; call_message : string }.

(** [LOOTWorker::log]: a call below the configured minimum level prints
    nothing; otherwise one line, tagged with the converted level and with
    line breaks escaped, goes to standard output. *)
Definition log (m_LogLevel : LogLevel.t) (c : log_call) : list (LogLevels.t * string) :=
  if (LogLevel.rank (call_level c) <? LogLevel.rank m_LogLevel)%nat then []
  else [(fromLootLogLevel (call_level c), escapeNewlines (call_message c))].

(** ** Outcomes of a computation *)

(** The exceptions of the worker: those it throws itself, by message, and
    those that come out of the calls it makes. *)
Inductive exn : Set :=
| CouldNotBeOpened          (* "... could not be opened for parsing" *)
| ParseError (what : string) (* thrown by [toml::parse] *)
| NotATable                 (* "games array element is not a table" *)
| MissingGameId             (* "'gameId' and 'type' keys both missing ..." *)
| InvalidType               (* "invalid value for 'type' key ..." *)
| MissingFolder             (* "'folder' key missing ..." *)
| ConflictingConfiguration  (* "... local_path and local_folder set, use only one." *)
| InvalidGameName (gameName : string) (* "invalid game name ..." *)
| FilesystemError (path : string) (* [std::filesystem::filesystem_error] *)
| SorterError (what : string). (* an exception of the sorting library *)

Inductive outcome (A : Type) : Type :=
| Done (a : A)
| Thrown (e : exn)
| Undefined. (* undefined behaviour: operator* on an empty std::optional *)

Arguments Done {A} a.
Arguments Thrown {A} e.
Arguments Undefined {A}.

Definition outcome_bind {A B} (m : outcome A) (f : A -> outcome B) : outcome B :=
  match m with
  | Done a => f a
  | Thrown e => Thrown e
  | Undefined => Undefined
  end.

Notation "'let?' x ':=' m 'in' k" := (outcome_bind m (fun x => k))
  (at level 10, x pattern, m at level 100, k at level 200, only parsing).

(** The answer of a disk query on a path, or the [filesystem_error] it
    throws. *)
Definition query (path : string) (answer : option bool) : outcome bool :=
  match answer with
  | Some b => Done b
  | None => Thrown (FilesystemError path)
  end.

(** [std::filesystem::exists(p)] *)
Definition exists_ (fs : FileSystem) (p : string) : outcome bool :=
  query p (fs_exists fs p).

(** [std::filesystem::is_regular_file(p)] *)
Definition is_regular_file (fs : FileSystem) (p : string) : outcome bool :=
  query p (fs_is_regular_file fs p).

(** Writer of the calls to [log]. *)
Definition W (A : Type) : Type := A * list log_call.

Definition W_ret {A} (a : A) : W A := (a, []).

Definition W_bind {A B} (m : W A) (f : A -> W B) : W B :=
  let r := f (fst m) in (fst r, (snd m ++ snd r)%list).

Definition tell (level : LogLevel.t) (message : string) : W unit :=
  (tt, [LogCall level message]).

(** Computations that log and may throw or run into undefined behaviour. *)
Definition M (A : Type) : Type := W (outcome A).

Definition M_ret {A} (a : A) : M A := (Done a, []).

Definition M_bind {A B} (m : M A) (f : A -> M B) : M B :=
  match fst m with
  | Done a => let r := f a in (fst r, (snd m ++ snd r)%list)
  | Thrown e => (Thrown e, snd m)
  | Undefined => (Undefined, snd m)
  end.

Definition throw {A} (e : exn) : M A := (Thrown e, []).

Definition undefined {A} : M A := (Undefined, []).

Definition lift {A} (m : W A) : M A := (Done (fst m), snd m).

(** A computation that logs nothing. *)
Definition quiet {A} (m : outcome A) : M A := (m, []).

(** [*opt] on a [std::optional]. *)
Definition deref {A} (o : option A) : M A :=
  match o with
  | Some a => M_ret a
  | None => undefined
  end.

Notation "'let*' x ':=' m 'in' k" := (M_bind m (fun x => k))
  (at level 10, x pattern, m at level 100, k at level 200, only parsing).

(** ** The game catalogue (game_settings.h) *)

Definition DEFAULT_MASTERLIST_BRANCH : string := "v0.23".

Module GameId.

Inductive t : Set :=
| tes3 | tes4 | nehrim | tes5 | enderal | tes5se | enderalse | tes5vr
| fo3 | fonv | fo4 | fo4vr | starfield.

#[global] Instance eq_dec : EqDecision t.
Proof. solve_decision. Defined.

End GameId.

(** The engine-type classes ([loot::GameType] of the sorting library). *)
Module GameType.

Inductive t : Set :=
| tes3 | tes4 | tes5 | tes5se | tes5vr | fo3 | fonv | fo4 | fo4vr | starfield.

#[global] Instance eq_dec : EqDecision t.
Proof. solve_decision. Defined.

End GameType.

(** Modelled from the spec: [GetGameType] is declared in game_settings.h and
    its body is not among the sources.  Every identity has an engine-type
    class of its own, except that Nehrim, Enderal and Enderal SE share the
    class of their base game. *)
Definition GetGameType (gameId : GameId.t) : GameType.t :=
  match gameId with
  | GameId.tes3 => GameType.tes3
  | GameId.tes4 | GameId.nehrim => GameType.tes4
  | GameId.tes5 | GameId.enderal => GameType.tes5
  | GameId.tes5se | GameId.enderalse => GameType.tes5se
  | GameId.tes5vr => GameType.tes5vr
  | GameId.fo3 => GameType.fo3
  | GameId.fonv => GameType.fonv
  | GameId.fo4 => GameType.fo4
  | GameId.fo4vr => GameType.fo4vr
  | GameId.starfield => GameType.starfield
  end.

(** Modelled from the spec: [GetDefaultMasterlistUrl(repositoryName)] is
    declared in game_settings.h and its body is not among the sources.  It is
    the constant template
    https://raw.githubusercontent.com/loot/<repo>/<DEFAULT_BRANCH>/masterlist.yaml. *)
Definition GetDefaultMasterlistUrl (repositoryName : string) : string :=
  "https://raw.githubusercontent.com/loot/" +:+ repositoryName +:+ "/" +:+
  DEFAULT_MASTERLIST_BRANCH +:+ "/masterlist.yaml".

(** The remaining tables of game_settings.h, whose contents the sources do
    not show, are parameters of the development. *)
Record GameCatalog (float : Type) : Type := {
  ToString : GameId.t -> string;
  GetGameName : GameId.t -> string;
  GetMasterFilename : GameId.t -> string;
  GetMinimumHeaderVersion : GameId.t -> float;
  GetDefaultMasterlistRepositoryName : GameId.t -> string;
  (** where [SetGameLocalFolder] puts a local-data folder name *)
  localDataPath : string -> string
}.

Arguments ToString {float} _ _.
Arguments GetGameName {float} _ _.
Arguments GetMasterFilename {float} _ _.
Arguments GetMinimumHeaderVersion {float} _ _.
Arguments GetDefaultMasterlistRepositoryName {float} _ _.
Arguments localDataPath {float} _ _.

(** [loot::GameSettings], field by field. *)
Record GameSettings (float : Type) : Type := {
  id_ : GameId.t;
  type_ : GameType.t;
  name_ : string;
  masterFile_ : string;
  minimumHeaderVersion_ : float;
  lootFolderName_ : string;
  masterlistSource_ : string;
  gamePath_ : string;
  gameLocalPath_ : string
}.

Arguments id_ {float} _.
Arguments type_ {float} _.
Arguments name_ {float} _.
Arguments masterFile_ {float} _.
Arguments minimumHeaderVersion_ {float} _.
Arguments lootFolderName_ {float} _.
Arguments masterlistSource_ {float} _.
Arguments gamePath_ {float} _.
Arguments gameLocalPath_ {float} _.

Section GameSettingsOps.

Context {float : Type} (catalog : GameCatalog float).

(** Modelled from the spec: the constructor [GameSettings(gameId, lootFolder)]
    is declared in game_settings.h and its body is not among the sources.  It
    initialises the profile from the catalogue defaults of the identity; the
    two paths start empty. *)
Definition newGameSettings (gameId : GameId.t) (lootFolder : string) : GameSettings float :=
  {| id_ := gameId;
     type_ := GetGameType gameId;
     name_ := GetGameName catalog gameId;
     masterFile_ := GetMasterFilename catalog gameId;
     minimumHeaderVersion_ := GetMinimumHeaderVersion catalog gameId;
     lootFolderName_ := lootFolder;
     masterlistSource_ :=
       GetDefaultMasterlistUrl (GetDefaultMasterlistRepositoryName catalog gameId);
     gamePath_ := "";
     gameLocalPath_ := "" |}.

(** Modelled from the spec: the setters of [GameSettings] are declared in
    game_settings.h and their bodies are not among the sources.  Each one
    replaces the one field of the profile it is named after. *)
Definition SetName (name : string) (s : GameSettings float) : GameSettings float :=
  {| id_ := id_ s; type_ := type_ s; name_ := name; masterFile_ := masterFile_ s;
     minimumHeaderVersion_ := minimumHeaderVersion_ s;
     lootFolderName_ := lootFolderName_ s; masterlistSource_ := masterlistSource_ s;
     gamePath_ := gamePath_ s; gameLocalPath_ := gameLocalPath_ s |}.

Definition SetMaster (masterFile : string) (s : GameSettings float) : GameSettings float :=
  {| id_ := id_ s; type_ := type_ s; name_ := name_ s; masterFile_ := masterFile;
     minimumHeaderVersion_ := minimumHeaderVersion_ s;
     lootFolderName_ := lootFolderName_ s; masterlistSource_ := masterlistSource_ s;
     gamePath_ := gamePath_ s; gameLocalPath_ := gameLocalPath_ s |}.

Definition SetMinimumHeaderVersion (v : float) (s : GameSettings float) : GameSettings float :=
  {| id_ := id_ s; type_ := type_ s; name_ := name_ s; masterFile_ := masterFile_ s;
     minimumHeaderVersion_ := v;
     lootFolderName_ := lootFolderName_ s; masterlistSource_ := masterlistSource_ s;
     gamePath_ := gamePath_ s; gameLocalPath_ := gameLocalPath_ s |}.

Definition SetMasterlistSource (source : string) (s : GameSettings float) : GameSettings float :=
  {| id_ := id_ s; type_ := type_ s; name_ := name_ s; masterFile_ := masterFile_ s;
     minimumHeaderVersion_ := minimumHeaderVersion_ s;
     lootFolderName_ := lootFolderName_ s; masterlistSource_ := source;
     gamePath_ := gamePath_ s; gameLocalPath_ := gameLocalPath_ s |}.

Definition SetGamePath (path : string) (s : GameSettings float) : GameSettings float :=
  {| id_ := id_ s; type_ := type_ s; name_ := name_ s; masterFile_ := masterFile_ s;
     minimumHeaderVersion_ := minimumHeaderVersion_ s;
     lootFolderName_ := lootFolderName_ s; masterlistSource_ := masterlistSource_ s;
     gamePath_ := path; gameLocalPath_ := gameLocalPath_ s |}.

Definition SetGameLocalPath (path : string) (s : GameSettings float) : GameSettings float :=
  {| id_ := id_ s; type_ := type_ s; name_ := name_ s; masterFile_ := masterFile_ s;
     minimumHeaderVersion_ := minimumHeaderVersion_ s;
     lootFolderName_ := lootFolderName_ s; masterlistSource_ := masterlistSource_ s;
     gamePath_ := gamePath_ s; gameLocalPath_ := path |}.

Definition SetGameLocalFolder (folderName : string) (s : GameSettings float) : GameSettings float :=
  SetGameLocalPath (localDataPath catalog folderName) s.

End GameSettingsOps.

(** [LOOTWorker::setGame]: the name table, looked up after [ToLower]. *)
Definition gameMap : gmap string GameId.t :=
  list_to_map
    [ ("morrowind", GameId.tes3); ("oblivion", GameId.tes4);
      ("fallout3", GameId.fo3); ("fallout4", GameId.fo4);
      ("fallout4vr", GameId.fo4vr); ("falloutnv", GameId.fonv);
      ("skyrim", GameId.tes5); ("skyrimse", GameId.tes5se);
      ("skyrimvr", GameId.tes5vr); ("nehrim", GameId.nehrim);
      ("enderal", GameId.enderal); ("enderalse", GameId.enderalse);
      ("starfield", GameId.starfield) ].

Definition setGame (gameName : string) : outcome GameId.t :=
  match gameMap !! ToLower gameName with
  | Some gameId => Done gameId
  | None => Thrown (InvalidGameName gameName)
  end.

(** ** Masterlist-source migration *)

Notation "'let+' x ':=' m 'in' k" := (W_bind m (fun x => k))
  (at level 10, x pattern, m at level 100, k at level 200, only parsing).

(** [oldDefaultBranches], in the order in which the [std::set] iterates. *)
Definition oldDefaultBranches : list string :=
  ["master"; "v0.10"; "v0.13"; "v0.14"; "v0.15"; "v0.17"; "v0.18"; "v0.7"; "v0.8"].

(** [GITHUB_REPO_URL_REGEX], matched against a whole subject as
    [std::regex_match] does:
    [^https://github\.com/([^/]+)/([^/]+?)(?:\.git)?/?$], ignoring case. *)
Module GithubRepoUrlRegex.

(** [/?$] *)
Definition slash_end (t : string) : bool := String.eqb t "" || String.eqb t "/".

(** [(?:\.git)?/?$]: the optional group is tried first, then skipped. *)
Definition tail_ok (t : string) : bool :=
  match Text.strip_literal ".git" t with
  | Some r => slash_end r || slash_end t
  | None => slash_end t
  end.

(** [([^/]+)/]: the greedy class stops at the first separator, which the
    pattern then consumes; the result is the capture and what follows. *)
Fixpoint owner (s : string) : option (string * string) :=
  match s with
  | EmptyString => None
  | String c s' =>
      if Text.is_slash c then Some (EmptyString, s')
      else match owner s' with
           | Some (o, r) => Some (String c o, r)
           | None => None
           end
  end.

(** [([^/]+?)(?:\.git)?/?$]: the lazy class takes one character, then tries
    the rest of the pattern before it takes another. *)
Fixpoint repo (s : string) : option string :=
  match s with
  | EmptyString => None
  | String c s' =>
      if Text.is_slash c then None
      else if tail_ok s' then Some (String c EmptyString)
      else option_map (String c) (repo s')
  end.

(** The sub-matches [std::regex_match] leaves in the [std::smatch]: the whole
    match and the two captures, or nothing when the subject does not match. *)
Definition regex_match (url : string) : list string :=
  match Text.strip_literal "https://github.com/" url with
  | None => []
  | Some rest =>
      match owner rest with
      | None => []
      | Some (o, rest') =>
          if String.eqb o "" then []
          else match repo rest' with
               | None => []
               | Some r => [url; o; r]
               end
      end
  end.

End GithubRepoUrlRegex.

(** The same pattern read as a set of subjects with their two captures,
    without reference to the matcher: a subject is a case-insensitive copy
    of the literal prefix, an owner and a repository free of separators,
    then an admissible tail; the lazy class makes the repository the
    shortest one that leaves an admissible tail. *)
Module GithubRepoUrl.

(** [(?:\.git)?/?] *)
Definition admissible_tail (t : string) : Prop :=
  exists git sl : string,
    t = git +:+ sl /\
    (git = "" \/ Text.ieq_string git ".git" = true) /\
    (sl = "" \/ sl = "/").

Definition matches (url owner repo : string) : Prop :=
  exists scheme tail : string,
    url = scheme +:+ owner +:+ "/" +:+ repo +:+ tail /\
    Text.ieq_string scheme "https://github.com/" = true /\
    owner <> "" /\ Text.no_slash owner = true /\
    repo <> "" /\ Text.no_slash repo = true /\
    admissible_tail tail /\
    (forall repo0 rest : string,
        repo = repo0 +:+ rest -> repo0 <> "" -> rest <> "" ->
        ~ admissible_tail (rest +:+ tail)).

End GithubRepoUrl.

(** [smatch::str(n)] *)
Definition str (regexMatches : list string) (n : nat) : string :=
  nth n regexMatches "".

(** The raw-content URL of the masterlist of a GitHub repository. *)
Definition rawUrl (owner repo branch : string) : string :=
  "https://raw.githubusercontent.com/" +:+ owner +:+ "/" +:+ repo +:+ "/" +:+ branch +:+
  "/masterlist.yaml".

Section Migration.

Variable fs : FileSystem.

(** [LOOTWorker::isLocalPath] *)
Definition isLocalPath (location filename : string) : outcome bool :=
  if Text.starts_with location "http://" || Text.starts_with location "https://"
  then Done false
  else
    let filePath := location // filename in
    let? regular := is_regular_file fs filePath in
    if negb regular then Done false
    else
      let headFilePath := location // ".git" // "HEAD" in
      is_regular_file fs headFilePath.

(** [LOOTWorker::isBranchCheckedOut] *)
Definition isBranchCheckedOut (localGitRepo branch : string) : bool :=
  let headFilePath := localGitRepo // ".git" // "HEAD" in
  match fs_getline fs headFilePath with
  | None => false
  | Some line => String.eqb line ("ref: refs/heads/" +:+ branch)
  end.

(** The first statement of [migrateMasterlistRepoSettings]: a superseded
    default branch becomes the current default branch. *)
Definition migrateBranch (branch : string) : W string :=
  if bool_decide (branch ∈ oldDefaultBranches) then
    let+ _ := tell LogLevel.info
                ("Updating masterlist repository branch from " +:+ branch +:+
                 " to " +:+ DEFAULT_MASTERLIST_BRANCH) in
    W_ret DEFAULT_MASTERLIST_BRANCH
  else W_ret branch.

(** The second and third statements of [migrateMasterlistRepoSettings]: the
    two redirections to the VR-specific repositories. *)
Definition migrateRepositoryUrl (GameId : GameId.t) (url : string) : W string :=
  let+ url :=
    if bool_decide (GameId = GameId.tes5vr) &&
       String.eqb url "https://github.com/loot/skyrimse.git"
    then
      let newUrl := "https://github.com/loot/skyrimvr.git" in
      let+ _ := tell LogLevel.info
                  ("Updating masterlist repository URL from" +:+ url +:+
                   " to " +:+ newUrl) in
      W_ret newUrl
    else W_ret url in
  if bool_decide (GameId = GameId.fo4vr) &&
     String.eqb url "https://github.com/loot/fallout4.git"
  then
    let newUrl := "https://github.com/loot/fallout4vr.git" in
    let+ _ := tell LogLevel.info
                ("Updating masterlist repository URL from " +:+ url +:+
                 " to " +:+ newUrl) in
    W_ret newUrl
  else W_ret url.

Definition not_checked_out_warning (url branch : string) : string :=
  "The URL " +:+ url +:+
  " is a local Git repository path but the configured branch " +:+ branch +:+
  " is not checked out. LOOT will use the path as the masterlist " +:+
  "source, but there may be unexpected differences in the loaded " +:+
  "metadata if the " +:+ branch +:+
  " branch is not manually checked out before the " +:+
  "next time the masterlist is updated.".

Definition not_github_warning : string :=
  "Cannot migrate masterlist repository settings as the URL does not " +:+
  "point to a repository on GitHub.".

(** [LOOTWorker::migrateMasterlistRepoSettings] *)
Definition migrateMasterlistRepoSettings
    (GameId : GameId.t) (url branch : string) : M (option string) :=
  let* branch := lift (migrateBranch branch) in
  let* url := lift (migrateRepositoryUrl GameId url) in
  let filename := "masterlist.yaml" in
  let* local := quiet (isLocalPath url filename) in
  if local then
    let localRepoPath := url in
    let* _ :=
      lift (if negb (isBranchCheckedOut localRepoPath branch)
            then tell LogLevel.warning (not_checked_out_warning url branch)
            else W_ret tt) in
    M_ret (Some (localRepoPath // filename))
  else
    let regexMatches := GithubRepoUrlRegex.regex_match url in
    if negb (length regexMatches =? 3)%nat then
      let* _ := lift (tell LogLevel.warning not_github_warning) in
      M_ret None
    else
      let githubOwner := str regexMatches 1 in
      let githubRepo := str regexMatches 2 in
      M_ret (Some (rawUrl githubOwner githubRepo branch)).

End Migration.

Definition officialMasterlistRepos : list string :=
  ["morrowind"; "oblivion"; "skyrim"; "skyrimse"; "skyrimvr";
   "fallout3"; "falloutnv"; "fallout4"; "fallout4vr"; "enderal"].

(** The legacy URL the two loops of [migrateMasterlistSource] build. *)
Definition legacyMasterlistUrl (repo branch : string) : string :=
  "https://raw.githubusercontent.com/loot/" +:+ repo +:+ "/" +:+ branch +:+
  "/masterlist.yaml".

Definition migration_notice (source newSource : string) : string :=
  "Migrating masterlist source from " +:+ source +:+ " to " +:+ newSource.

(** [LOOTWorker::migrateMasterlistSource]: the outer loop runs over the
    repositories, the inner one over the branches; the first hit returns. *)
Definition migrateMasterlistSource (source : string) : W string :=
  match
    find (fun repo =>
            existsb (fun branch => String.eqb source (legacyMasterlistUrl repo branch))
                    oldDefaultBranches)
         officialMasterlistRepos
  with
  | Some repo =>
      let newSource := GetDefaultMasterlistUrl repo in
      let+ _ := tell LogLevel.info (migration_notice source newSource) in
      W_ret newSource
  | None => W_ret source
  end.

(** ** The parsed configuration document *)

Module Toml.

(** A node of the document.  Dates and times, which the worker never asks
    for, are one constructor. *)
Inductive node (double : Type) : Type :=
| String_ (s : string)
| Integer (z : Z)
| Float (d : double)
| Boolean (b : bool)
| DateTime
| Array (elements : list (node double))
| Table (fields : gmap string (node double)).

Arguments String_ {double} s.
Arguments Integer {double} z.
Arguments Float {double} d.
Arguments Boolean {double} b.
Arguments DateTime {double}.
Arguments Array {double} elements.
Arguments Table {double} fields.

(** The retrieval [value<T>()] is permissive between the number and boolean
    types; which numbers it hands out as a boolean, and which integers and
    booleans as a double, is left to the parsing library. *)
Record Conversions (double : Type) : Type := {
  integer_as_bool : Z -> option bool;
  float_as_bool : double -> option bool;
  integer_as_double : Z -> option double;
  boolean_as_double : bool -> option double
}.

Arguments integer_as_bool {double} _ _.
Arguments float_as_bool {double} _ _.
Arguments integer_as_double {double} _ _.
Arguments boolean_as_double {double} _ _.

Section Retrieval.

Context {double : Type} (conv : Conversions double).

(** [table["key"]] is a view that may be empty: [option (node double)]. *)

(** [value<std::string>()]: strings convert from string nodes only. *)
Definition value_string (view : option (node double)) : option string :=
  match view with
  | Some (String_ s) => Some s
  | _ => None
  end.

(** [value<bool>()] *)
Definition value_bool (view : option (node double)) : option bool :=
  match view with
  | Some (Boolean b) => Some b
  | Some (Integer z) => integer_as_bool conv z
  | Some (Float d) => float_as_bool conv d
  | _ => None
  end.

(** [value<double>()] *)
Definition value_double (view : option (node double)) : option double :=
  match view with
  | Some (Float d) => Some d
  | Some (Integer z) => integer_as_double conv z
  | Some (Boolean b) => boolean_as_double conv b
  | _ => None
  end.

(** [value_or(default)] with a string default. *)
Definition value_or (view : option (node double)) (default : string) : string :=
  match value_string view with
  | Some s => s
  | None => default
  end.

Definition is_table (n : node double) : bool :=
  match n with
  | Table _ => true
  | _ => false
  end.

(** [is_array_of_tables()]: a non-empty array all of whose elements are
    tables. *)
Definition is_array_of_tables (view : option (node double)) : bool :=
  match view with
  | Some (Array (e :: es)) => forallb is_table (e :: es)
  | _ => false
  end.

(** [*games.as_array()] *)
Definition as_array (view : option (node double)) : list (node double) :=
  match view with
  | Some (Array es) => es
  | _ => []
  end.

End Retrieval.

End Toml.

(** What [std::ifstream in(file)] and [toml::parse(in, file.string())] make
    of the settings file: the stream is not open, the parser throws, or the
    parser hands over the document. *)
Inductive SettingsFile (double : Type) : Type :=
| CannotOpen
| Malformed (what : string)
| Parsed (settings : gmap string (Toml.node double)).

Arguments CannotOpen {double}.
Arguments Malformed {double} what.
Arguments Parsed {double} settings.

(** [loot::MessageContent::DEFAULT_LANGUAGE] of the sorting library. *)
Definition DEFAULT_LANGUAGE : string := "en".

(** The members of [LOOTWorker] that settings resolution reads or writes. *)
Record Worker (float : Type) : Type := {
  m_GameId : GameId.t;
  m_Language : string;
  m_GamePath : string;
  m_GameSettings : GameSettings float
}.

Arguments m_GameId {float} _.
Arguments m_Language {float} _.
Arguments m_GamePath {float} _.
Arguments m_GameSettings {float} _.

(** ** Settings resolution *)

Section Settings.

Context {double float : Type}.
Variable catalog : GameCatalog float.
Variable conv : Toml.Conversions double.
(** the cast [(float)] of a [double] *)
Variable narrow : double -> float.
Variable fs : FileSystem.

Local Abbreviation table := (gmap string (Toml.node double)).
Local Abbreviation value_string := Toml.value_string.
Local Abbreviation value_bool := (Toml.value_bool conv).
Local Abbreviation value_double := (Toml.value_double conv).

(** [LOOTWorker::GetLocalFolder] *)
Definition GetLocalFolder (t : table) : option string :=
  let localPath := value_string (t !! "local_path") in
  let localFolder := value_string (t !! "local_folder") in
  match localFolder, localPath with
  | Some folder, _ => Some folder
  | None, Some path => Some (Path.filename path)
  | None, None => None
  end.

(** The four fallback heuristics of [IsNehrim].  The master file name is a
    single path component, for which equality of paths is equality of
    strings. *)
Definition nehrimHeuristics (t : table) : bool :=
  let gameName := value_string (t !! "name") in
  let masterFilename := value_string (t !! "master") in
  let isBaseGameInstance := value_bool (t !! "isBaseGameInstance") in
  let folder := value_string (t !! "folder") in
  match masterFilename with
  | Some m => String.eqb m (GetMasterFilename catalog GameId.nehrim)
  | None => false
  end
  || match gameName with
     | Some n => Text.icontains n "nehrim"
     | None => false
     end
  || match folder with
     | Some f => Text.icontains f "nehrim"
     | None => false
     end
  || match isBaseGameInstance with
     | Some b => negb b
     | None => false
     end.

(** [LOOTWorker::IsNehrim] *)
Definition IsNehrim (t : table) : outcome bool :=
  let installPath := value_string (t !! "path") in
  match installPath with
  | Some path =>
      if negb (String.eqb path "") then
        let? present := exists_ fs path in
        if present then exists_ fs (path // "NehrimLauncher.exe")
        else Done (nehrimHeuristics t)
      else Done (nehrimHeuristics t)
  | None => Done (nehrimHeuristics t)
  end.

(** The four fallback heuristics of the two-argument [IsEnderal]. *)
Definition enderalHeuristics (t : table) (expectedLocalFolder : string) : bool :=
  let gameName := value_string (t !! "name") in
  let isBaseGameInstance := value_bool (t !! "isBaseGameInstance") in
  let localFolder := GetLocalFolder t in
  let folder := value_string (t !! "folder") in
  match localFolder with
  | Some l => String.eqb l expectedLocalFolder
  | None => false
  end
  || match gameName with
     | Some n => Text.icontains n "enderal"
     | None => false
     end
  || match folder with
     | Some f => Text.icontains f "enderal"
     | None => false
     end
  || match isBaseGameInstance with
     | Some b => negb b
     | None => false
     end.

(** [LOOTWorker::IsEnderal(table, expectedLocalFolder)] *)
Definition IsEnderalIn (t : table) (expectedLocalFolder : string) : outcome bool :=
  let installPath := value_string (t !! "path") in
  match installPath with
  | Some path =>
      if negb (String.eqb path "") then
        let? present := exists_ fs path in
        if present then exists_ fs (path // "Enderal Launcher.exe")
        else Done (enderalHeuristics t expectedLocalFolder)
      else Done (enderalHeuristics t expectedLocalFolder)
  | None => Done (enderalHeuristics t expectedLocalFolder)
  end.

(** [LOOTWorker::IsEnderal(table)] *)
Definition IsEnderal (t : table) : outcome bool := IsEnderalIn t "enderal".

(** [LOOTWorker::IsEnderalSE] *)
Definition IsEnderalSE (t : table) : outcome bool :=
  IsEnderalIn t "Enderal Special Edition".

(** The strings the chain of comparisons on the declared type knows. *)
Definition declaredTypes : list string :=
  ["Morrowind"; "Oblivion"; "Skyrim"; "SkyrimSE"; "Skyrim Special Edition";
   "Skyrim VR"; "Fallout3"; "FalloutNV"; "Fallout4"; "Fallout4VR"].

(** The chain of comparisons on the declared type in [getSettings]; what a
    classifier throws leaves the chain. *)
Definition declaredGameId (gameTable : table) (gameType : string) : M GameId.t :=
  if String.eqb gameType "Morrowind" then M_ret GameId.tes3
  else if String.eqb gameType "Oblivion" then
    let* nehrim := quiet (IsNehrim gameTable) in
    M_ret (if nehrim then GameId.nehrim else GameId.tes4)
  else if String.eqb gameType "Skyrim" then
    let* enderal := quiet (IsEnderal gameTable) in
    M_ret (if enderal then GameId.enderal else GameId.tes5)
  else if String.eqb gameType "SkyrimSE" || String.eqb gameType "Skyrim Special Edition" then
    let* enderalse := quiet (IsEnderalSE gameTable) in
    M_ret (if enderalse then GameId.enderalse else GameId.tes5se)
  else if String.eqb gameType "Skyrim VR" then M_ret GameId.tes5vr
  else if String.eqb gameType "Fallout3" then M_ret GameId.fo3
  else if String.eqb gameType "FalloutNV" then M_ret GameId.fonv
  else if String.eqb gameType "Fallout4" then M_ret GameId.fo4
  else if String.eqb gameType "Fallout4VR" then M_ret GameId.fo4vr
  else throw InvalidType.

(** [if (!game.is_table()) throw ...; auto gameTable = *game.as_table();] *)
Definition asTable (game : Toml.node double) : M table :=
  match game with
  | Toml.Table t => M_ret t
  | _ => throw NotATable
  end.

(** The candidate [newSettings] of one games table: the statements of the
    loop body from the read of [gameId] to the construction of the
    candidate. *)
Definition candidate (gameTable : table) : M (GameSettings float) :=
  let id := value_string (gameTable !! "gameId") in
  let* gameType :=
    match id with
    | Some s => M_ret s
    | None => throw MissingGameId
    end in
  let* gameId := declaredGameId gameTable gameType in
  let folder := value_string (gameTable !! "folder") in
  let* folder :=
    match folder with
    | Some f => M_ret f
    | None => throw MissingFolder
    end in
  let type := value_string (gameTable !! "type") in
  let folder :=
    match type with
    | Some ty =>
        if String.eqb ty "SkyrimSE" && String.eqb folder ty
        then "Skyrim Special Edition" else folder
    | None => folder
    end in
  M_ret (newGameSettings catalog gameId folder).

(** The masterlist source of a matched entry, as the [if (source)] statement
    of [getSettings] computes it: the explicit source goes through
    [migrateMasterlistSource]; without one, [*url] and [*branch] are taken
    from the legacy keys with no test of their presence.  [None] is a
    migration without result, after which [SetMasterlistSource] is not
    called. *)
Definition resolveSource (gameTable : table) (GameId : GameId.t) : M (option string) :=
  let source := value_string (gameTable !! "masterlistSource") in
  match source with
  | Some src =>
      let* migrated := lift (migrateMasterlistSource src) in
      M_ret (Some migrated)
  | None =>
      let url := value_string (gameTable !! "repo") in
      let branch := value_string (gameTable !! "branch") in
      let* url' := deref url in
      let* branch' := deref branch in
      migrateMasterlistRepoSettings fs GameId url' branch'
  end.

(** The body of [if (newSettings.Type() == m_GameSettings.Type())]: the
    overrides of a matched entry, merged in the order of the source. *)
Definition mergeOverrides (gameTable : table) (newSettings : GameSettings float)
  : M (GameSettings float) :=
  let name := value_string (gameTable !! "name") in
  let newSettings :=
    match name with
    | Some n => SetName n newSettings
    | None => newSettings
    end in
  let master := value_string (gameTable !! "master") in
  let newSettings :=
    match master with
    | Some m => SetMaster m newSettings
    | None => newSettings
    end in
  let minimumHeaderVersion := value_double (gameTable !! "minimumHeaderVersion") in
  let newSettings :=
    match minimumHeaderVersion with
    | Some v => SetMinimumHeaderVersion (narrow v) newSettings
    | None => newSettings
    end in
  let* source := resolveSource gameTable (id_ newSettings) in
  let newSettings :=
    match source with
    | Some src => SetMasterlistSource src newSettings
    | None => newSettings
    end in
  let path := value_string (gameTable !! "path") in
  let newSettings :=
    match path with
    | Some p => SetGamePath p newSettings
    | None => newSettings
    end in
  let localPath := value_string (gameTable !! "local_path") in
  let localFolder := value_string (gameTable !! "local_folder") in
  match localPath, localFolder with
  | Some _, Some _ => throw ConflictingConfiguration
  | Some p, None => M_ret (SetGameLocalPath p newSettings)
  | None, Some f => M_ret (SetGameLocalFolder catalog f newSettings)
  | None, None => M_ret newSettings
  end.

(** One turn of the loop of [getSettings], inside the [try]: [Some] carries
    the profile that is assigned to [m_GameSettings] before [break]; [None]
    is the end of the body with the type test failed. *)
Definition tryGame (m_GameSettings : GameSettings float) (game : Toml.node double)
  : M (option (GameSettings float)) :=
  let* gameTable := asTable game in
  let* newSettings := candidate gameTable in
  if bool_decide (type_ newSettings = type_ m_GameSettings) then
    let* merged := mergeOverrides gameTable newSettings in
    M_ret (Some merged)
  else M_ret None.

(** The engine-type class an element of the games array stands for: the
    type of its candidate, when the element has one. *)
Definition entryType (game : Toml.node double) : option GameType.t :=
  match fst (let* gameTable := asTable game in candidate gameTable) with
  | Done newSettings => Some (type_ newSettings)
  | _ => None
  end.

(** The two ways in which a turn of the loop ends: the element is accepted
    with a profile, or it is passed over (the type test fails, or what it
    throws is caught). *)
Definition accepted (m_GameSettings : GameSettings float) (game : Toml.node double)
    (newSettings : GameSettings float) : Prop :=
  fst (tryGame m_GameSettings game) = Done (Some newSettings).

Definition skipped (m_GameSettings : GameSettings float) (game : Toml.node double) : Prop :=
  fst (tryGame m_GameSettings game) = Done None \/
  exists e, fst (tryGame m_GameSettings game) = Thrown e.

(** The loop of [getSettings]: [catch (...)] swallows what an element
    throws, [break] leaves at the first assignment. *)
Fixpoint scanGames (m_GameSettings : GameSettings float) (games : list (Toml.node double))
  : M (GameSettings float) :=
  match games with
  | [] => M_ret m_GameSettings
  | game :: rest =>
      let r := tryGame m_GameSettings game in
      match fst r with
      | Done (Some newSettings) => (Done newSettings, snd r)
      | Done None | Thrown _ =>
          let k := scanGames m_GameSettings rest in
          (fst k, (snd r ++ snd k)%list)
      | Undefined => (Undefined, snd r)
      end
  end.

(** [LOOTWorker::getSettings].  Opening and parsing the file come before
    the [try] of the loop: what they throw leaves the function. *)
Definition getSettings (w : Worker float) (file : SettingsFile double) : M (Worker float) :=
  let* settings :=
    match file with
    | CannotOpen => throw CouldNotBeOpened
    | Malformed what => throw (ParseError what)
    | Parsed settings => M_ret settings
    end in
  let games := settings !! "games" in
  let* resolved :=
    if Toml.is_array_of_tables games
    then scanGames (m_GameSettings w) (Toml.as_array games)
    else M_ret (m_GameSettings w) in
  let language :=
    if String.eqb (m_Language w) ""
    then Toml.value_or (settings !! "language") DEFAULT_LANGUAGE
    else m_Language w in
  M_ret {| m_GameId := m_GameId w; m_Language := language;
           m_GamePath := m_GamePath w; m_GameSettings := resolved |}.

(** The statements of [LOOTWorker::run] that produce the profile handed to
    the sorter: the catalogue defaults of the requested game, the settings
    file when [fs::exists] finds it, then the game path of the command
    line.  [settings] is the path that [settingsPath()] returns, [file] what
    is read at that path. *)
Definition runSettings (w : Worker float) (settings : string) (file : SettingsFile double)
  : M (Worker float) :=
  let w0 :=
    {| m_GameId := m_GameId w; m_Language := m_Language w; m_GamePath := m_GamePath w;
       m_GameSettings := newGameSettings catalog (m_GameId w) (ToString catalog (m_GameId w)) |} in
  let* present := quiet (exists_ fs settings) in
  let* w1 := if present then getSettings w0 file else M_ret w0 in
  M_ret {| m_GameId := m_GameId w1; m_Language := m_Language w1;
           m_GamePath := m_GamePath w1;
           m_GameSettings := SetGamePath (m_GamePath w1) (m_GameSettings w1) |}.

End Settings.

(** ** Report assembly *)

Module Json.

(** [QJsonValue]; a [QJsonObject] is a map from keys to values. *)
Inductive value : Type :=
| Null
| Bool (b : bool)
| Number (z : Z)
| String_ (s : string)
| Array (elements : list value)
| Object (members : gmap string value).

Abbreviation object := (gmap string value).

(** What [set] tests: an empty object, an empty array or an empty string. *)
Definition isEmpty (v : value) : bool :=
  match v with
  | Object members => (size members =? 0)%nat
  | Array elements => (length elements =? 0)%nat
  | String_ s => String.eqb s ""
  | _ => false
  end.

End Json.

(** [set] of lootthread.cpp: the assignment [o[e] = v] unless [v] is empty. *)
Definition set (o : Json.object) (e : string) (v : Json.value) : Json.object :=
  if Json.isEmpty v then o else <[e := v]> o.

(** No member other than the name is an empty object, array or string. *)
Definition detailsNonEmpty (o : Json.object) : Prop :=
  forall (k : string) (v : Json.value),
    o !! k = Some v -> k <> "name" -> Json.isEmpty v = false.

(** What the report reads from the sorting library. *)
Module MessageType.

Inductive t : Set := say | warn | error.

End MessageType.

Record MessageContent : Set := { GetText : string; GetLanguage : string }.

Record Message : Set := { GetType : MessageType.t; GetContent : list MessageContent }.

Record File : Set := { GetName : string; GetDisplayName : string }.

Record PluginCleaningData : Set := {
  GetCRC : Z;
  GetITMCount : Z;
  GetDeletedReferenceCount : Z;
  GetDeletedNavmeshCount : Z;
  GetCleaningUtility : string;
  GetDetail : list MessageContent
}.

Record PluginMetadata : Set := {
  GetIncompatibilities : list File;
  GetMessages : list Message;
  GetDirtyInfo : list PluginCleaningData;
  GetCleanInfo : list PluginCleaningData
}.

Record PluginInterface : Set := {
  LoadsArchive : bool;
  IsMaster : bool;
  IsLightPlugin : bool;
  GetMasters : list string
}.

(** [loot::GameInterface] with its database, and the library's choice of a
    message text for a language.  The two queries of the database evaluate
    the conditions of the metadata, which the library can refuse with an
    exception: [inl] with its message.  The choice of a text is a search in
    the contents it is given: it evaluates no condition and reads nothing
    else. *)
Record GameInterface : Type := {
  (** a null pointer is [None] *)
  GetPlugin : string -> option PluginInterface;
  (** [GetDatabase().GetPluginMetadata(name, true, true)] *)
  GetPluginMetadata : string -> string + option PluginMetadata;
  (** [GetDatabase().GetGeneralMessages(true)] *)
  GetGeneralMessages : string + list Message;
  SelectMessageContent : list MessageContent -> string -> option MessageContent
}.

(** The answer of a query to the sorting library, or what it throws. *)
Definition library {A} (answer : string + A) : outcome A :=
  match answer with
  | inl what => Thrown (SorterError what)
  | inr a => Done a
  end.

(** [toString(loot::MessageType)] *)
Definition toString (type : MessageType.t) : string :=
  match type with
  | MessageType.say => "info"
  | MessageType.warn => "warn"
  | MessageType.error => "error"
  end.

(** [ptr->] on a pointer that may be null. *)
Definition arrow {A} (ptr : option A) : outcome A :=
  match ptr with
  | Some a => Done a
  | None => Undefined
  end.

Section Report.

Variable game : GameInterface.
Variable m_Language : string.

(** [game.GetPlugin(name)] used as a condition: the pointer is not null. *)
Definition isLoaded (name : string) : bool :=
  match GetPlugin game name with
  | Some _ => true
  | None => false
  end.

(** [LOOTWorker::createMessages] *)
Definition createMessages (list_ : list Message) : Json.value :=
  Json.Array
    (flat_map
       (fun m =>
          match SelectMessageContent game (GetContent m) m_Language with
          | Some simpleMessage =>
              [Json.Object
                 (<["text" := Json.String_ (GetText simpleMessage)]>
                    (<["type" := Json.String_ (toString (GetType m))]> ∅))]
          | None => []
          end)
       list_).

(** The [info] member of a cleaning record: the text chosen for the detail,
    or the empty string, both through [set]. *)
Definition setInfo (o : Json.object) (d : PluginCleaningData) : Json.object :=
  match SelectMessageContent game (GetDetail d) m_Language with
  | Some simpleMessage => set o "info" (Json.String_ (GetText simpleMessage))
  | None => set o "info" (Json.String_ "")
  end.

(** [LOOTWorker::createDirty] *)
Definition createDirty (data : list PluginCleaningData) : Json.value :=
  Json.Array
    (map
       (fun d =>
          let o : Json.object :=
            <["deletedNavmesh" := Json.Number (GetDeletedNavmeshCount d)]>
              (<["deletedReferences" := Json.Number (GetDeletedReferenceCount d)]>
                 (<["itm" := Json.Number (GetITMCount d)]>
                    (<["crc" := Json.Number (GetCRC d)]> ∅))) in
          let o := set o "cleaningUtility" (Json.String_ (GetCleaningUtility d)) in
          Json.Object (setInfo o d))
       data).

(** [LOOTWorker::createClean] *)
Definition createClean (data : list PluginCleaningData) : Json.value :=
  Json.Array
    (map
       (fun d =>
          let o : Json.object := <["crc" := Json.Number (GetCRC d)]> ∅ in
          let o := set o "cleaningUtility" (Json.String_ (GetCleaningUtility d)) in
          Json.Object (setInfo o d))
       data).

(** [LOOTWorker::createIncompatibilities] *)
Definition createIncompatibilities (data : list File) : Json.value :=
  Json.Array
    (flat_map
       (fun f =>
          let n := GetName f in
          if negb (isLoaded n) then []
          else
              let name := n in
              let displayName := GetDisplayName f in
              let o : Json.object := <["name" := Json.String_ name]> ∅ in
              let o :=
                if negb (String.eqb displayName name)
                then set o "displayName" (Json.String_ displayName)
                else o in
              [Json.Object o])
       data).

(** [LOOTWorker::createMissingMasters] *)
Definition createMissingMasters (pluginName : string) : outcome Json.value :=
  let? plugin := arrow (GetPlugin game pluginName) in
  Done (Json.Array
          (map Json.String_
               (List.filter (fun master => negb (isLoaded master)) (GetMasters plugin)))).

(** The body of the loop of [createPlugins] up to the test of the size: the
    object [o] of one plugin. *)
Definition pluginObject (pluginName : string) : outcome Json.object :=
  let plugin := GetPlugin game pluginName in
  let o : Json.object := <["name" := Json.String_ pluginName]> ∅ in
  let? metaData := library (GetPluginMetadata game pluginName) in
  let o :=
    match metaData with
    | Some metaData =>
        let o := set o "incompatibilities"
                     (createIncompatibilities (GetIncompatibilities metaData)) in
        let o := set o "messages" (createMessages (GetMessages metaData)) in
        let o := set o "dirty" (createDirty (GetDirtyInfo metaData)) in
        set o "clean" (createClean (GetCleanInfo metaData))
    | None => o
    end in
  let? missingMasters := createMissingMasters pluginName in
  let o := set o "missingMasters" missingMasters in
  let? plugin := arrow plugin in
  let o := if LoadsArchive plugin then <["loadsArchive" := Json.Bool true]> o else o in
  let o := if IsMaster plugin then <["isMaster" := Json.Bool true]> o else o in
  let o := if IsLightPlugin plugin then <["isLightMaster" := Json.Bool true]> o else o in
  Done o.

(** [LOOTWorker::createPlugins]: an object goes into the array when it has
    more than one member. *)
Fixpoint createPlugins (sortedPlugins : list string) : outcome (list Json.value) :=
  match sortedPlugins with
  | [] => Done []
  | pluginName :: rest =>
      let? o := pluginObject pluginName in
      let? plugins := createPlugins rest in
      Done (if (1 <? size o)%nat then Json.Object o :: plugins else plugins)
  end.

(** What the object of a plugin holds beyond the name, read off the data of
    the sorter: an incompatibility with a loaded plugin, a message with a
    text for the language, a cleaning record, a master that is not loaded,
    or one of the three flags. *)
Definition hasDetails (pluginName : string) : bool :=
  match GetPluginMetadata game pluginName with
  | inr (Some metaData) =>
      existsb (fun f => isLoaded (GetName f)) (GetIncompatibilities metaData) ||
      existsb (fun m =>
                 bool_decide (is_Some (SelectMessageContent game (GetContent m) m_Language)))
              (GetMessages metaData) ||
      negb (length (GetDirtyInfo metaData) =? 0)%nat ||
      negb (length (GetCleanInfo metaData) =? 0)%nat
  | _ => false
  end ||
  match GetPlugin game pluginName with
  | Some plugin =>
      existsb (fun master => negb (isLoaded master)) (GetMasters plugin) ||
      LoadsArchive plugin || IsMaster plugin || IsLightPlugin plugin
  | None => false
  end.

(** [LOOTWorker::createJsonReport] up to the serialisation of the root; the
    elapsed time and the two version strings are arguments. *)
Definition createJsonReport (sortedPlugins : list string)
    (time : Z) (lootcliVersion lootVersion : string) : outcome Json.object :=
  let root : Json.object := ∅ in
  let? messages := library (GetGeneralMessages game) in
  let root := set root "messages" (createMessages messages) in
  let? plugins := createPlugins sortedPlugins in
  let root := set root "plugins" (Json.Array plugins) in
  Done (set root "stats"
            (Json.Object
               (<["lootVersion" := Json.String_ lootVersion]>
                  (<["lootcliVersion" := Json.String_ lootcliVersion]>
                     (<["time" := Json.Number time]> ∅))))).

End Report.

(** ** Sample data for the examples *)

Module Sample.

(** A disk with nothing on it. *)
Definition emptyDisk : FileSystem :=
  {| fs_exists := fun _ => Some false;
     fs_is_regular_file := fun _ => Some false;
     fs_getline := fun _ => None |}.

(** A disk on which the status of /locked, and of what lies under it, cannot
    be read. *)
Definition lockedDisk : FileSystem :=
  {| fs_exists := fun p =>
       if Text.starts_with p "/locked" then None else Some false;
     fs_is_regular_file := fun p =>
       if Text.starts_with p "/locked" then None else Some false;
     fs_getline := fun _ => None |}.

(** A disk that holds a clone of a masterlist repository in /repo, with the
    branch [main] checked out. *)
Definition cloneDisk : FileSystem :=
  {| fs_exists := fun p =>
       Some (String.eqb p "/repo" || String.eqb p "/repo/masterlist.yaml" ||
             String.eqb p "/repo/.git/HEAD");
     fs_is_regular_file := fun p =>
       Some (String.eqb p "/repo/masterlist.yaml" || String.eqb p "/repo/.git/HEAD");
     fs_getline := fun p =>
       if String.eqb p "/repo/.git/HEAD" then Some "ref: refs/heads/main" else None |}.

(** A catalogue in which header versions are counted in thousandths. *)
Definition catalog : GameCatalog Z :=
  {| ToString := fun g =>
       match g with
       | GameId.tes3 => "Morrowind" | GameId.tes4 => "Oblivion"
       | GameId.nehrim => "Nehrim" | GameId.tes5 => "Skyrim"
       | GameId.enderal => "Enderal" | GameId.tes5se => "Skyrim Special Edition"
       | GameId.enderalse => "Enderal Special Edition" | GameId.tes5vr => "Skyrim VR"
       | GameId.fo3 => "Fallout3" | GameId.fonv => "FalloutNV"
       | GameId.fo4 => "Fallout4" | GameId.fo4vr => "Fallout4VR"
       | GameId.starfield => "Starfield"
       end;
     GetGameName := fun g =>
       match g with
       | GameId.tes3 => "TES III: Morrowind" | GameId.tes4 => "TES IV: Oblivion"
       | GameId.nehrim => "Nehrim - At Fate's Edge" | GameId.tes5 => "TES V: Skyrim"
       | GameId.enderal => "Enderal: Forgotten Stories"
       | GameId.tes5se => "TES V: Skyrim Special Edition"
       | GameId.enderalse => "Enderal: Forgotten Stories (Special Edition)"
       | GameId.tes5vr => "TES V: Skyrim VR"
       | GameId.fo3 => "Fallout 3" | GameId.fonv => "Fallout: New Vegas"
       | GameId.fo4 => "Fallout 4" | GameId.fo4vr => "Fallout 4 VR"
       | GameId.starfield => "Starfield"
       end;
     GetMasterFilename := fun g =>
       match g with
       | GameId.tes3 => "Morrowind.esm" | GameId.tes4 => "Oblivion.esm"
       | GameId.nehrim => "Nehrim.esm"
       | GameId.tes5 | GameId.enderal | GameId.tes5se | GameId.enderalse
       | GameId.tes5vr => "Skyrim.esm"
       | GameId.fo3 => "Fallout3.esm" | GameId.fonv => "FalloutNV.esm"
       | GameId.fo4 | GameId.fo4vr => "Fallout4.esm"
       | GameId.starfield => "Starfield.esm"
       end;
     GetMinimumHeaderVersion := fun g =>
       match g with
       | GameId.tes3 => 1200%Z
       | GameId.tes4 | GameId.nehrim => 800%Z
       | _ => 940%Z
       end;
     GetDefaultMasterlistRepositoryName := fun g =>
       match g with
       | GameId.tes3 => "morrowind"
       | GameId.tes4 | GameId.nehrim => "oblivion"
       | GameId.tes5 => "skyrim"
       | GameId.enderal | GameId.enderalse => "enderal"
       | GameId.tes5se => "skyrimse" | GameId.tes5vr => "skyrimvr"
       | GameId.fo3 => "fallout3" | GameId.fonv => "falloutnv"
       | GameId.fo4 => "fallout4" | GameId.fo4vr => "fallout4vr"
       | GameId.starfield => "starfield"
       end;
     localDataPath := fun folder => "/home/user/.local/share" // folder |}.

(** Doubles as thousandths as well; an integer is handed out as a boolean
    by its being non-zero, and as the double of the same value. *)
Definition conv : Toml.Conversions Z :=
  {| Toml.integer_as_bool := fun z => Some (negb (z =? 0)%Z);
     Toml.float_as_bool := fun _ => None;
     Toml.integer_as_double := fun z => Some (1000 * z)%Z;
     Toml.boolean_as_double := fun _ => None |}.

Definition narrow (d : Z) : Z := d.

Definition entry (fields : list (string * Toml.node Z)) : Toml.node Z :=
  Toml.Table (list_to_map fields).

(** Three configured games: a Morrowind entry, an Oblivion entry with a
    name and a legacy masterlist source, and a second Oblivion entry in
    which both local_path and local_folder are set. *)
Definition morrowindEntry : Toml.node Z :=
  entry [("gameId", Toml.String_ "Morrowind"); ("folder", Toml.String_ "Morrowind");
         ("masterlistSource",
          Toml.String_ "https://raw.githubusercontent.com/loot/morrowind/v0.23/masterlist.yaml")].

Definition oblivionFields : gmap string (Toml.node Z) :=
  list_to_map
    [("gameId", Toml.String_ "Oblivion"); ("folder", Toml.String_ "Oblivion");
     ("name", Toml.String_ "My Oblivion");
     ("masterlistSource",
      Toml.String_ "https://raw.githubusercontent.com/loot/oblivion/v0.17/masterlist.yaml")].

Definition oblivionEntry : Toml.node Z := Toml.Table oblivionFields.

Definition conflictingFields : gmap string (Toml.node Z) :=
  list_to_map
    [("gameId", Toml.String_ "Oblivion"); ("folder", Toml.String_ "Oblivion");
     ("name", Toml.String_ "Other Oblivion");
     ("masterlistSource", Toml.String_ "https://example.com/masterlist.yaml");
     ("local_path", Toml.String_ "/data/oblivion");
     ("local_folder", Toml.String_ "Oblivion")].

Definition threeGames : gmap string (Toml.node Z) :=
  list_to_map
    [("games", Toml.Array [morrowindEntry; oblivionEntry; Toml.Table conflictingFields])].

(** The second Oblivion entry put before the first one. *)
Definition conflictFirst : gmap string (Toml.node Z) :=
  list_to_map [("games", Toml.Array [Toml.Table conflictingFields; oblivionEntry])].

(** An Oblivion entry installed where the disk cannot be read. *)
Definition lockedFields : gmap string (Toml.node Z) :=
  list_to_map
    [("gameId", Toml.String_ "Oblivion"); ("folder", Toml.String_ "Oblivion");
     ("path", Toml.String_ "/locked/Oblivion");
     ("masterlistSource", Toml.String_ "https://example.com/masterlist.yaml")].

(** An entry with neither masterlistSource nor repo nor branch. *)
Definition bareFields : gmap string (Toml.node Z) :=
  list_to_map
    [("gameId", Toml.String_ "Morrowind"); ("folder", Toml.String_ "Morrowind")].

(** An entry that declares Starfield. *)
Definition starfieldFields : gmap string (Toml.node Z) :=
  list_to_map
    [("gameId", Toml.String_ "Starfield"); ("folder", Toml.String_ "Starfield");
     ("name", Toml.String_ "My Starfield")].

(** An Oblivion entry that only its master file marks as Nehrim. *)
Definition nehrimFields : gmap string (Toml.node Z) :=
  list_to_map
    [("gameId", Toml.String_ "Oblivion"); ("folder", Toml.String_ "Oblivion");
     ("master", Toml.String_ "Nehrim.esm")].

(** A load order of three plugins: a master without metadata, a plugin
    without anything to report, and a plugin with a message and a master
    that is not installed. *)
Definition sortedGame : GameInterface :=
  {| GetPlugin := fun n =>
       if String.eqb n "Skyrim.esm" then
         Some {| LoadsArchive := false; IsMaster := true; IsLightPlugin := false;
                 GetMasters := [] |}
       else if String.eqb n "Quiet.esp" then
         Some {| LoadsArchive := false; IsMaster := false; IsLightPlugin := false;
                 GetMasters := ["Skyrim.esm"] |}
       else if String.eqb n "Patch.esp" then
         Some {| LoadsArchive := false; IsMaster := false; IsLightPlugin := false;
                 GetMasters := ["Skyrim.esm"; "Absent.esm"] |}
       else None;
     GetPluginMetadata := fun n =>
       if String.eqb n "Patch.esp" then
         inr (Some {| GetIncompatibilities := [];
                      GetMessages :=
                        [{| GetType := MessageType.warn;
                            GetContent := [{| GetText := "Needs Absent.esm";
                                              GetLanguage := "en" |}] |}];
                      GetDirtyInfo := []; GetCleanInfo := [] |})
       else inr None;
     GetGeneralMessages := inr [];
     SelectMessageContent := fun content language =>
       find (fun c => String.eqb (GetLanguage c) language) content |}.

(** The same plugins with a database that refuses the metadata of
    Patch.esp. *)
Definition refusingGame : GameInterface :=
  {| GetPlugin := GetPlugin sortedGame;
     GetPluginMetadata := fun n =>
       if String.eqb n "Patch.esp" then inl "invalid condition" else inr None;
     GetGeneralMessages := inr [];
     SelectMessageContent := SelectMessageContent sortedGame |}.

Definition worker (gameId : GameId.t) : Worker Z :=
  {| m_GameId := gameId; m_Language := ""; m_GamePath := "/games/current";
     m_GameSettings := newGameSettings catalog gameId (ToString catalog gameId) |}.

End Sample.

(** ** The rest of the worker *)

(** The error of [getOldDefaultRepoUrl]: the [std::runtime_error] whose
    message ends in the underlying value of the identity. *)
Inductive repo_error : Set :=
| UnrecognisedGameType (underlying : nat).

(** The underlying value of a [loot::GameId], in the order of the
    enumeration. *)
Definition underlying (gameId : GameId.t) : nat :=
  match gameId with
  | GameId.tes3 => 0 | GameId.tes4 => 1 | GameId.nehrim => 2 | GameId.tes5 => 3
  | GameId.enderal => 4 | GameId.tes5se => 5 | GameId.enderalse => 6
  | GameId.tes5vr => 7 | GameId.fo3 => 8 | GameId.fonv => 9 | GameId.fo4 => 10
  | GameId.fo4vr => 11 | GameId.starfield => 12
  end.

(** [LOOTWorker::getOldDefaultRepoUrl] *)
Definition getOldDefaultRepoUrl (GameId : GameId.t) : repo_error + string :=
  match GameId with
  | GameId.tes3 => inr "https://github.com/loot/morrowind.git"
  | GameId.tes4 => inr "https://github.com/loot/oblivion.git"
  | GameId.tes5 => inr "https://github.com/loot/skyrim.git"
  | GameId.tes5se => inr "https://github.com/loot/skyrimse.git"
  | GameId.tes5vr => inr "https://github.com/loot/skyrimvr.git"
  | GameId.fo3 => inr "https://github.com/loot/fallout3.git"
  | GameId.fonv => inr "https://github.com/loot/falloutnv.git"
  | GameId.fo4 => inr "https://github.com/loot/fallout4.git"
  | GameId.fo4vr => inr "https://github.com/loot/fallout4vr.git"
  | _ => inl (UnrecognisedGameType (underlying GameId))
  end.

(** [escape] of lootthread.cpp: every double quote gets a backslash in
    front. *)
Definition dquote : ascii := "034"%char.

Definition backslash : ascii := "092"%char.

Definition escape (s : string) : string :=
  Text.replace_char dquote (String backslash (String dquote EmptyString)) s.

(** ** The command line (the file with [main]) *)

Module Cli.

(** [std::runtime_error("argument missing " + key)] *)
Inductive error : Set :=
| ArgumentMissing (key : string).

(** [std::find(arguments.begin(), arguments.end(), x)]: what the iterator
    points at and what follows, nothing for the end iterator. *)
Fixpoint find_from (x : string) (arguments : list string) : list string :=
  match arguments with
  | [] => []
  | a :: rest => if String.eqb a x then a :: rest else find_from x rest
  end.

(** [getParameter<std::string>]; the [lexical_cast] of a string to a string
    is the string. *)
Definition getParameter (arguments : list string) (key : string) : error + string :=
  match find_from ("--" +:+ key) arguments with
  | _ :: value :: _ => inr value
  | _ => inl (ArgumentMissing key)
  end.

(** [getParameter<bool>] *)
Definition getParameter_bool (arguments : list string) (key : string) : bool :=
  match find_from ("--" +:+ key) arguments with
  | _ :: _ => true
  | [] => false
  end.

(** [getOptionalParameter<std::string>] *)
Definition getOptionalParameter (arguments : list string) (key def : string) : string :=
  match getParameter arguments key with
  | inr value => value
  | inl _ => def
  end.

End Cli.

(* ===================================================================== *)
(** * Part II: properties *)
(* ===================================================================== *)

(** ** Facts about strings *)

#[local] Arguments append _ _ : simpl nomatch.

Module TextFacts.

Lemma app_assoc (a b c : string) : (a +:+ b) +:+ c = a +:+ (b +:+ c).
Proof. induction a as [|x a IH]; simpl; [reflexivity | now rewrite IH]. Qed.

Lemma app_nil_r (a : string) : a +:+ "" = a.
Proof. induction a as [|x a IH]; simpl; [reflexivity | now rewrite IH]. Qed.

Lemma length_app (a b : string) :
  String.length (a +:+ b) = String.length a + String.length b.
Proof. induction a as [|x a IH]; simpl; [reflexivity | now rewrite IH]. Qed.

Lemma app_inv_tail (a b c : string) : a +:+ c = b +:+ c -> a = b.
Proof.
  revert b. induction a as [|x a IH]; intros [|y b] H; simpl in H.
  - reflexivity.
  - apply (f_equal String.length) in H. simpl in H. rewrite length_app in H. lia.
  - apply (f_equal String.length) in H. simpl in H. rewrite length_app in H. lia.
  - injection H as -> H. f_equal. now apply IH.
Qed.

Lemma app_inv_head (a b c : string) : a +:+ b = a +:+ c -> b = c.
Proof. induction a as [|x a IH]; simpl; intros H; [assumption | injection H; auto]. Qed.

Lemma is_slash_true (c : ascii) : Text.is_slash c = true <-> c = Text.slash.
Proof. unfold Text.is_slash. apply Ascii.eqb_eq. Qed.

Lemma no_slash_app (a b : string) :
  Text.no_slash (a +:+ b) = Text.no_slash a && Text.no_slash b.
Proof.
  induction a as [|x a IH]; simpl; [reflexivity|].
  rewrite IH. now rewrite andb_assoc.
Qed.

(** A string splits at its first separator in one way only. *)
Lemma first_slash_unique (a b x y : string) :
  Text.no_slash a = true -> Text.no_slash b = true ->
  a +:+ String Text.slash x = b +:+ String Text.slash y -> a = b /\ x = y.
Proof.
  revert b. induction a as [|c a IH]; intros [|d b] Ha Hb H; simpl in *.
  - injection H as ->. auto.
  - injection H as <- _. apply andb_prop in Hb as [Hb _].
    unfold Text.is_slash in Hb. now rewrite Ascii.eqb_refl in Hb.
  - injection H as -> _. apply andb_prop in Ha as [Ha _].
    unfold Text.is_slash in Ha. now rewrite Ascii.eqb_refl in Ha.
  - injection H as -> H. apply andb_prop in Ha as [_ Ha].
    apply andb_prop in Hb as [_ Hb].
    destruct (IH b Ha Hb H) as [-> ->]. auto.
Qed.

Lemma starts_with_app (p r : string) : Text.starts_with (p +:+ r) p = true.
Proof.
  induction p as [|c p IH]; simpl; [reflexivity|].
  now rewrite Ascii.eqb_refl.
Qed.

Lemma starts_with_inv (s p : string) :
  Text.starts_with s p = true -> exists r, s = p +:+ r.
Proof.
  revert s. induction p as [|d p IH]; intros s H.
  - now exists s.
  - destruct s as [|c s]; simpl in H; [discriminate|].
    apply andb_prop in H as [Hc H]. apply Ascii.eqb_eq in Hc as ->.
    destruct (IH s H) as [r ->]. now exists r.
Qed.

(** A prefix test on a concatenation is decided by the left part as soon as
    that part is long enough. *)
Lemma starts_with_app_long (a b p : string) :
  String.length p <= String.length a ->
  Text.starts_with (a +:+ b) p = Text.starts_with a p.
Proof.
  revert a. induction p as [|d p IH]; intros a Hl; [reflexivity|].
  destruct a as [|c a]; simpl in *; [lia|].
  rewrite IH by lia. reflexivity.
Qed.

Lemma ieq_boost_true (c d : ascii) :
  Text.ieq_boost c d = true <-> Text.toupper c = Text.toupper d.
Proof. unfold Text.ieq_boost. apply Ascii.eqb_eq. Qed.

Lemma istarts_with_spec (s p : string) :
  Text.istarts_with s p = true <->
  exists mid post, s = mid +:+ post /\ Text.ToUpper mid = Text.ToUpper p.
Proof.
  revert s. induction p as [|d p IH]; intros s.
  - split; [|reflexivity]. intros _. now exists "", s.
  - destruct s as [|c s]; simpl.
    + split; [discriminate|]. intros ([|x mid] & post & E & Hm); discriminate.
    + rewrite andb_true_iff, ieq_boost_true, IH. split.
      * intros (Hc & mid & post & -> & Hm). exists (String c mid), post.
        simpl. now rewrite Hc, Hm.
      * intros ([|x mid] & post & E & Hm); [discriminate|].
        simpl in E, Hm. injection E as -> ->. injection Hm as Hc Hm.
        split; [assumption|]. now exists mid, post.
Qed.

Lemma icontains_spec (s p : string) :
  Text.icontains s p = true <-> Text.contains_ignoring_case s p.
Proof.
  unfold Text.contains_ignoring_case. induction s as [|c s IH].
  - cbn [Text.icontains]. rewrite orb_false_r, istarts_with_spec. split.
    + intros (mid & post & E & Hm). now exists "", mid, post.
    + intros ([|x pre] & mid & post & E & Hm); [|discriminate].
      now exists mid, post.
  - cbn [Text.icontains]. rewrite orb_true_iff, IH, istarts_with_spec. split.
    + intros [(mid & post & E & Hm) | (pre & mid & post & E & Hm)].
      * now exists "", mid, post.
      * exists (String c pre), mid, post. simpl. now rewrite E.
    + intros ([|x pre] & mid & post & E & Hm).
      * left. now exists mid, post.
      * right. simpl in E. injection E as _ E. now exists pre, mid, post.
Qed.

End TextFacts.

(** ** Facts about the writer *)

Lemma in_superseded (branch : string) :
  branch ∈ oldDefaultBranches <->
  branch ∈ ["master"; "v0.7"; "v0.8"; "v0.10"; "v0.13"; "v0.14"; "v0.15"; "v0.17"; "v0.18"].
Proof. unfold oldDefaultBranches. rewrite !elem_of_cons, !elem_of_nil. tauto. Qed.

Lemma default_branch_current : DEFAULT_MASTERLIST_BRANCH ∉ oldDefaultBranches.
Proof.
  unfold oldDefaultBranches, DEFAULT_MASTERLIST_BRANCH.
  rewrite !elem_of_cons, elem_of_nil. intros H.
  repeat (destruct H as [H | H]; [discriminate H|]). exact H.
Qed.

Lemma migrateBranch_value (branch : string) :
  fst (migrateBranch branch) =
  if bool_decide (branch ∈ oldDefaultBranches) then DEFAULT_MASTERLIST_BRANCH else branch.
Proof. unfold migrateBranch. now case_bool_decide. Qed.

Lemma migrateBranch_current (branch : string) :
  fst (migrateBranch branch) ∉ oldDefaultBranches.
Proof.
  rewrite migrateBranch_value. case_bool_decide; [apply default_branch_current | assumption].
Qed.

(** A call is printed exactly when its level is not below the minimum. *)
Lemma log_prints (m_LogLevel : LogLevel.t) (c : log_call) :
  log m_LogLevel c <> [] <-> LogLevel.rank m_LogLevel <= LogLevel.rank (call_level c).
Proof.
  unfold log. destruct (Nat.ltb_spec (LogLevel.rank (call_level c)) (LogLevel.rank m_LogLevel));
    split; intros; (congruence || lia).
Qed.

(** ** Branch migration *)

(** C4: branch migration maps every branch name of the known-superseded set
    {master, v0.7, v0.8, v0.10, v0.13, v0.14, v0.15, v0.17, v0.18} to the one
    current default branch, leaves every other branch name as it is (and
    logs nothing for it), and is idempotent. *)
Theorem migrateBranch_superseded_idempotent :
  (forall branch : string,
      branch ∈ ["master"; "v0.7"; "v0.8"; "v0.10"; "v0.13"; "v0.14"; "v0.15"; "v0.17"; "v0.18"] ->
      fst (migrateBranch branch) = DEFAULT_MASTERLIST_BRANCH) /\
  (forall branch : string,
      branch ∉ ["master"; "v0.7"; "v0.8"; "v0.10"; "v0.13"; "v0.14"; "v0.15"; "v0.17"; "v0.18"] ->
      migrateBranch branch = (branch, [])) /\
  (forall branch : string,
      fst (migrateBranch (fst (migrateBranch branch))) = fst (migrateBranch branch)).
Proof.
  split; [|split].
  - intros branch H. apply in_superseded in H.
    rewrite migrateBranch_value. now rewrite bool_decide_eq_true_2.
  - intros branch H. rewrite <- in_superseded in H.
    unfold migrateBranch. now rewrite bool_decide_eq_false_2.
  - intros branch. pose proof (migrateBranch_current branch) as H.
    rewrite (migrateBranch_value (fst _)). now rewrite bool_decide_eq_false_2.
Qed.

Lemma migrateBranch_superseded_idempotent_witness :
  fst (migrateBranch "v0.17") = "v0.23" /\ migrateBranch "v0.21" = ("v0.21", []).
Proof.
  split.
  - apply (proj1 migrateBranch_superseded_idempotent).
    rewrite !elem_of_cons. do 7 right. left. reflexivity.
  - apply (proj1 (proj2 migrateBranch_superseded_idempotent)).
    rewrite !elem_of_cons, elem_of_nil. intros H.
    repeat (destruct H as [H | H]; [discriminate H|]). exact H.
Defined.

(** ** The repository pattern *)

Module RegexFacts.

Import GithubRepoUrlRegex.

Lemma strip_literal_app (p scheme r : string) :
  Text.ieq_string scheme p = true -> Text.strip_literal p (scheme +:+ r) = Some r.
Proof.
  revert scheme. induction p as [|d p IH]; intros [|c scheme] H; simpl in *;
    try discriminate; [reflexivity|].
  apply andb_prop in H as [Hc H]. rewrite Hc. now apply IH.
Qed.

Lemma strip_literal_inv (p s r : string) :
  Text.strip_literal p s = Some r ->
  exists scheme, s = scheme +:+ r /\ Text.ieq_string scheme p = true.
Proof.
  revert s. induction p as [|d p IH]; intros s H; simpl in H.
  - injection H as ->. now exists "".
  - destruct s as [|c s]; [discriminate|].
    destruct (Text.ieq_regex c d) eqn:Hc; [|discriminate].
    destruct (IH s H) as (scheme & -> & Hs).
    exists (String c scheme). simpl. now rewrite Hc, Hs.
Qed.

Lemma slash_end_true (t : string) : slash_end t = true <-> t = "" \/ t = "/".
Proof.
  unfold slash_end. rewrite orb_true_iff, !String.eqb_eq. tauto.
Qed.

Lemma tail_ok_spec (t : string) :
  tail_ok t = true <-> GithubRepoUrl.admissible_tail t.
Proof.
  unfold tail_ok, GithubRepoUrl.admissible_tail. split.
  - destruct (Text.strip_literal ".git" t) as [r|] eqn:E.
    + intros H. apply orb_prop in H as [H | H].
      * apply strip_literal_inv in E as (g & -> & Hg).
        apply slash_end_true in H. exists g, r. auto.
      * apply slash_end_true in H. exists "", t. auto.
    + intros H. apply slash_end_true in H. exists "", t. auto.
  - intros (g & sl & -> & [-> | Hg] & Hsl).
    + change ("" +:+ sl) with sl.
      assert (slash_end sl = true) as Hse by now apply slash_end_true.
      destruct (Text.strip_literal ".git" sl); rewrite Hse;
        [apply orb_true_r | reflexivity].
    + rewrite (strip_literal_app _ _ _ Hg).
      assert (slash_end sl = true) as -> by now apply slash_end_true.
      reflexivity.
Qed.

Lemma owner_inv (s o r : string) :
  owner s = Some (o, r) -> s = o +:+ "/" +:+ r /\ Text.no_slash o = true.
Proof.
  revert o. induction s as [|c s IH]; intros o H; simpl in H; [discriminate|].
  destruct (Text.is_slash c) eqn:Hc.
  - injection H as <- <-. apply TextFacts.is_slash_true in Hc as ->. now split.
  - destruct (owner s) as [[o' r']|]; [|discriminate].
    injection H as <- <-. destruct (IH o' eq_refl) as [-> Ho].
    simpl. now rewrite Hc, Ho.
Qed.

Lemma owner_app (o r : string) :
  Text.no_slash o = true -> owner (o +:+ "/" +:+ r) = Some (o, r).
Proof.
  induction o as [|c o IH]; intros H; simpl in *; [reflexivity|].
  apply andb_prop in H as [Hc H]. apply negb_true_iff in Hc. rewrite Hc.
  now rewrite IH.
Qed.

Lemma repo_inv (s r : string) :
  repo s = Some r ->
  exists tail,
    s = r +:+ tail /\ r <> "" /\ Text.no_slash r = true /\ tail_ok tail = true /\
    forall r0 rest, r = r0 +:+ rest -> r0 <> "" -> rest <> "" ->
                    tail_ok (rest +:+ tail) = false.
Proof.
  revert r. induction s as [|c s IH]; intros r H; simpl in H; [discriminate|].
  destruct (Text.is_slash c) eqn:Hc; [discriminate|].
  destruct (tail_ok s) eqn:Ht.
  - injection H as <-. exists s. simpl. rewrite Hc. repeat split; try easy.
    intros [|x r0] [|y rest] E; try easy. simpl in E. injection E as _ E.
    now destruct r0.
  - destruct (repo s) as [r1|]; [|discriminate]. injection H as <-.
    destruct (IH r1 eq_refl) as (tail & -> & Hne & Hns & Htail & Hmin).
    exists tail. simpl. rewrite Hc, Hns. repeat split; try easy.
    intros [|x r0] rest E Hr0 Hrest; [easy|]. simpl in E. injection E as _ E.
    destruct r0 as [|y r0].
    + simpl in E. now subst rest.
    + now apply (Hmin (String y r0) rest).
Qed.

Lemma repo_app (r tail : string) :
  r <> "" -> Text.no_slash r = true -> tail_ok tail = true ->
  (forall r0 rest, r = r0 +:+ rest -> r0 <> "" -> rest <> "" ->
                   tail_ok (rest +:+ tail) = false) ->
  repo (r +:+ tail) = Some r.
Proof.
  induction r as [|c r IH]; intros Hne Hns Htail Hmin; [easy|].
  simpl in *. apply andb_prop in Hns as [Hc Hns]. apply negb_true_iff in Hc.
  rewrite Hc. destruct r as [|d r].
  - simpl. now rewrite Htail.
  - rewrite (Hmin (String c "") (String d r)) by easy.
    rewrite IH; try easy.
    intros r0 rest E Hr0 Hrest. apply (Hmin (String c r0) rest); try easy.
    simpl. now rewrite E.
Qed.

(** The matcher leaves either nothing or the subject and two captures. *)
Lemma regex_match_shape (url : string) :
  regex_match url = [] \/ exists o r, regex_match url = [url; o; r].
Proof.
  unfold regex_match.
  destruct (Text.strip_literal _ url) as [rest|]; [|now left].
  destruct (owner rest) as [[o rest']|]; [|now left].
  destruct (String.eqb o ""); [now left|].
  destruct (repo rest') as [r|]; [|now left]. right. now exists o, r.
Qed.

(** The matcher computes the captures of the pattern. *)
Lemma regex_match_spec (url o r : string) :
  regex_match url = [url; o; r] <-> GithubRepoUrl.matches url o r.
Proof.
  unfold regex_match, GithubRepoUrl.matches. split.
  - destruct (Text.strip_literal _ url) as [rest|] eqn:E1; [|discriminate].
    destruct (owner rest) as [[o' rest']|] eqn:E2; [|discriminate].
    destruct (String.eqb o' "") eqn:E3; [discriminate|].
    destruct (repo rest') as [r'|] eqn:E4; [|discriminate].
    intros H. injection H as -> ->.
    apply strip_literal_inv in E1 as (scheme & -> & Hs).
    apply owner_inv in E2 as [-> Ho].
    apply repo_inv in E4 as (tail & -> & Hne & Hns & Htail & Hmin).
    apply String.eqb_neq in E3.
    exists scheme, tail. repeat split; try easy.
    + now apply tail_ok_spec.
    + intros r0 rest E Hr0 Hrest Hadm. apply tail_ok_spec in Hadm.
      now rewrite (Hmin r0 rest) in Hadm.
  - intros (scheme & tail & -> & Hs & Ho & Hos & Hr & Hrs & Htail & Hmin).
    rewrite (strip_literal_app _ _ _ Hs).
    change (o +:+ "/" +:+ r +:+ tail) with (o +:+ "/" +:+ (r +:+ tail)).
    rewrite (owner_app _ _ Hos).
    apply String.eqb_neq in Ho. rewrite Ho.
    rewrite repo_app; try easy.
    + now apply tail_ok_spec.
    + intros r0 rest E Hr0 Hrest. apply not_true_is_false. intros Hadm.
      apply tail_ok_spec in Hadm. now apply (Hmin r0 rest).
Qed.

Lemma regex_match_none (url : string) :
  regex_match url = [] <-> forall o r, ~ GithubRepoUrl.matches url o r.
Proof.
  split.
  - intros H o r Hm. apply regex_match_spec in Hm. now rewrite H in Hm.
  - intros H. destruct (regex_match_shape url) as [E | (o & r & E)]; [exact E|].
    apply regex_match_spec in E. now destruct (H o r).
Qed.

End RegexFacts.

(** The matcher on a few subjects: letter case of the prefix and of the
    suffix, the trailing separator, the lazy repository capture, and three
    subjects outside the pattern. *)
Example regex_match_mixed_case :
  GithubRepoUrlRegex.regex_match "HTTPS://GitHub.com/Loot/Skyrim.GIT/" =
  ["HTTPS://GitHub.com/Loot/Skyrim.GIT/"; "Loot"; "Skyrim"].
Proof. reflexivity. Qed.

Example regex_match_lazy_repo :
  GithubRepoUrlRegex.regex_match "https://github.com/a/b.git.git" =
  ["https://github.com/a/b.git.git"; "a"; "b.git"].
Proof. reflexivity. Qed.

Example regex_match_dot_git_repo :
  GithubRepoUrlRegex.regex_match "https://github.com/loot/.git" =
  ["https://github.com/loot/.git"; "loot"; ".git"].
Proof. reflexivity. Qed.

Example regex_match_rejects :
  GithubRepoUrlRegex.regex_match "https://github.com/loot/skyrim/tree" = [] /\
  GithubRepoUrlRegex.regex_match "https://github.com//skyrim" = [] /\
  GithubRepoUrlRegex.regex_match "http://github.com/loot/skyrim" = [].
Proof. repeat split; reflexivity. Qed.

(** ** Migration of an explicit source *)

Lemma official_repo_cases (repo : string) :
  repo ∈ officialMasterlistRepos ->
  repo = "morrowind" \/ repo = "oblivion" \/ repo = "skyrim" \/ repo = "skyrimse" \/
  repo = "skyrimvr" \/ repo = "fallout3" \/ repo = "falloutnv" \/ repo = "fallout4" \/
  repo = "fallout4vr" \/ repo = "enderal".
Proof.
  unfold officialMasterlistRepos. rewrite !elem_of_cons, elem_of_nil. tauto.
Qed.

Lemma superseded_cases (branch : string) :
  branch ∈ oldDefaultBranches ->
  branch = "master" \/ branch = "v0.10" \/ branch = "v0.13" \/ branch = "v0.14" \/
  branch = "v0.15" \/ branch = "v0.17" \/ branch = "v0.18" \/ branch = "v0.7" \/
  branch = "v0.8".
Proof.
  unfold oldDefaultBranches. rewrite !elem_of_cons, elem_of_nil. tauto.
Qed.

Lemma official_repo_no_slash (repo : string) :
  repo ∈ officialMasterlistRepos -> Text.no_slash repo = true.
Proof.
  intros H. apply official_repo_cases in H. destruct_or!; subst; reflexivity.
Qed.

Lemma migrateMasterlistSource_hit (repo branch : string) :
  repo ∈ officialMasterlistRepos -> branch ∈ oldDefaultBranches ->
  migrateMasterlistSource (legacyMasterlistUrl repo branch) =
  (GetDefaultMasterlistUrl repo,
   [LogCall LogLevel.info
      (migration_notice (legacyMasterlistUrl repo branch) (GetDefaultMasterlistUrl repo))]).
Proof.
  intros Hr Hb. apply official_repo_cases in Hr. apply superseded_cases in Hb.
  destruct_or!; subst; vm_compute; reflexivity.
Qed.

Lemma migrateMasterlistSource_miss (source : string) :
  (forall repo branch,
      repo ∈ officialMasterlistRepos -> branch ∈ oldDefaultBranches ->
      source <> legacyMasterlistUrl repo branch) ->
  migrateMasterlistSource source = (source, []).
Proof.
  intros H. unfold migrateMasterlistSource.
  destruct (find _ officialMasterlistRepos) as [repo|] eqn:E; [|reflexivity].
  apply find_some in E as [Hin Hex].
  apply existsb_exists in Hex as (branch & Hb & Heq).
  apply String.eqb_eq in Heq.
  destruct (H repo branch); try assumption; now apply list_elem_of_In.
Qed.

(** C6: explicit-source migration is an exhaustive exact-match table.  For
    every official repository name and every superseded branch name, the
    source equal to the legacy URL built from them is replaced by the current
    default URL of that repository, with one informational log call; every
    source that equals none of these URLs comes back as it is, with no log
    call. *)
Theorem migrateMasterlistSource_exact_table :
  (forall repo branch : string,
      repo ∈ ["morrowind"; "oblivion"; "skyrim"; "skyrimse"; "skyrimvr";
              "fallout3"; "falloutnv"; "fallout4"; "fallout4vr"; "enderal"] ->
      branch ∈ oldDefaultBranches ->
      migrateMasterlistSource
        ("https://raw.githubusercontent.com/loot/" +:+ repo +:+ "/" +:+ branch +:+
         "/masterlist.yaml") =
      (GetDefaultMasterlistUrl repo,
       [LogCall LogLevel.info
          ("Migrating masterlist source from " +:+
           ("https://raw.githubusercontent.com/loot/" +:+ repo +:+ "/" +:+ branch +:+
            "/masterlist.yaml") +:+
           " to " +:+ GetDefaultMasterlistUrl repo)])) /\
  (forall source : string,
      (forall repo branch : string,
          repo ∈ officialMasterlistRepos -> branch ∈ oldDefaultBranches ->
          source <>
          "https://raw.githubusercontent.com/loot/" +:+ repo +:+ "/" +:+ branch +:+
          "/masterlist.yaml") ->
      migrateMasterlistSource source = (source, [])).
Proof.
  split.
  - intros repo branch Hr Hb. apply (migrateMasterlistSource_hit repo branch Hr Hb).
  - intros source H. apply migrateMasterlistSource_miss. exact H.
Qed.

Lemma migrateMasterlistSource_exact_table_witness :
  migrateMasterlistSource
    "https://raw.githubusercontent.com/loot/skyrimse/v0.17/masterlist.yaml" =
  ("https://raw.githubusercontent.com/loot/skyrimse/v0.23/masterlist.yaml",
   [LogCall LogLevel.info
      ("Migrating masterlist source from " +:+
       "https://raw.githubusercontent.com/loot/skyrimse/v0.17/masterlist.yaml" +:+
       " to " +:+
       "https://raw.githubusercontent.com/loot/skyrimse/v0.23/masterlist.yaml")]).
Proof.
  apply (proj1 migrateMasterlistSource_exact_table "skyrimse" "v0.17").
  - rewrite !elem_of_cons. do 3 right. left. reflexivity.
  - unfold oldDefaultBranches. rewrite !elem_of_cons. do 5 right. left. reflexivity.
Defined.

(** ** Sources that the table leaves alone *)

Lemma default_url_fixed (repo : string) :
  repo ∈ officialMasterlistRepos ->
  migrateMasterlistSource (GetDefaultMasterlistUrl repo) = (GetDefaultMasterlistUrl repo, []).
Proof.
  intros H. apply official_repo_cases in H. destruct_or!; subst; vm_compute; reflexivity.
Qed.

Lemma migrateMasterlistSource_idempotent (source : string) :
  migrateMasterlistSource (fst (migrateMasterlistSource source)) =
  (fst (migrateMasterlistSource source), []).
Proof.
  unfold migrateMasterlistSource at 2 3.
  destruct (find _ officialMasterlistRepos) as [repo|] eqn:E.
  - cbn [fst W_bind W_ret tell]. apply default_url_fixed.
    apply find_some in E as [Hin _]. now apply list_elem_of_In.
  - cbn [fst W_ret]. unfold migrateMasterlistSource. now rewrite E.
Qed.

Lemma rewritten_not_legacy (owner repo branch R B : string) :
  Text.no_slash owner = true -> Text.no_slash repo = true ->
  branch ∉ oldDefaultBranches ->
  R ∈ officialMasterlistRepos -> B ∈ oldDefaultBranches ->
  rawUrl owner repo branch <> legacyMasterlistUrl R B.
Proof.
  intros Ho Hr Hb HR HB E.
  change (legacyMasterlistUrl R B) with (rawUrl "loot" R B) in E.
  unfold rawUrl in E. apply TextFacts.app_inv_head in E.
  apply TextFacts.first_slash_unique in E as [_ E];
    [| assumption | reflexivity].
  apply TextFacts.first_slash_unique in E as [_ E];
    [| assumption | now apply official_repo_no_slash].
  apply TextFacts.app_inv_tail in E. now subst.
Qed.

Lemma legacy_url_https (R B : string) :
  Text.starts_with (legacyMasterlistUrl R B) "https://" = true.
Proof. reflexivity. Qed.

Lemma legacy_url_long (R B : string) : 39 <= String.length (legacyMasterlistUrl R B).
Proof. unfold legacyMasterlistUrl. rewrite TextFacts.length_app. simpl. lia. Qed.

Lemma local_not_legacy (url R B : string) :
  Text.starts_with url "https://" = false ->
  url // "masterlist.yaml" <> legacyMasterlistUrl R B.
Proof.
  intros Hs E. pose proof (legacy_url_https R B) as Hh.
  pose proof (legacy_url_long R B) as Hl. rewrite <- E in Hh, Hl.
  unfold Path.append in Hh, Hl. change (Path.is_absolute "masterlist.yaml") with false in *.
  cbv iota in Hh, Hl.
  destruct (Path.has_filename url); rewrite TextFacts.length_app in Hl; simpl in Hl;
    rewrite TextFacts.starts_with_app_long in Hh by (simpl; lia); congruence.
Qed.

(** ** Migration of a legacy repository and branch *)

Section MigrationFacts.

Variable fs : FileSystem.

Lemma isLocalPath_not_https (location filename : string) :
  isLocalPath fs location filename = Done true ->
  Text.starts_with location "https://" = false.
Proof.
  unfold isLocalPath.
  destruct (Text.starts_with location "https://"); [|reflexivity].
  rewrite orb_true_r. discriminate.
Qed.

(** The test for a local clone has no undefined behaviour, and what it
    throws is the error of a disk query. *)
Lemma isLocalPath_outcome (location filename : string) :
  isLocalPath fs location filename <> Undefined /\
  forall e, isLocalPath fs location filename = Thrown e -> exists path, e = FilesystemError path.
Proof.
  unfold isLocalPath, is_regular_file, query.
  destruct (_ || _); [split; [discriminate | discriminate]|].
  destruct (fs_is_regular_file fs (location // filename)) as [[|]|]; cbn.
  - destruct (fs_is_regular_file fs _) as [b|]; split; try discriminate.
    intros e [= <-]. eauto.
  - split; discriminate.
  - split; [discriminate|]. intros e [= <-]. eauto.
Qed.

(** The value of [migrateMasterlistRepoSettings], with the log left out. *)
Lemma migrateMasterlistRepoSettings_value (GameId : GameId.t) (url branch : string) :
  fst (migrateMasterlistRepoSettings fs GameId url branch) =
  let branch' := fst (migrateBranch branch) in
  let url' := fst (migrateRepositoryUrl GameId url) in
  match isLocalPath fs url' "masterlist.yaml" with
  | Done true => Done (Some (url' // "masterlist.yaml"))
  | Done false =>
      let regexMatches := GithubRepoUrlRegex.regex_match url' in
      if negb (length regexMatches =? 3)%nat then Done None
      else Done (Some (rawUrl (str regexMatches 1) (str regexMatches 2) branch'))
  | Thrown e => Thrown e
  | Undefined => Undefined
  end.
Proof.
  unfold migrateMasterlistRepoSettings, M_bind, M_ret, lift, quiet. cbn [fst snd].
  destruct (isLocalPath _ _ _) as [[|]|e|]; cbn [fst snd]; try reflexivity.
  destruct (negb _); reflexivity.
Qed.

(** The last log call of a migration that finds neither a local clone nor a
    GitHub repository. *)
Lemma migrateMasterlistRepoSettings_warns (GameId : GameId.t) (url branch : string) :
  isLocalPath fs (fst (migrateRepositoryUrl GameId url)) "masterlist.yaml" = Done false ->
  GithubRepoUrlRegex.regex_match (fst (migrateRepositoryUrl GameId url)) = [] ->
  LogCall LogLevel.warning not_github_warning ∈
    snd (migrateMasterlistRepoSettings fs GameId url branch).
Proof.
  intros Hl Hm. unfold migrateMasterlistRepoSettings, M_bind, M_ret, lift, quiet.
  cbn [fst snd]. rewrite Hl. cbn [fst snd]. rewrite Hm.
  cbn [length Nat.eqb negb fst snd tell].
  rewrite !elem_of_app, !elem_of_cons. auto 10.
Qed.

(** What a successful migration returns is never a row of the table of
    [migrateMasterlistSource]. *)
Lemma migrated_source_fixed (GameId : GameId.t) (url branch out : string) :
  fst (migrateMasterlistRepoSettings fs GameId url branch) = Done (Some out) ->
  migrateMasterlistSource out = (out, []).
Proof.
  rewrite migrateMasterlistRepoSettings_value. cbv zeta. intros H.
  apply migrateMasterlistSource_miss. intros R B HR HB.
  destruct (isLocalPath _ _ _) as [[|]|e|] eqn:Hl; try discriminate H.
  - injection H as <-. apply local_not_legacy.
    now apply isLocalPath_not_https in Hl.
  - destruct (RegexFacts.regex_match_shape (fst (migrateRepositoryUrl GameId url)))
      as [E | (o & r & E)]; rewrite E in H; cbn in H; [discriminate|].
    injection H as <-.
    apply RegexFacts.regex_match_spec in E
      as (scheme & tail & _ & _ & _ & Ho & _ & Hr & _).
    apply rewritten_not_legacy; try assumption. apply migrateBranch_current.
Qed.

(** C2: for every legacy URL and branch whose (possibly migrated) URL is not
    a local repository path, a URL that matches the GitHub pattern with
    captures owner and repo is rewritten to
    https://raw.githubusercontent.com/<owner>/<repo>/<branch>/masterlist.yaml
    with the (possibly migrated) branch; a URL that does not match gives no
    result and a warning log call, and the caller then leaves the source of
    the profile as it was. *)
Theorem github_url_rewriting
    {double float : Type} (catalog : GameCatalog float)
    (conv : Toml.Conversions double) (narrow : double -> float)
    (GameId : GameId.t) (url branch : string) :
  isLocalPath fs (fst (migrateRepositoryUrl GameId url)) "masterlist.yaml" = Done false ->
  (forall owner repo : string,
      GithubRepoUrl.matches (fst (migrateRepositoryUrl GameId url)) owner repo ->
      fst (migrateMasterlistRepoSettings fs GameId url branch) =
      Done (Some ("https://raw.githubusercontent.com/" +:+ owner +:+ "/" +:+ repo +:+ "/" +:+
                  fst (migrateBranch branch) +:+ "/masterlist.yaml"))) /\
  ((forall owner repo : string,
       ~ GithubRepoUrl.matches (fst (migrateRepositoryUrl GameId url)) owner repo) ->
   fst (migrateMasterlistRepoSettings fs GameId url branch) = Done None /\
   LogCall LogLevel.warning not_github_warning ∈
     snd (migrateMasterlistRepoSettings fs GameId url branch) /\
   forall (gameTable : gmap string (Toml.node double)) (newSettings merged : GameSettings float)
          (calls : list log_call),
     Toml.value_string (gameTable !! "masterlistSource") = None ->
     Toml.value_string (gameTable !! "repo") = Some url ->
     Toml.value_string (gameTable !! "branch") = Some branch ->
     id_ newSettings = GameId ->
     mergeOverrides catalog conv narrow fs gameTable newSettings = (Done merged, calls) ->
     masterlistSource_ merged = masterlistSource_ newSettings).
Proof.
  intros Hl. split.
  - intros owner repo Hm. apply RegexFacts.regex_match_spec in Hm.
    rewrite migrateMasterlistRepoSettings_value. cbv zeta. now rewrite Hl, Hm.
  - intros Hn. apply RegexFacts.regex_match_none in Hn.
    assert (fst (migrateMasterlistRepoSettings fs GameId url branch) = Done None) as Hv.
    { rewrite migrateMasterlistRepoSettings_value. cbv zeta. now rewrite Hl, Hn. }
    split; [exact Hv|]. split; [now apply migrateMasterlistRepoSettings_warns|].
    intros gameTable newSettings merged calls Hs Hu Hb Hid.
    unfold mergeOverrides, resolveSource. rewrite Hs, Hu, Hb.
    destruct (Toml.value_string (gameTable !! "name")),
             (Toml.value_string (gameTable !! "master")),
             (Toml.value_double conv (gameTable !! "minimumHeaderVersion"));
      cbn [id_ SetName SetMaster SetMinimumHeaderVersion];
      unfold deref, M_bind, M_ret, throw; cbn [fst snd];
      rewrite Hid, Hv;
      destruct (Toml.value_string (gameTable !! "path")),
               (Toml.value_string (gameTable !! "local_path")),
               (Toml.value_string (gameTable !! "local_folder"));
      intros E; inversion E; reflexivity.
Qed.

End MigrationFacts.

Lemma github_url_rewriting_witness :
  fst (migrateMasterlistRepoSettings Sample.emptyDisk GameId.tes5
         "https://github.com/loot/skyrim.git" "v0.23") =
  Done (Some "https://raw.githubusercontent.com/loot/skyrim/v0.23/masterlist.yaml") /\
  fst (migrateMasterlistRepoSettings Sample.emptyDisk GameId.tes5
         "https://example.com/not-github" "v0.23") = Done None.
Proof.
  split.
  - apply (proj1 (github_url_rewriting Sample.emptyDisk Sample.catalog Sample.conv Sample.narrow
                    GameId.tes5 "https://github.com/loot/skyrim.git" "v0.23" eq_refl)
             "loot" "skyrim").
    apply RegexFacts.regex_match_spec. reflexivity.
  - apply (proj2 (github_url_rewriting Sample.emptyDisk Sample.catalog Sample.conv Sample.narrow
                    GameId.tes5 "https://example.com/not-github" "v0.23" eq_refl)).
    apply RegexFacts.regex_match_none. reflexivity.
Defined.


(** ** Idempotence of source resolution *)

(** C5: masterlist source resolution is idempotent.  Whenever the source
    statement of a matched entry produces a source string, be it from an
    explicit source or from the legacy repository and branch, running it
    again on the same entry with that string as the explicit source (same
    identity, same branch) produces the same string, and logs nothing. *)
Theorem resolveSource_idempotent
    {double : Type} (fs : FileSystem) (gameTable : gmap string (Toml.node double))
    (GameId : GameId.t) (out : string) (calls : list log_call) :
  resolveSource fs gameTable GameId = (Done (Some out), calls) ->
  resolveSource fs (<["masterlistSource" := Toml.String_ out]> gameTable) GameId =
  (Done (Some out), []).
Proof.
  unfold resolveSource at 2. rewrite lookup_insert_eq. cbn [Toml.value_string].
  unfold resolveSource.
  destruct (Toml.value_string (gameTable !! "masterlistSource")) as [src|].
  - unfold lift, M_bind, M_ret. cbn [fst snd]. intros E.
    injection E as <- _. now rewrite migrateMasterlistSource_idempotent.
  - destruct (Toml.value_string (gameTable !! "repo")) as [url|];
      [|cbn; discriminate].
    destruct (Toml.value_string (gameTable !! "branch")) as [branch|];
      [|cbn; discriminate].
    unfold deref, lift, M_bind, M_ret. cbn [fst snd app]. intros E.
    injection E as E _. now rewrite (migrated_source_fixed fs GameId url branch out E).
Qed.

Lemma resolveSource_idempotent_witness :
  resolveSource Sample.cloneDisk
    (<["masterlistSource" := Toml.String_ "/repo/masterlist.yaml"]>
       (list_to_map [("repo", Toml.String_ "/repo"); ("branch", Toml.String_ "master")]
          : gmap string (Toml.node Z)))
    GameId.tes4 =
  (Done (Some "/repo/masterlist.yaml"), []).
Proof.
  eapply (resolveSource_idempotent Sample.cloneDisk
            (list_to_map [("repo", Toml.String_ "/repo"); ("branch", Toml.String_ "master")])
            GameId.tes4 "/repo/masterlist.yaml").
  vm_compute. reflexivity.
Defined.

(** ** Settings resolution *)

Section SettingsFacts.

Context {double float : Type}.
Variable catalog : GameCatalog float.
Variable conv : Toml.Conversions double.
Variable narrow : double -> float.
Variable fs : FileSystem.

Local Abbreviation table := (gmap string (Toml.node double)).
Local Abbreviation tryGame := (tryGame catalog conv narrow fs).
Local Abbreviation scanGames := (scanGames catalog conv narrow fs).
Local Abbreviation getSettings := (getSettings catalog conv narrow fs).
Local Abbreviation runSettings := (runSettings catalog conv narrow fs).
Local Abbreviation mergeOverrides := (mergeOverrides catalog conv narrow fs).
Local Abbreviation candidate := (candidate catalog conv fs).
Local Abbreviation declaredGameId := (declaredGameId catalog conv fs).
Local Abbreviation entryType := (entryType catalog conv fs).
Local Abbreviation accepted := (accepted catalog conv narrow fs).
Local Abbreviation skipped := (skipped catalog conv narrow fs).

(** One turn of the loop on a table, by the outcome of its candidate. *)
Lemma tryGame_table (m : GameSettings float) (t : table) :
  tryGame m (Toml.Table t) =
  match fst (candidate t) with
  | Done newSettings =>
      if bool_decide (type_ newSettings = type_ m) then
        match fst (mergeOverrides t newSettings) with
        | Done merged =>
            (Done (Some merged),
             (snd (candidate t) ++ snd (mergeOverrides t newSettings))%list)
        | Thrown e =>
            (Thrown e, (snd (candidate t) ++ snd (mergeOverrides t newSettings))%list)
        | Undefined =>
            (Undefined, (snd (candidate t) ++ snd (mergeOverrides t newSettings))%list)
        end
      else (Done None, snd (candidate t))
  | Thrown e => (Thrown e, snd (candidate t))
  | Undefined => (Undefined, snd (candidate t))
  end.
Proof.
  unfold tryGame, asTable, M_bind, M_ret. cbn [fst snd app].
  destruct (fst (candidate t)); try reflexivity.
  case_bool_decide; cbn [fst snd]; [|now rewrite app_nil_r].
  destruct (fst (mergeOverrides t a)); cbn [fst snd]; try reflexivity.
  now rewrite app_nil_r.
Qed.

Lemma tryGame_not_table (m : GameSettings float) (game : Toml.node double) :
  Toml.is_table game = false -> tryGame m game = (Thrown NotATable, []).
Proof. destruct game; try reflexivity. discriminate. Qed.

Lemma entryType_table (t : table) :
  entryType (Toml.Table t) =
  match fst (candidate t) with
  | Done newSettings => Some (type_ newSettings)
  | _ => None
  end.
Proof.
  unfold entryType, asTable, M_bind, M_ret. cbn [fst snd].
  destruct (fst (candidate t)); reflexivity.
Qed.

(** The overrides leave identity and engine-type class alone. *)
Lemma mergeOverrides_type (t : table) (c merged : GameSettings float) :
  fst (mergeOverrides t c) = Done merged ->
  type_ merged = type_ c /\ id_ merged = id_ c /\
  lootFolderName_ merged = lootFolderName_ c.
Proof.
  unfold mergeOverrides, M_bind, M_ret, throw.
  destruct (fst (resolveSource _ _ _)) as [[src|]| |]; cbn [fst snd]; try discriminate;
    destruct (Toml.value_string (t !! "name")),
             (Toml.value_string (t !! "master")),
             (Toml.value_double conv (t !! "minimumHeaderVersion")),
             (Toml.value_string (t !! "path")),
             (Toml.value_string (t !! "local_path")),
             (Toml.value_string (t !! "local_folder"));
    cbn [fst snd]; intros E; inversion E; subst; cbn; auto.
Qed.

(** A classifier has no undefined behaviour, and what it throws is the error
    of a disk query. *)
Lemma IsNehrim_outcome (t : table) :
  IsNehrim catalog conv fs t <> Undefined /\
  forall e, IsNehrim catalog conv fs t = Thrown e -> exists path, e = FilesystemError path.
Proof.
  unfold IsNehrim, exists_, query. cbv zeta.
  destruct (Toml.value_string (t !! "path")) as [path|]; [|split; discriminate].
  destruct (negb (String.eqb path "")); [|split; discriminate].
  destruct (fs_exists fs path) as [[|]|]; cbn [outcome_bind].
  - destruct (fs_exists fs _) as [b|]; split; try discriminate.
    intros e [= <-]. eauto.
  - split; discriminate.
  - split; [discriminate|]. intros e [= <-]. eauto.
Qed.

Lemma IsEnderalIn_outcome (t : table) (expectedLocalFolder : string) :
  IsEnderalIn conv fs t expectedLocalFolder <> Undefined /\
  forall e, IsEnderalIn conv fs t expectedLocalFolder = Thrown e ->
            exists path, e = FilesystemError path.
Proof.
  unfold IsEnderalIn, exists_, query. cbv zeta.
  destruct (Toml.value_string (t !! "path")) as [path|]; [|split; discriminate].
  destruct (negb (String.eqb path "")); [|split; discriminate].
  destruct (fs_exists fs path) as [[|]|]; cbn [outcome_bind].
  - destruct (fs_exists fs _) as [b|]; split; try discriminate.
    intros e [= <-]. eauto.
  - split; discriminate.
  - split; [discriminate|]. intros e [= <-]. eauto.
Qed.

(** A base game or its variant, by the answer of the classifier. *)
Lemma classified_cases (answer : outcome bool) (variant base : GameId.t) :
  answer <> Undefined ->
  (forall e, answer = Thrown e -> exists path, e = FilesystemError path) ->
  GetGameType variant <> GameType.starfield -> GetGameType base <> GameType.starfield ->
  (exists path,
      (let* b := quiet answer in M_ret (if b then variant else base)) =
      (Thrown (FilesystemError path), [])) \/
  exists gameId,
    (let* b := quiet answer in M_ret (if b then variant else base)) = (Done gameId, []) /\
    GetGameType gameId <> GameType.starfield.
Proof.
  intros Hu Ht Hv Hb. destruct answer as [[|]|e|]; [| | |contradiction].
  - right. exists variant. split; [reflexivity | assumption].
  - right. exists base. split; [reflexivity | assumption].
  - left. destruct (Ht e eq_refl) as [path ->]. now exists path.
Qed.

(** The chain on the declared type ends with an identity, with the
    invalid-type error, or with the error of a disk query of a classifier. *)
Lemma declaredGameId_cases (t : table) (gameType : string) :
  declaredGameId t gameType = (Thrown InvalidType, []) \/
  (exists path, declaredGameId t gameType = (Thrown (FilesystemError path), [])) \/
  exists gameId, declaredGameId t gameType = (Done gameId, []) /\
                 GetGameType gameId <> GameType.starfield.
Proof.
  unfold declaredGameId.
  destruct (String.eqb gameType "Morrowind");
    [right; right; eexists; split; [reflexivity | discriminate]|].
  destruct (String.eqb gameType "Oblivion").
  { right. destruct (IsNehrim_outcome t) as [H1 H2].
    now apply classified_cases. }
  destruct (String.eqb gameType "Skyrim").
  { right. destruct (IsEnderalIn_outcome t "enderal") as [H1 H2].
    now apply classified_cases. }
  destruct (String.eqb gameType "SkyrimSE" || String.eqb gameType "Skyrim Special Edition").
  { right. destruct (IsEnderalIn_outcome t "Enderal Special Edition") as [H1 H2].
    now apply classified_cases. }
  repeat match goal with
         | |- context [if ?b then _ else _] => destruct b
         end;
    try (now left); right; right; eexists; (split; [reflexivity | discriminate]).
Qed.

(** The construction of the candidate throws or succeeds; it logs nothing
    and has no undefined behaviour.  What it throws is not the error about
    the two local keys, and no candidate is of the Starfield class. *)
Lemma candidate_cases (t : table) :
  (exists e, candidate t = (Thrown e, []) /\ e <> ConflictingConfiguration) \/
  exists c, candidate t = (Done c, []) /\ type_ c <> GameType.starfield.
Proof.
  unfold candidate, M_bind, M_ret, throw.
  destruct (Toml.value_string (t !! "gameId")) as [gameType|]; cbn [fst snd];
    [|left; now eexists].
  destruct (declaredGameId_cases t gameType) as [-> | [(path & ->) | (gameId & -> & Hty)]];
    cbn [fst snd]; [left; now eexists | left; now eexists |].
  destruct (Toml.value_string (t !! "folder")) as [folder|]; cbn [fst snd];
    [|left; now eexists].
  right. eexists. split; [reflexivity|]. exact Hty.
Qed.

(** An element of another engine-type class is passed over. *)
Lemma other_class_skipped (m : GameSettings float) (game : Toml.node double) :
  entryType game <> Some (type_ m) -> skipped m game.
Proof.
  intros H. destruct (Toml.is_table game) eqn:Ht.
  - destruct game; try discriminate. rewrite entryType_table in H.
    unfold skipped. rewrite tryGame_table.
    destruct (fst (candidate fields)) as [c|e|] eqn:Hc.
    + rewrite bool_decide_eq_false_2 by congruence. now left.
    + right. now exists e.
    + destruct (candidate_cases fields) as [(e & E & _) | (c & E & _)];
        rewrite E in *; discriminate.
  - right. exists NotATable. now rewrite tryGame_not_table.
Qed.

(** Such an element raises no error about the two local keys. *)
Lemma other_class_no_conflict (m : GameSettings float) (game : Toml.node double) :
  entryType game <> Some (type_ m) ->
  fst (tryGame m game) <> Thrown ConflictingConfiguration.
Proof.
  intros H. destruct (Toml.is_table game) eqn:Ht.
  - destruct game; try discriminate. rewrite entryType_table in H.
    rewrite tryGame_table.
    destruct (candidate_cases fields) as [(e & E & He) | (c & E & _)];
      rewrite E in *; cbn [fst snd] in *.
    + congruence.
    + rewrite bool_decide_eq_false_2 by congruence. discriminate.
  - rewrite tryGame_not_table by assumption. discriminate.
Qed.

(** What is accepted is of the requested engine-type class. *)
Lemma accepted_class (m newSettings : GameSettings float) (game : Toml.node double) :
  accepted m game newSettings ->
  entryType game = Some (type_ m) /\ type_ newSettings = type_ m.
Proof.
  unfold accepted. intros H. destruct (Toml.is_table game) eqn:Ht.
  - destruct game; try discriminate. rewrite entryType_table.
    rewrite tryGame_table in H.
    destruct (fst (candidate fields)) as [c|e|]; try discriminate.
    case_bool_decide as Hty; [|discriminate].
    destruct (fst (mergeOverrides fields c)) as [merged| |] eqn:Hm; try discriminate.
    injection H as <-. apply mergeOverrides_type in Hm as (Hm & _).
    split; congruence.
  - rewrite tryGame_not_table in H by assumption. discriminate.
Qed.

Lemma scanGames_skip (m : GameSettings float) (game : Toml.node double)
    (rest : list (Toml.node double)) :
  skipped m game ->
  scanGames m (game :: rest) =
  (fst (scanGames m rest), (snd (tryGame m game) ++ snd (scanGames m rest))%list).
Proof.
  intros [H | (e & H)]; cbn [scanGames]; now rewrite H.
Qed.

Lemma scanGames_accept (m newSettings : GameSettings float) (game : Toml.node double)
    (rest : list (Toml.node double)) :
  accepted m game newSettings ->
  scanGames m (game :: rest) = (Done newSettings, snd (tryGame m game)).
Proof.
  unfold accepted. intros H. cbn [scanGames]. now rewrite H.
Qed.

(** The scan ends at the first accepted element: its profile is the result,
    and neither the value nor the log depends on what follows it. *)
Lemma scanGames_first_accepted (m newSettings : GameSettings float)
    (pre post : list (Toml.node double)) (game : Toml.node double) :
  Forall (skipped m) pre -> accepted m game newSettings ->
  fst (scanGames m (pre ++ game :: post)) = Done newSettings /\
  scanGames m (pre ++ game :: post) = scanGames m (pre ++ [game]).
Proof.
  intros Hpre Hacc. induction Hpre as [|x pre Hx Hpre IH].
  - cbn [app]. rewrite !(scanGames_accept _ _ _ _ Hacc). auto.
  - destruct IH as [IH1 IH2]. cbn [app].
    rewrite !(scanGames_skip _ _ _ Hx). cbn [fst].
    rewrite IH2 in IH1 |- *. now rewrite IH1.
Qed.

(** A scan in which every element is passed over keeps the profile. *)
Lemma scanGames_all_skipped (m : GameSettings float) (games : list (Toml.node double)) :
  Forall (skipped m) games -> fst (scanGames m games) = Done m.
Proof.
  induction 1 as [|x games Hx _ IH]; [reflexivity|].
  now rewrite (scanGames_skip _ _ _ Hx).
Qed.

(** [getSettings] on a document that parses. *)
Lemma getSettings_parsed (w : Worker float) (settings : table) :
  getSettings w (Parsed settings) =
  let scan :=
    if Toml.is_array_of_tables (settings !! "games")
    then scanGames (m_GameSettings w) (Toml.as_array (settings !! "games"))
    else M_ret (m_GameSettings w) in
  (match fst scan with
   | Done resolved =>
       Done {| m_GameId := m_GameId w;
               m_Language :=
                 if String.eqb (m_Language w) ""
                 then Toml.value_or (settings !! "language") DEFAULT_LANGUAGE
                 else m_Language w;
               m_GamePath := m_GamePath w; m_GameSettings := resolved |}
   | Thrown e => Thrown e
   | Undefined => Undefined
   end, snd scan).
Proof.
  unfold getSettings, M_bind, M_ret. cbn [fst snd app]. cbv zeta.
  destruct (Toml.is_array_of_tables (settings !! "games")).
  - destruct (fst (scanGames _ _)); cbn [fst snd]; [now rewrite app_nil_r | reflexivity..].
  - reflexivity.
Qed.

(** [getSettings] hands on the outcome of the scan. *)
Lemma getSettings_profile (w : Worker float) (settings : table) (s : GameSettings float) :
  fst (if Toml.is_array_of_tables (settings !! "games")
       then scanGames (m_GameSettings w) (Toml.as_array (settings !! "games"))
       else M_ret (m_GameSettings w)) = Done s ->
  exists w', fst (getSettings w (Parsed settings)) = Done w' /\ m_GameSettings w' = s /\
             m_GameId w' = m_GameId w /\ m_GamePath w' = m_GamePath w.
Proof.
  intros H. rewrite getSettings_parsed. cbv zeta.
  destruct (Toml.is_array_of_tables (settings !! "games")); cbn [fst snd M_ret] in *.
  - rewrite H. eexists. split; [reflexivity|]. cbn. auto.
  - injection H as <-. eexists. split; [reflexivity|]. cbn. auto.
Qed.

(** An element of the requested class whose merge throws is passed over. *)
Lemma merge_thrown_skipped (m c : GameSettings float) (t : table) (e : exn) :
  fst (candidate t) = Done c -> fst (mergeOverrides t c) = Thrown e ->
  skipped m (Toml.Table t).
Proof.
  intros Hc Hm. unfold skipped. rewrite tryGame_table, Hc.
  case_bool_decide; [|now left]. rewrite Hm. right. now exists e.
Qed.

(** An element of the requested class whose merge succeeds is accepted. *)
Lemma merge_done_accepted (m c merged : GameSettings float) (t : table) :
  fst (candidate t) = Done c -> type_ c = type_ m ->
  fst (mergeOverrides t c) = Done merged ->
  accepted m (Toml.Table t) merged.
Proof.
  intros Hc Hty Hm. unfold accepted. rewrite tryGame_table, Hc.
  rewrite bool_decide_eq_true_2 by assumption. now rewrite Hm.
Qed.

(** With an explicit source the source statement returns; with both legacy
    keys it returns or throws the error of a disk query. *)
Lemma resolveSource_defined (t : table) (GameId : GameId.t) :
  is_Some (Toml.value_string (t !! "masterlistSource")) \/
  (exists url branch b,
      Toml.value_string (t !! "repo") = Some url /\
      Toml.value_string (t !! "branch") = Some branch /\
      isLocalPath fs (fst (migrateRepositoryUrl GameId url)) "masterlist.yaml" = Done b) ->
  exists source, fst (resolveSource fs t GameId) = Done source.
Proof.
  unfold resolveSource. cbv zeta.
  destruct (Toml.value_string (t !! "masterlistSource")) as [src|].
  - intros _. eexists. reflexivity.
  - intros [[x Hx] | (url & branch & b & -> & -> & Hl)]; [discriminate|].
    unfold deref, M_bind, M_ret. cbn [fst snd].
    rewrite migrateMasterlistRepoSettings_value. cbv zeta. rewrite Hl.
    destruct b; [eexists; reflexivity|]. destruct (negb _); eexists; reflexivity.
Qed.

Lemma resolveSource_keys (t : table) (GameId : GameId.t) :
  is_Some (Toml.value_string (t !! "masterlistSource")) \/
  (is_Some (Toml.value_string (t !! "repo")) /\
   is_Some (Toml.value_string (t !! "branch"))) ->
  fst (resolveSource fs t GameId) <> Undefined.
Proof.
  unfold resolveSource. cbv zeta.
  destruct (Toml.value_string (t !! "masterlistSource")) as [src|].
  - intros _. discriminate.
  - intros [[x Hx] | [[url ->] [branch ->]]]; [discriminate|].
    unfold deref, M_bind, M_ret. cbn [fst snd].
    rewrite migrateMasterlistRepoSettings_value. cbv zeta.
    destruct (isLocalPath_outcome fs (fst (migrateRepositoryUrl GameId url)) "masterlist.yaml")
      as [Hu _].
    destruct (isLocalPath _ _ _) as [[|]|e|]; try discriminate; [|contradiction].
    destruct (negb _); discriminate.
Qed.

(** The merge of an entry with both local keys, by the outcome of its
    source statement. *)
Lemma mergeOverrides_both_local (t : table) (c : GameSettings float) :
  is_Some (Toml.value_string (t !! "local_path")) ->
  is_Some (Toml.value_string (t !! "local_folder")) ->
  fst (mergeOverrides t c) =
  match fst (resolveSource fs t (id_ c)) with
  | Done _ => Thrown ConflictingConfiguration
  | Thrown e => Thrown e
  | Undefined => Undefined
  end.
Proof.
  intros [p Hp] [f Hf]. unfold mergeOverrides, M_bind. cbv zeta. rewrite Hp, Hf.
  destruct (Toml.value_string (t !! "name")),
           (Toml.value_string (t !! "master")),
           (Toml.value_double conv (t !! "minimumHeaderVersion"));
    cbn [id_ SetName SetMaster SetMinimumHeaderVersion];
    destruct (fst (resolveSource fs t (id_ c))) as [[src|]|e|]; reflexivity.
Qed.

(** An entry with both local keys is passed over, unless it is of the
    requested class and lacks a key of the masterlist source. *)
Lemma both_local_skipped (m : GameSettings float) (t : table) :
  is_Some (Toml.value_string (t !! "local_path")) ->
  is_Some (Toml.value_string (t !! "local_folder")) ->
  entryType (Toml.Table t) <> Some (type_ m) \/
  is_Some (Toml.value_string (t !! "masterlistSource")) \/
  (is_Some (Toml.value_string (t !! "repo")) /\
   is_Some (Toml.value_string (t !! "branch"))) ->
  skipped m (Toml.Table t).
Proof.
  intros Hp Hf Hcase.
  destruct (decide (entryType (Toml.Table t) = Some (type_ m))) as [Hty | Hty];
    [|now apply other_class_skipped].
  destruct Hcase as [Hother | Hkeys]; [contradiction|].
  rewrite entryType_table in Hty.
  destruct (fst (candidate t)) as [c|e|] eqn:Hc; try discriminate.
  injection Hty as Hty. unfold skipped. rewrite tryGame_table, Hc.
  rewrite bool_decide_eq_true_2 by assumption.
  rewrite (mergeOverrides_both_local t c Hp Hf).
  pose proof (resolveSource_keys t (id_ c) Hkeys) as Hdef.
  destruct (fst (resolveSource fs t (id_ c))) as [source|e|]; [| |contradiction];
    right; eexists; reflexivity.
Qed.

(** When the source statement returns and the two local keys are not both
    set, the merge succeeds. *)
Lemma mergeOverrides_returns (t : table) (c : GameSettings float) :
  is_Some (Toml.value_string (t !! "masterlistSource")) \/
  (exists url branch b,
      Toml.value_string (t !! "repo") = Some url /\
      Toml.value_string (t !! "branch") = Some branch /\
      isLocalPath fs (fst (migrateRepositoryUrl (id_ c) url)) "masterlist.yaml" = Done b) ->
  Toml.value_string (t !! "local_path") = None \/
  Toml.value_string (t !! "local_folder") = None ->
  exists merged, fst (mergeOverrides t c) = Done merged.
Proof.
  intros Hsrc Hl. destruct (resolveSource_defined t (id_ c) Hsrc) as [source Hs].
  unfold mergeOverrides, M_bind, M_ret. cbv zeta.
  destruct (Toml.value_string (t !! "name")),
           (Toml.value_string (t !! "master")),
           (Toml.value_double conv (t !! "minimumHeaderVersion"));
    cbn [id_ SetName SetMaster SetMinimumHeaderVersion]; rewrite Hs;
    destruct (Toml.value_string (t !! "path")),
             (Toml.value_string (t !! "local_path")),
             (Toml.value_string (t !! "local_folder"));
    try (destruct Hl; discriminate);
    cbn [fst snd]; eexists; reflexivity.
Qed.

(** C1, as the code has it: settings resolution scans the configured game
    entries in order.  An entry is accepted only if its engine-type class
    equals that of the requested profile (the identity itself is not
    compared); an entry of another class is passed over, and so is an entry
    of the requested class whose overrides throw.  The entry accepted is the
    first one of the requested class whose overrides merge without an
    exception, which need not be the first entry of that class; it gives the
    resolved profile, and nothing after it is evaluated: the outcome of the
    scan, log included, is that of the scan cut after the accepted entry.
    In particular an entry of the requested class whose masterlist source
    resolves (a masterlistSource, or repo and branch with the test for a
    local clone answered by the disk) and which does not set both local
    keys is accepted when every entry before it is of another class, or
    sets both local keys next to a masterlistSource or to repo and branch.
    If every entry is of another class, or of the requested class with
    overrides that throw, the resolved profile is the initial one,
    unmodified. *)
Theorem getSettings_first_match (w : Worker float) (settings : table) :
  (forall (game : Toml.node double) (newSettings : GameSettings float),
      accepted (m_GameSettings w) game newSettings ->
      entryType game = Some (type_ (m_GameSettings w)) /\
      type_ newSettings = type_ (m_GameSettings w)) /\
  (forall game : Toml.node double,
      entryType game <> Some (type_ (m_GameSettings w)) ->
      skipped (m_GameSettings w) game) /\
  (forall (t : table) (newSettings : GameSettings float),
      fst (candidate t) = Done newSettings ->
      type_ newSettings = type_ (m_GameSettings w) ->
      fst (tryGame (m_GameSettings w) (Toml.Table t)) =
      match fst (mergeOverrides t newSettings) with
      | Done merged => Done (Some merged)
      | Thrown e => Thrown e
      | Undefined => Undefined
      end) /\
  (forall (pre post : list (Toml.node double)) (t : table)
          (newSettings merged : GameSettings float),
      Toml.is_array_of_tables (settings !! "games") = true ->
      Toml.as_array (settings !! "games") = (pre ++ Toml.Table t :: post)%list ->
      Forall (fun game =>
                entryType game <> Some (type_ (m_GameSettings w)) \/
                exists (t' : table) (c' : GameSettings float) (e : exn),
                  game = Toml.Table t' /\ fst (candidate t') = Done c' /\
                  fst (mergeOverrides t' c') = Thrown e) pre ->
      fst (candidate t) = Done newSettings ->
      type_ newSettings = type_ (m_GameSettings w) ->
      fst (mergeOverrides t newSettings) = Done merged ->
      (exists w', fst (getSettings w (Parsed settings)) = Done w' /\
                  m_GameSettings w' = merged) /\
      scanGames (m_GameSettings w) (pre ++ Toml.Table t :: post) =
      scanGames (m_GameSettings w) (pre ++ [Toml.Table t])) /\
  (forall (pre post : list (Toml.node double)) (t : table),
      Toml.is_array_of_tables (settings !! "games") = true ->
      Toml.as_array (settings !! "games") = (pre ++ Toml.Table t :: post)%list ->
      Forall (fun game =>
                entryType game <> Some (type_ (m_GameSettings w)) \/
                exists t' : table,
                  game = Toml.Table t' /\
                  is_Some (Toml.value_string (t' !! "local_path")) /\
                  is_Some (Toml.value_string (t' !! "local_folder")) /\
                  (is_Some (Toml.value_string (t' !! "masterlistSource")) \/
                   (is_Some (Toml.value_string (t' !! "repo")) /\
                    is_Some (Toml.value_string (t' !! "branch"))))) pre ->
      entryType (Toml.Table t) = Some (type_ (m_GameSettings w)) ->
      is_Some (Toml.value_string (t !! "masterlistSource")) \/
      (exists url branch,
          Toml.value_string (t !! "repo") = Some url /\
          Toml.value_string (t !! "branch") = Some branch /\
          forall g : GameId.t,
            exists b, isLocalPath fs (fst (migrateRepositoryUrl g url)) "masterlist.yaml" =
                      Done b) ->
      Toml.value_string (t !! "local_path") = None \/
      Toml.value_string (t !! "local_folder") = None ->
      exists (w' : Worker float) (newSettings : GameSettings float),
        fst (getSettings w (Parsed settings)) = Done w' /\
        fst (candidate t) = Done newSettings /\
        fst (mergeOverrides t newSettings) = Done (m_GameSettings w')) /\
  (Forall (fun game =>
             entryType game <> Some (type_ (m_GameSettings w)) \/
             exists (t' : table) (c' : GameSettings float) (e : exn),
               game = Toml.Table t' /\ fst (candidate t') = Done c' /\
               fst (mergeOverrides t' c') = Thrown e)
          (Toml.as_array (settings !! "games")) ->
   exists w', fst (getSettings w (Parsed settings)) = Done w' /\
              m_GameSettings w' = m_GameSettings w).
Proof.
  split; [|split; [|split; [|split; [|split]]]].
  - intros game newSettings. apply accepted_class.
  - intros game. apply other_class_skipped.
  - intros t newSettings Hc Hty. rewrite tryGame_table, Hc.
    rewrite bool_decide_eq_true_2 by assumption.
    now destruct (fst (mergeOverrides t newSettings)).
  - intros pre post t newSettings merged Harr Hgames Hpre Hc Hty Hm.
    assert (Forall (skipped (m_GameSettings w)) pre) as Hskip.
    { eapply Forall_impl; [exact Hpre|]. intros game [H | (t' & c' & e & -> & Hc' & Hm')].
      - now apply other_class_skipped.
      - now apply (merge_thrown_skipped _ c' t' e). }
    pose proof (merge_done_accepted _ _ _ _ Hc Hty Hm) as Hacc.
    destruct (scanGames_first_accepted _ _ pre post _ Hskip Hacc) as [H1 H2].
    split; [|exact H2].
    destruct (getSettings_profile w settings merged) as (w' & Hw & Hs & _).
    { now rewrite Harr, Hgames. }
    now exists w'.
  - intros pre post t Harr Hgames Hpre Hty Hsrc Hloc.
    rewrite entryType_table in Hty.
    destruct (fst (candidate t)) as [c|e|] eqn:Hc; try discriminate.
    injection Hty as Hty.
    destruct (mergeOverrides_returns t c) as (merged & Hm); [|exact Hloc|].
    { destruct Hsrc as [Hsrc | (url & branch & Hu & Hb & Hdisk)]; [now left|].
      right. destruct (Hdisk (id_ c)) as [b Hb']. now exists url, branch, b. }
    assert (Forall (skipped (m_GameSettings w)) pre) as Hskip.
    { eapply Forall_impl; [exact Hpre|]. intros game [H | (t' & -> & Hp & Hf & Hkeys)].
      - now apply other_class_skipped.
      - apply both_local_skipped; auto. }
    pose proof (merge_done_accepted _ _ _ _ Hc Hty Hm) as Hacc.
    destruct (scanGames_first_accepted _ _ pre post _ Hskip Hacc) as [H1 _].
    destruct (getSettings_profile w settings merged) as (w' & Hw & Hs & _).
    { now rewrite Harr, Hgames. }
    exists w', c. rewrite Hs. auto.
  - intros Hnone.
    destruct (getSettings_profile w settings (m_GameSettings w)) as (w' & Hw & Hs & _).
    { destruct (Toml.is_array_of_tables _); [|reflexivity].
      apply scanGames_all_skipped. eapply Forall_impl; [exact Hnone|].
      intros game [H | (t' & c' & e & -> & Hc' & Hm')].
      - now apply other_class_skipped.
      - now apply (merge_thrown_skipped _ c' t' e). }
    now exists w'.
Qed.


(** ** Classification of an Oblivion entry *)

Lemma nehrimHeuristics_spec (t : table) :
  nehrimHeuristics catalog conv t = true <->
  Toml.value_string (t !! "master") = Some (GetMasterFilename catalog GameId.nehrim) \/
  (exists name, Toml.value_string (t !! "name") = Some name /\
                Text.contains_ignoring_case name "nehrim") \/
  (exists folder, Toml.value_string (t !! "folder") = Some folder /\
                  Text.contains_ignoring_case folder "nehrim") \/
  Toml.value_bool conv (t !! "isBaseGameInstance") = Some false.
Proof.
  unfold nehrimHeuristics. cbv zeta. rewrite !orb_true_iff. 
  assert (forall o : option string,
             match o with Some n => Text.icontains n "nehrim" | None => false end = true <->
             exists n, o = Some n /\ Text.contains_ignoring_case n "nehrim") as Hc.
  { intros [n|]; [rewrite TextFacts.icontains_spec|]; split.
    - intros H; now exists n.
    - now intros (n' & [= <-] & H).
    - discriminate.
    - now intros (n' & [=] & _). }
  rewrite !Hc.
  assert (match Toml.value_string (t !! "master") with
          | Some m => String.eqb m (GetMasterFilename catalog GameId.nehrim)
          | None => false
          end = true <->
          Toml.value_string (t !! "master") = Some (GetMasterFilename catalog GameId.nehrim))
    as Hm.
  { destruct (Toml.value_string (t !! "master")) as [m|]; [|easy].
    rewrite String.eqb_eq. split; congruence. }
  assert (match Toml.value_bool conv (t !! "isBaseGameInstance") with
          | Some b => negb b
          | None => false
          end = true <->
          Toml.value_bool conv (t !! "isBaseGameInstance") = Some false) as Hb.
  { destruct (Toml.value_bool conv (t !! "isBaseGameInstance")) as [[|]|]; easy. }
  rewrite Hm, Hb. tauto.
Qed.

(** C3, as the code has it: Nehrim classification of a raw game entry.  With
    a non-empty install path that exists on disk, the result is what the
    query for NehrimLauncher.exe under that path gives, whatever the other
    fields.  With no install path, an empty one, or one that does not exist,
    the classifier returns, and it returns true exactly when the master file
    name is Nehrim's, or the name or the folder contains nehrim in any
    letter case, or isBaseGameInstance is retrieved as false: a field that
    is absent or not of the asked type is retrieved as [None] and satisfies
    none of the four conditions.  The classifier does fail, with the
    [filesystem_error] of [std::filesystem::exists], exactly when the query
    on a non-empty install path fails, or that path exists and the query on
    the launcher fails; it has no undefined behaviour. *)
Theorem IsNehrim_classification (t : table) :
  (forall path : string,
      Toml.value_string (t !! "path") = Some path -> path <> "" ->
      fs_exists fs path = Some true ->
      IsNehrim catalog conv fs t = exists_ fs (path // "NehrimLauncher.exe")) /\
  ((forall path : string,
       Toml.value_string (t !! "path") = Some path ->
       path = "" \/ fs_exists fs path = Some false) ->
   exists b : bool,
     IsNehrim catalog conv fs t = Done b /\
     (b = true <->
      Toml.value_string (t !! "master") = Some (GetMasterFilename catalog GameId.nehrim) \/
      (exists name, Toml.value_string (t !! "name") = Some name /\
                    Text.contains_ignoring_case name "nehrim") \/
      (exists folder, Toml.value_string (t !! "folder") = Some folder /\
                      Text.contains_ignoring_case folder "nehrim") \/
      Toml.value_bool conv (t !! "isBaseGameInstance") = Some false)) /\
  (forall e : exn,
      IsNehrim catalog conv fs t = Thrown e <->
      exists path : string,
        Toml.value_string (t !! "path") = Some path /\ path <> "" /\
        ((fs_exists fs path = None /\ e = FilesystemError path) \/
         (fs_exists fs path = Some true /\
          fs_exists fs (path // "NehrimLauncher.exe") = None /\
          e = FilesystemError (path // "NehrimLauncher.exe")))) /\
  IsNehrim catalog conv fs t <> Undefined.
Proof.
  split; [|split; [|split]].
  - intros path Hp Hne Hex. unfold IsNehrim, exists_ at 1. cbv zeta. rewrite Hp.
    apply String.eqb_neq in Hne. now rewrite Hne, Hex.
  - intros Hno. exists (nehrimHeuristics catalog conv t).
    split; [|apply nehrimHeuristics_spec].
    unfold IsNehrim, exists_. cbv zeta.
    destruct (Toml.value_string (t !! "path")) as [path|]; [|reflexivity].
    destruct (Hno path eq_refl) as [-> | Hex]; [reflexivity|].
    rewrite Hex. now destruct (negb _).
  - intros e. unfold IsNehrim, exists_, query. cbv zeta.
    destruct (Toml.value_string (t !! "path")) as [path|];
      [|split; [discriminate | now intros (p & [=] & _)]].
    destruct (String.eqb_spec path "") as [-> | Hne]; cbn [negb].
    { split; [discriminate | now intros (p & [= <-] & Hp & _)]. }
    destruct (fs_exists fs path) as [[|]|] eqn:Hex; cbn [outcome_bind].
    + destruct (fs_exists fs (path // "NehrimLauncher.exe")) as [b|] eqn:Hl.
      * split; [discriminate|].
        intros (p & [= <-] & _ & [[H _] | (_ & H & _)]); congruence.
      * split.
        -- intros [= <-]. exists path. split; [reflexivity|]. split; [assumption|].
           right. auto.
        -- intros (p & [= <-] & _ & [[H _] | (_ & _ & ->)]); [congruence | reflexivity].
    + split; [discriminate|].
      intros (p & [= <-] & _ & [[H _] | (H & _)]); congruence.
    + split.
      * intros [= <-]. exists path. split; [reflexivity|]. split; [assumption|].
        left. auto.
      * intros (p & [= <-] & _ & [[_ ->] | (H & _)]); [reflexivity | congruence].
  - apply IsNehrim_outcome.
Qed.


(** ** Declared types *)

Lemma declaredGameId_recognised (t : table) (gameType : string) :
  gameType ∈ declaredTypes ->
  (exists gameId, declaredGameId t gameType = (Done gameId, [])) \/
  (exists path, declaredGameId t gameType = (Thrown (FilesystemError path), [])).
Proof.
  unfold declaredTypes. rewrite !elem_of_cons, elem_of_nil. intros H.
  destruct_or!; subst; try contradiction; try (left; eexists; reflexivity);
    unfold declaredGameId; cbn [String.eqb Ascii.eqb Bool.eqb orb andb].
  - destruct (classified_cases (IsNehrim catalog conv fs t) GameId.nehrim GameId.tes4)
      as [(path & E) | (g & E & _)];
      [apply IsNehrim_outcome.. | discriminate | discriminate | right; eauto | left; eauto].
  - destruct (classified_cases (IsEnderal conv fs t) GameId.enderal GameId.tes5)
      as [(path & E) | (g & E & _)];
      [apply IsEnderalIn_outcome.. | discriminate | discriminate | right; eauto | left; eauto].
  - destruct (classified_cases (IsEnderalSE conv fs t) GameId.enderalse GameId.tes5se)
      as [(path & E) | (g & E & _)];
      [apply IsEnderalIn_outcome.. | discriminate | discriminate | right; eauto | left; eauto].
  - destruct (classified_cases (IsEnderalSE conv fs t) GameId.enderalse GameId.tes5se)
      as [(path & E) | (g & E & _)];
      [apply IsEnderalIn_outcome.. | discriminate | discriminate | right; eauto | left; eauto].
Qed.

(** Without an install path the disk is not asked, and a recognised type
    gives an identity. *)
Lemma declaredGameId_no_path (t : table) (gameType : string) :
  gameType ∈ declaredTypes ->
  Toml.value_string (t !! "path") = None ->
  exists gameId, declaredGameId t gameType = (Done gameId, []).
Proof.
  unfold declaredTypes. rewrite !elem_of_cons, elem_of_nil. intros H Hp.
  unfold declaredGameId, IsNehrim, IsEnderal, IsEnderalSE, IsEnderalIn, quiet, M_bind, M_ret.
  cbv zeta. rewrite Hp.
  destruct_or!; subst; try contradiction; eexists; reflexivity.
Qed.

Lemma declaredGameId_unknown (t : table) (gameType : string) :
  gameType ∉ declaredTypes ->
  declaredGameId t gameType = (Thrown InvalidType, []).
Proof.
  unfold declaredTypes. rewrite !elem_of_cons, elem_of_nil. intros H.
  unfold declaredGameId.
  repeat match goal with
         | |- context [String.eqb gameType ?x] =>
             destruct (String.eqb_spec gameType x); [exfalso; apply H; tauto|]
         end.
  reflexivity.
Qed.

Lemma tryGame_unknown_type (m : GameSettings float) (t : table) (gameType : string) :
  Toml.value_string (t !! "gameId") = Some gameType ->
  declaredGameId t gameType = (Thrown InvalidType, []) ->
  tryGame m (Toml.Table t) = (Thrown InvalidType, []).
Proof.
  intros Hid Hty. rewrite tryGame_table.
  unfold candidate, M_bind. cbv zeta. rewrite Hid. cbn [fst snd M_ret].
  now rewrite Hty.
Qed.

(** No element is accepted for a profile of the Starfield class. *)
Lemma starfield_all_skipped (m : GameSettings float) (game : Toml.node double) :
  type_ m = GameType.starfield -> skipped m game.
Proof.
  intros Hm. apply other_class_skipped. rewrite Hm.
  destruct game; try discriminate. rewrite entryType_table.
  destruct (candidate_cases fields) as [(e & -> & _) | (c & -> & Hc)]; cbn [fst];
    congruence.
Qed.

(** C10: the declared type strings recognised by the scan are exactly
    Morrowind, Oblivion, Skyrim, SkyrimSE, Skyrim Special Edition, Skyrim VR,
    Fallout3, FalloutNV, Fallout4 and Fallout4VR: for these the chain of
    comparisons gives an identity (always so when the entry has no install
    path), unless a disk query of a classifier fails.  An entry whose gameId
    is any other string (Starfield, Nehrim, Enderal and EnderalSE among
    them, all four of which [setGame] accepts as requested names) raises the
    invalid-type error and is passed over.  Hence a run whose requested game
    is Starfield resolves to the catalogue defaults, whatever configuration
    the settings file holds, and also when there is no settings file. *)
Theorem declared_types_and_starfield :
  (forall (t : table) (gameType : string),
      gameType ∈ declaredTypes ->
      ((exists gameId, declaredGameId t gameType = (Done gameId, [])) \/
       (exists path, declaredGameId t gameType = (Thrown (FilesystemError path), []))) /\
      (Toml.value_string (t !! "path") = None ->
       exists gameId, declaredGameId t gameType = (Done gameId, []))) /\
  (forall (m : GameSettings float) (t : table) (gameType : string)
          (rest : list (Toml.node double)),
      Toml.value_string (t !! "gameId") = Some gameType ->
      gameType ∉ declaredTypes ->
      tryGame m (Toml.Table t) = (Thrown InvalidType, []) /\
      scanGames m (Toml.Table t :: rest) = scanGames m rest) /\
  (("Starfield" ∉ declaredTypes) /\ ("Nehrim" ∉ declaredTypes) /\
   ("Enderal" ∉ declaredTypes) /\ ("EnderalSE" ∉ declaredTypes)) /\
  (setGame "Starfield" = Done GameId.starfield /\
   setGame "Nehrim" = Done GameId.nehrim /\
   setGame "Enderal" = Done GameId.enderal /\
   setGame "EnderalSE" = Done GameId.enderalse) /\
  (forall (w : Worker float) (settings : string) (file : SettingsFile double),
      m_GameId w = GameId.starfield ->
      fs_exists fs settings = Some false \/
      (fs_exists fs settings = Some true /\ exists configuration, file = Parsed configuration) ->
      exists w',
        fst (runSettings w settings file) = Done w' /\
        m_GameSettings w' =
        SetGamePath (m_GamePath w)
          (newGameSettings catalog GameId.starfield (ToString catalog GameId.starfield))).
Proof.
  split; [|split; [|split; [|split]]].
  - intros t gameType H. split; [now apply declaredGameId_recognised|].
    now apply declaredGameId_no_path.
  - intros m t gameType rest Hid Hty.
    assert (tryGame m (Toml.Table t) = (Thrown InvalidType, [])) as E.
    { apply (tryGame_unknown_type m t gameType Hid).
      now apply declaredGameId_unknown. }
    split; [exact E|]. cbn [scanGames]. fold scanGames. rewrite E. cbn [fst snd app].
    now destruct (scanGames m rest).
  - unfold declaredTypes. repeat split; rewrite !elem_of_cons, elem_of_nil; intros H;
      repeat (destruct H as [H | H]; [discriminate H|]); exact H.
  - repeat split; vm_compute; reflexivity.
  - intros w settings file Hid Hfile. unfold runSettings, exists_, quiet. cbv zeta.
    rewrite Hid.
    destruct Hfile as [-> | [-> (configuration & ->)]]; unfold M_bind; cbn [query fst snd].
    + cbn [fst snd M_ret]. eexists. split; reflexivity.
    + match goal with
      | |- context [getSettings ?w0 (Parsed configuration)] =>
          destruct (getSettings_profile w0 configuration (m_GameSettings w0))
            as (w1 & Hw & Hs & _ & Hp)
      end.
      { destruct (Toml.is_array_of_tables _); [|reflexivity].
        apply scanGames_all_skipped. apply Forall_forall. intros game _.
        now apply starfield_all_skipped. }
      rewrite Hw. cbn [fst snd M_ret].
      eexists. split; [reflexivity|]. cbn [m_GameSettings]. now rewrite Hs, Hp.
Qed.

(** ** Entries with both local_path and local_folder *)

(** C7, as the code has it: an entry in which both local_path and
    local_folder are set.  If it is not of the requested engine-type class
    it is passed over without any error about the two keys, whatever else
    it holds.  If it is of the requested class and its masterlist source
    resolves (an explicit masterlistSource, or repo and branch with the
    test for a local clone answered by the disk), it fails with
    ConflictingConfiguration.  It is passed over in both cases, and more
    generally unless it is of the requested class and lacks masterlistSource
    and one of repo and branch: the scan goes on with the entries after it
    and its outcome is the one it would have without that entry, so no
    override of the entry reaches the profile. *)
Theorem conflicting_local_settings_skipped
    (m : GameSettings float) (t : table) (rest : list (Toml.node double)) :
  is_Some (Toml.value_string (t !! "local_path")) ->
  is_Some (Toml.value_string (t !! "local_folder")) ->
  (entryType (Toml.Table t) <> Some (type_ m) ->
   fst (tryGame m (Toml.Table t)) <> Thrown ConflictingConfiguration /\
   skipped m (Toml.Table t) /\
   fst (scanGames m (Toml.Table t :: rest)) = fst (scanGames m rest)) /\
  (forall c : GameSettings float,
      fst (candidate t) = Done c -> type_ c = type_ m ->
      is_Some (Toml.value_string (t !! "masterlistSource")) \/
      (exists url branch b,
          Toml.value_string (t !! "repo") = Some url /\
          Toml.value_string (t !! "branch") = Some branch /\
          isLocalPath fs (fst (migrateRepositoryUrl (id_ c) url)) "masterlist.yaml" = Done b) ->
      fst (tryGame m (Toml.Table t)) = Thrown ConflictingConfiguration) /\
  (entryType (Toml.Table t) <> Some (type_ m) \/
   is_Some (Toml.value_string (t !! "masterlistSource")) \/
   (is_Some (Toml.value_string (t !! "repo")) /\
    is_Some (Toml.value_string (t !! "branch"))) ->
   skipped m (Toml.Table t) /\
   fst (scanGames m (Toml.Table t :: rest)) = fst (scanGames m rest)).
Proof.
  intros Hp Hf.
  assert (skipped m (Toml.Table t) ->
          fst (scanGames m (Toml.Table t :: rest)) = fst (scanGames m rest)) as Hgo.
  { intros Hskip. now rewrite (scanGames_skip m _ rest Hskip). }
  split; [|split].
  - intros Hty. pose proof (other_class_skipped m _ Hty) as Hskip.
    split; [now apply other_class_no_conflict|]. auto.
  - intros c Hc Hty Hsrc. rewrite tryGame_table, Hc.
    rewrite bool_decide_eq_true_2 by assumption.
    rewrite (mergeOverrides_both_local t c Hp Hf).
    destruct (resolveSource_defined t (id_ c) Hsrc) as [source ->]. reflexivity.
  - intros Hcase. pose proof (both_local_skipped m t Hp Hf Hcase) as Hskip. auto.
Qed.

(** ** Entries without a legacy key *)

(** C8, at the code: in an entry without masterlistSource in which repo or
    branch is absent, the source statement dereferences the empty optional.
    Nothing is thrown and nothing is caught: for an entry of the requested
    class the scan itself ends in undefined behaviour. *)
Theorem missing_legacy_key_is_dereferenced
    (m : GameSettings float) (t : table) (rest : list (Toml.node double)) :
  Toml.value_string (t !! "masterlistSource") = None ->
  Toml.value_string (t !! "repo") = None \/ Toml.value_string (t !! "branch") = None ->
  (forall GameId : GameId.t, fst (resolveSource fs t GameId) = Undefined) /\
  (entryType (Toml.Table t) = Some (type_ m) ->
   fst (tryGame m (Toml.Table t)) = Undefined /\
   fst (scanGames m (Toml.Table t :: rest)) = Undefined).
Proof.
  intros Hsrc Hkey.
  assert (forall GameId : GameId.t, fst (resolveSource fs t GameId) = Undefined) as Hub.
  { intros g. unfold resolveSource. cbv zeta. rewrite Hsrc.
    destruct Hkey as [-> | ->]; [reflexivity|].
    now destruct (Toml.value_string (t !! "repo")). }
  split; [exact Hub|]. intros Hty.
  assert (fst (tryGame m (Toml.Table t)) = Undefined) as E.
  { rewrite entryType_table in Hty. rewrite tryGame_table.
    destruct (fst (candidate t)) as [c|e|]; try discriminate.
    injection Hty as Hty. rewrite bool_decide_eq_true_2 by assumption.
    unfold mergeOverrides, M_bind. cbv zeta. now rewrite Hub. }
  split; [exact E|]. cbn [scanGames]. now rewrite E.
Qed.

End SettingsFacts.

(** ** The theorems at sample entries *)

Lemma getSettings_first_match_witness :
  exists w',
    fst (getSettings Sample.catalog Sample.conv Sample.narrow Sample.emptyDisk
           (Sample.worker GameId.nehrim) (Parsed Sample.threeGames)) = Done w' /\
    m_GameSettings w' =
    SetMasterlistSource "https://raw.githubusercontent.com/loot/oblivion/v0.23/masterlist.yaml"
      (SetName "My Oblivion" (newGameSettings Sample.catalog GameId.tes4 "Oblivion")).
Proof.
  refine (proj1 (proj1 (proj2 (proj2 (proj2
            (getSettings_first_match Sample.catalog Sample.conv Sample.narrow
               Sample.emptyDisk (Sample.worker GameId.nehrim) Sample.threeGames))))
            [Sample.morrowindEntry] [Toml.Table Sample.conflictingFields]
            Sample.oblivionFields (newGameSettings Sample.catalog GameId.tes4 "Oblivion")
            _ _ _ _ _ _ _)).
  - vm_compute. reflexivity.
  - vm_compute. reflexivity.
  - constructor; [|constructor]. left. vm_compute. discriminate.
  - vm_compute. reflexivity.
  - vm_compute. reflexivity.
  - vm_compute. reflexivity.
Defined.

(** C1 as stated fails when the first entry of the requested class throws:
    with the entry that sets both local keys put first, Oblivion asked for,
    that entry is of the requested class and yet the profile is the one of
    the entry after it. *)
Lemma first_entry_of_class_not_accepted :
  Toml.as_array (Sample.conflictFirst !! "games") =
  [Toml.Table Sample.conflictingFields; Sample.oblivionEntry] /\
  entryType Sample.catalog Sample.conv Sample.emptyDisk
    (Toml.Table Sample.conflictingFields) =
  Some (type_ (m_GameSettings (Sample.worker GameId.tes4))) /\
  Toml.value_string (Sample.conflictingFields !! "name") = Some "Other Oblivion" /\
  exists w',
    fst (getSettings Sample.catalog Sample.conv Sample.narrow Sample.emptyDisk
           (Sample.worker GameId.tes4) (Parsed Sample.conflictFirst)) = Done w' /\
    name_ (m_GameSettings w') = "My Oblivion".
Proof.
  split; [vm_compute; reflexivity|].
  split; [vm_compute; reflexivity|].
  split; [vm_compute; reflexivity|].
  eexists. split; vm_compute; reflexivity.
Qed.

Lemma IsNehrim_classification_witness :
  IsNehrim Sample.catalog Sample.conv Sample.emptyDisk Sample.nehrimFields = Done true.
Proof.
  destruct (proj1 (proj2 (IsNehrim_classification Sample.catalog Sample.conv
                            Sample.emptyDisk Sample.nehrimFields)))
    as (b & Hb & Hiff).
  - intros path H. vm_compute in H. discriminate H.
  - rewrite Hb. f_equal. apply Hiff. left. vm_compute. reflexivity.
Defined.

(** C3 as stated fails on a disk that refuses the query: the classifier
    throws on an entry installed where the status of the path cannot be
    read. *)
Lemma IsNehrim_fails_with_the_disk_query :
  IsNehrim Sample.catalog Sample.conv Sample.lockedDisk Sample.lockedFields =
  Thrown (FilesystemError "/locked/Oblivion").
Proof. vm_compute. reflexivity. Qed.

Lemma declared_types_and_starfield_witness :
  exists w',
    fst (runSettings Sample.catalog Sample.conv Sample.narrow Sample.cloneDisk
           (Sample.worker GameId.starfield) "/repo"
           (Parsed (list_to_map
                      [("games", Toml.Array [Toml.Table Sample.starfieldFields])]))) =
    Done w' /\
    m_GameSettings w' =
    SetGamePath "/games/current"
      (newGameSettings Sample.catalog GameId.starfield "Starfield").
Proof.
  apply (proj2 (proj2 (proj2 (proj2
           (declared_types_and_starfield Sample.catalog Sample.conv Sample.narrow
              Sample.cloneDisk))))
           (Sample.worker GameId.starfield)).
  - reflexivity.
  - right. split; [reflexivity|]. eexists. reflexivity.
Defined.

(** C7 as stated fails on an entry of another engine-type class: with both
    local_path and local_folder set, the entry of the sample is not of the
    requested class when Skyrim is asked for, and its turn of the loop ends
    without any exception. *)
Lemma conflicting_entry_of_other_class_not_reported :
  is_Some (Toml.value_string (Sample.conflictingFields !! "local_path")) /\
  is_Some (Toml.value_string (Sample.conflictingFields !! "local_folder")) /\
  tryGame Sample.catalog Sample.conv Sample.narrow Sample.emptyDisk
    (m_GameSettings (Sample.worker GameId.tes5)) (Toml.Table Sample.conflictingFields) =
  (Done None, []) /\
  fst (tryGame Sample.catalog Sample.conv Sample.narrow Sample.emptyDisk
         (m_GameSettings (Sample.worker GameId.tes5)) (Toml.Table Sample.conflictingFields)) <>
  Thrown ConflictingConfiguration.
Proof.
  split; [vm_compute; eexists; reflexivity|].
  split; [vm_compute; eexists; reflexivity|].
  split; [vm_compute; reflexivity|].
  vm_compute. discriminate.
Qed.

Lemma conflicting_local_settings_skipped_witness :
  fst (tryGame Sample.catalog Sample.conv Sample.narrow Sample.emptyDisk
         (m_GameSettings (Sample.worker GameId.tes4)) (Toml.Table Sample.conflictingFields)) =
  Thrown ConflictingConfiguration.
Proof.
  assert (is_Some (Toml.value_string (Sample.conflictingFields !! "local_path"))) as Hp
      by (vm_compute; eexists; reflexivity).
  assert (is_Some (Toml.value_string (Sample.conflictingFields !! "local_folder"))) as Hf
      by (vm_compute; eexists; reflexivity).
  apply (proj1 (proj2
           (conflicting_local_settings_skipped Sample.catalog Sample.conv Sample.narrow
              Sample.emptyDisk (m_GameSettings (Sample.worker GameId.tes4))
              Sample.conflictingFields [] Hp Hf))
           (newGameSettings Sample.catalog GameId.tes4 "Oblivion")).
  - vm_compute. reflexivity.
  - vm_compute. reflexivity.
  - left. vm_compute. eexists. reflexivity.
Defined.

Lemma missing_legacy_key_is_dereferenced_witness :
  fst (scanGames Sample.catalog Sample.conv Sample.narrow Sample.emptyDisk
         (m_GameSettings (Sample.worker GameId.tes3))
         [Toml.Table Sample.bareFields; Sample.morrowindEntry]) = Undefined.
Proof.
  apply (missing_legacy_key_is_dereferenced Sample.catalog Sample.conv Sample.narrow
           Sample.emptyDisk (m_GameSettings (Sample.worker GameId.tes3))
           Sample.bareFields [Sample.morrowindEntry]).
  - vm_compute. reflexivity.
  - left. vm_compute. reflexivity.
  - vm_compute. reflexivity.
Defined.

(** ** Report assembly *)

Section SetFacts.

Implicit Types (o : Json.object) (e k : string) (v : Json.value).

Lemma set_lookup_ne o e v k : k <> e -> set o e v !! k = o !! k.
Proof.
  intros H. unfold set. destruct (Json.isEmpty v); [reflexivity|].
  now rewrite lookup_insert_ne.
Qed.

Lemma set_size o e v :
  o !! e = None ->
  size (set o e v) = (size o + if Json.isEmpty v then 0 else 1)%nat.
Proof.
  intros H. unfold set. destruct (Json.isEmpty v); [lia|].
  rewrite map_size_insert_None by assumption. lia.
Qed.

Lemma set_detailsNonEmpty o e v : detailsNonEmpty o -> detailsNonEmpty (set o e v).
Proof.
  intros H k x. unfold set. destruct (Json.isEmpty v) eqn:E; [apply H|].
  destruct (decide (e = k)) as [<- | Hne].
  - rewrite lookup_insert_eq. now intros [= <-] _.
  - rewrite lookup_insert_ne by assumption. apply H.
Qed.

Lemma flag_lookup_ne o e k (b : bool) :
  k <> e -> (if b then <[e := Json.Bool true]> o else o) !! k = o !! k.
Proof. intros H. destruct b; [|reflexivity]. now rewrite lookup_insert_ne. Qed.

Lemma flag_size o e (b : bool) :
  o !! e = None ->
  size (if b then <[e := Json.Bool true]> o else o) = (size o + if b then 1 else 0)%nat.
Proof.
  intros H. destruct b; [|lia]. rewrite map_size_insert_None by assumption. lia.
Qed.

Lemma flag_detailsNonEmpty o e (b : bool) :
  detailsNonEmpty o -> detailsNonEmpty (if b then <[e := Json.Bool true]> o else o).
Proof.
  intros H. destruct b; [|exact H]. intros k x.
  destruct (decide (e = k)) as [<- | Hne].
  - rewrite lookup_insert_eq. now intros [= <-] _.
  - rewrite lookup_insert_ne by assumption. apply H.
Qed.

(** An object with a name has more than one member exactly when it has a
    member other than the name. *)
Lemma more_than_name o (n : Json.value) :
  o !! "name" = Some n ->
  (1 < size o <-> exists k v, k <> "name" /\ o !! k = Some v).
Proof.
  intros Hn.
  assert (size o = S (size (delete "name" o))) as ->.
  { rewrite map_size_delete, Hn.
    assert (size o <> 0) as Hs by (apply (map_size_ne_0_lookup_2 o "name"); eauto).
    destruct (size o); [congruence | reflexivity]. }
  split.
  - intros H. assert (delete "name" o <> ∅) as Hne.
    { intros E. rewrite E, map_size_empty in H. lia. }
    apply map_choose in Hne as (k & v & Hk).
    apply lookup_delete_Some in Hk as [Hk1 Hk2]. exists k, v. split; congruence.
  - intros (k & v & Hk & Hv).
    assert (delete "name" o !! k = Some v) as Hd
      by (apply lookup_delete_Some; split; congruence).
    assert (size (delete "name" o) <> 0) as Hs
      by (apply (map_size_ne_0_lookup_2 _ k); eauto).
    lia.
Qed.

End SetFacts.

Section ReportFacts.

Variable game : GameInterface.
Variable m_Language : string.

Local Abbreviation pluginObject := (pluginObject game m_Language).
Local Abbreviation createPlugins := (createPlugins game m_Language).
Local Abbreviation hasDetails := (hasDetails game m_Language).

Lemma flat_map_empty {A B : Type} (f : A -> list B) (l : list A) :
  (length (flat_map f l) =? 0)%nat = negb (existsb (fun x => negb (length (f x) =? 0)%nat) l).
Proof.
  induction l as [|x l IH]; [reflexivity|]. cbn [flat_map existsb].
  rewrite length_app, negb_orb, negb_involutive, <- IH.
  destruct (length (f x)), (length (flat_map f l)); reflexivity.
Qed.

Lemma existsb_pointwise {A : Type} (f g : A -> bool) (l : list A) :
  (forall x, f x = g x) -> existsb f l = existsb g l.
Proof.
  intros H. induction l as [|x l IH]; [reflexivity|]. cbn. now rewrite H, IH.
Qed.

Lemma filter_empty {A : Type} (f : A -> bool) (l : list A) :
  (length (List.filter f l) =? 0)%nat = negb (existsb f l).
Proof.
  induction l as [|x l IH]; [reflexivity|]. cbn [List.filter existsb].
  destruct (f x); [reflexivity | exact IH].
Qed.

Lemma createIncompatibilities_empty (data : list File) :
  Json.isEmpty (createIncompatibilities game data) =
  negb (existsb (fun f => isLoaded game (GetName f)) data).
Proof.
  unfold createIncompatibilities. cbn [Json.isEmpty]. rewrite flat_map_empty.
  f_equal. apply existsb_pointwise. intros f. now destruct (isLoaded game (GetName f)).
Qed.

Lemma createMessages_empty (messages : list Message) :
  Json.isEmpty (createMessages game m_Language messages) =
  negb (existsb (fun m =>
                   bool_decide (is_Some (SelectMessageContent game (GetContent m) m_Language)))
                messages).
Proof.
  unfold createMessages. cbn [Json.isEmpty]. rewrite flat_map_empty.
  f_equal. apply existsb_pointwise. intros m.
  destruct (SelectMessageContent game (GetContent m) m_Language) as [c|]; reflexivity.
Qed.

Lemma createDirty_empty (data : list PluginCleaningData) :
  Json.isEmpty (createDirty game m_Language data) = (length data =? 0)%nat.
Proof. unfold createDirty. cbn [Json.isEmpty]. now rewrite length_map. Qed.

Lemma createClean_empty (data : list PluginCleaningData) :
  Json.isEmpty (createClean game m_Language data) = (length data =? 0)%nat.
Proof. unfold createClean. cbn [Json.isEmpty]. now rewrite length_map. Qed.

Lemma createMissingMasters_loaded (pluginName : string) (plugin : PluginInterface) :
  GetPlugin game pluginName = Some plugin ->
  exists missingMasters,
    createMissingMasters game pluginName = Done missingMasters /\
    Json.isEmpty missingMasters =
    negb (existsb (fun master => negb (isLoaded game master)) (GetMasters plugin)).
Proof.
  intros H. unfold createMissingMasters. rewrite H. cbn [arrow outcome_bind].
  eexists. split; [reflexivity|]. cbn [Json.isEmpty].
  now rewrite length_map, filter_empty.
Qed.

Ltac other_key :=
  repeat first [ rewrite flag_lookup_ne by discriminate
               | rewrite set_lookup_ne by discriminate
               | rewrite lookup_insert_ne by discriminate ].

Ltac fresh_key := other_key; apply lookup_empty.

(** The object of a loaded plugin for which the database answers: it holds
    the name, it has more than one member exactly when the plugin has
    details, and no member other than the name is empty. *)
Lemma pluginObject_loaded (pluginName : string) :
  is_Some (GetPlugin game pluginName) ->
  (exists metaData, GetPluginMetadata game pluginName = inr metaData) ->
  exists o,
    pluginObject pluginName = Done o /\
    o !! "name" = Some (Json.String_ pluginName) /\
    (1 < size o <-> hasDetails pluginName = true) /\
    detailsNonEmpty o.
Proof.
  intros [plugin Hp] [md Hmd]. unfold pluginObject, hasDetails, library. cbv zeta.
  destruct (createMissingMasters_loaded pluginName plugin Hp) as (mm & -> & Hmm).
  rewrite Hp, Hmd. cbn [arrow outcome_bind]. eexists. split; [reflexivity|].
  assert (detailsNonEmpty (<["name" := Json.String_ pluginName]> ∅)) as Hbase.
  { intros k v. destruct (decide ("name" = k)) as [<- | Hne]; [easy|].
    rewrite lookup_insert_ne by assumption. now rewrite lookup_empty. }
  destruct md as [metaData|].
  - split; [|split].
    + other_key. apply lookup_insert_eq.
    + rewrite !flag_size by fresh_key. rewrite !set_size by fresh_key.
      rewrite map_size_insert_None, map_size_empty by apply lookup_empty.
      rewrite Hmm, createIncompatibilities_empty, createMessages_empty,
        createDirty_empty, createClean_empty.
      repeat match goal with
             | |- context [existsb ?f ?l] => destruct (existsb f l)
             | |- context [(length ?l =? 0)%nat] => destruct (length l =? 0)%nat
             end;
        destruct (LoadsArchive plugin), (IsMaster plugin), (IsLightPlugin plugin);
        cbn; split; (lia || congruence).
    + repeat first [apply flag_detailsNonEmpty | apply set_detailsNonEmpty]. exact Hbase.
  - split; [|split].
    + other_key. apply lookup_insert_eq.
    + rewrite !flag_size by fresh_key. rewrite !set_size by fresh_key.
      rewrite map_size_insert_None, map_size_empty by apply lookup_empty.
      rewrite Hmm.
      destruct (existsb _ (GetMasters plugin));
        destruct (LoadsArchive plugin), (IsMaster plugin), (IsLightPlugin plugin);
        cbn; split; (lia || congruence).
    + repeat first [apply flag_detailsNonEmpty | apply set_detailsNonEmpty]. exact Hbase.
Qed.

Lemma createPlugins_cons (pluginName : string) (rest : list string) :
  createPlugins (pluginName :: rest) =
  outcome_bind (pluginObject pluginName) (fun o =>
    outcome_bind (createPlugins rest) (fun plugins =>
      Done (if (1 <? size o)%nat then Json.Object o :: plugins else plugins))).
Proof. reflexivity. Qed.

(** For a load order of loaded plugins for which the database answers,
    [createPlugins] returns, and what it returns are the objects with more
    than one member. *)
Lemma createPlugins_loaded (sortedPlugins : list string) :
  (forall n, n ∈ sortedPlugins -> is_Some (GetPlugin game n)) ->
  (forall n, n ∈ sortedPlugins -> exists metaData, GetPluginMetadata game n = inr metaData) ->
  exists plugins,
    createPlugins sortedPlugins = Done plugins /\
    forall v, v ∈ plugins <->
              exists n o, n ∈ sortedPlugins /\ pluginObject n = Done o /\
                          v = Json.Object o /\ 1 < size o.
Proof.
  induction sortedPlugins as [|n rest IH]; intros Hl Hd.
  - exists []. split; [reflexivity|]. intros v. split.
    + intros H. now apply elem_of_nil in H.
    + intros (n & o & H & _). now apply elem_of_nil in H.
  - destruct IH as (plugins & Hrest & Hin).
    { intros x Hx. apply Hl. now right. }
    { intros x Hx. apply Hd. now right. }
    destruct (pluginObject_loaded n) as (o & Ho & _).
    { apply Hl. now left. }
    { apply Hd. now left. }
    rewrite createPlugins_cons, Ho, Hrest. cbn [outcome_bind].
    eexists. split; [reflexivity|]. intros v.
    destruct (Nat.ltb_spec 1 (size o)) as [Hs | Hs].
    + rewrite elem_of_cons, Hin. split.
      * intros [-> | (n' & o' & Hn' & Ho' & -> & Hs')].
        -- exists n, o. repeat split; try assumption. now left.
        -- exists n', o'. repeat split; try assumption. now right.
      * intros (n' & o' & Hn' & Ho' & -> & Hs').
        apply elem_of_cons in Hn' as [-> | Hn'].
        -- left. congruence.
        -- right. now exists n', o'.
    + rewrite Hin. split.
      * intros (n' & o' & Hn' & Ho' & -> & Hs').
        exists n', o'. repeat split; try assumption. now right.
      * intros (n' & o' & Hn' & Ho' & -> & Hs').
        apply elem_of_cons in Hn' as [-> | Hn'].
        -- assert (o' = o) as -> by congruence. lia.
        -- now exists n', o'.
Qed.

(** C9: in the report, the object of a plugin is in the plugins array if and
    only if it has a member beyond the bare name; that is the case exactly
    when the plugin has something to report (an incompatibility with a
    loaded plugin, a message with a text, a dirty or clean record, a missing
    master, or one of the flags loadsArchive, isMaster, isLightMaster).  A
    plugin with nothing but its name is left out, and no member of an object
    other than the name is an empty object, array or string.  The load
    order is one of loaded plugins, as the sorter returns it, and the
    database answers the query for the metadata of each of them. *)
Theorem createPlugins_inclusion (sortedPlugins : list string) :
  (forall n, n ∈ sortedPlugins -> is_Some (GetPlugin game n)) ->
  (forall n, n ∈ sortedPlugins -> exists metaData, GetPluginMetadata game n = inr metaData) ->
  exists plugins,
    createPlugins sortedPlugins = Done plugins /\
    (forall n, n ∈ sortedPlugins ->
       exists o,
         pluginObject n = Done o /\
         o !! "name" = Some (Json.String_ n) /\
         (Json.Object o ∈ plugins <-> exists k v, k <> "name" /\ o !! k = Some v) /\
         ((exists k v, k <> "name" /\ o !! k = Some v) <-> hasDetails n = true) /\
         detailsNonEmpty o) /\
    (forall v, v ∈ plugins ->
       exists n o, n ∈ sortedPlugins /\ pluginObject n = Done o /\
                   v = Json.Object o /\ detailsNonEmpty o).
Proof.
  intros Hl Hd.
  destruct (createPlugins_loaded sortedPlugins Hl Hd) as (plugins & Hp & Hin).
  exists plugins. split; [exact Hp|]. split.
  - intros n Hn.
    destruct (pluginObject_loaded n (Hl n Hn) (Hd n Hn)) as (o & Ho & Hname & Hsize & Hne).
    exists o. repeat split; try assumption.
    + intros H. apply Hin in H as (n' & o' & _ & _ & [= <-] & Hs).
      now apply (more_than_name o _ Hname).
    + intros H. apply Hin. exists n, o. repeat split; try assumption.
      now apply (more_than_name o _ Hname).
    + intros H. apply Hsize. now apply (more_than_name o _ Hname).
    + intros H. apply (more_than_name o _ Hname). now apply Hsize.
  - intros v Hv. apply Hin in Hv as (n & o & Hn & Ho & -> & _).
    destruct (pluginObject_loaded n (Hl n Hn) (Hd n Hn)) as (o' & Ho' & _ & _ & Hne).
    assert (o' = o) as -> by congruence.
    exists n, o. auto.
Qed.

End ReportFacts.

Lemma createPlugins_inclusion_witness :
  exists plugins o,
    createPlugins Sample.sortedGame "en" ["Skyrim.esm"; "Quiet.esp"; "Patch.esp"] =
    Done plugins /\
    pluginObject Sample.sortedGame "en" "Quiet.esp" = Done o /\
    Json.Object o ∉ plugins.
Proof.
  destruct (createPlugins_inclusion Sample.sortedGame "en"
              ["Skyrim.esm"; "Quiet.esp"; "Patch.esp"]) as (plugins & Hp & Hin & _).
  { intros n. rewrite !elem_of_cons, elem_of_nil. intros H.
    destruct_or!; subst; try contradiction; vm_compute; eexists; reflexivity. }
  { intros n. rewrite !elem_of_cons, elem_of_nil. intros H.
    destruct_or!; subst; try contradiction; vm_compute; eexists; reflexivity. }
  destruct (Hin "Quiet.esp") as (o & Ho & _ & Hiff & Hdet & _).
  { rewrite !elem_of_cons. right. left. reflexivity. }
  exists plugins, o. repeat split; try assumption.
  intros H. apply Hiff, Hdet in H. vm_compute in H. discriminate H.
Defined.

(* ===================================================================== *)
(** * Part III: further properties of the worker *)
(* ===================================================================== *)

(** ** Repository redirection *)

Lemma migrateRepositoryUrl_other (GameId : GameId.t) (url : string) :
  GameId <> GameId.tes5vr -> GameId <> GameId.fo4vr ->
  migrateRepositoryUrl GameId url = (url, []).
Proof.
  intros H1 H2. unfold migrateRepositoryUrl, W_bind, W_ret.
  rewrite !bool_decide_eq_false_2 by assumption. reflexivity.
Qed.

Lemma migrateRepositoryUrl_tes5vr (url : string) :
  migrateRepositoryUrl GameId.tes5vr url =
  if String.eqb url "https://github.com/loot/skyrimse.git"
  then ("https://github.com/loot/skyrimvr.git",
        [LogCall LogLevel.info
           ("Updating masterlist repository URL from" +:+ url +:+ " to " +:+
            "https://github.com/loot/skyrimvr.git")])
  else (url, []).
Proof.
  unfold migrateRepositoryUrl, W_bind, W_ret, tell.
  rewrite (bool_decide_eq_true_2 (GameId.tes5vr = GameId.tes5vr)) by reflexivity.
  rewrite (bool_decide_eq_false_2 (GameId.tes5vr = GameId.fo4vr)) by discriminate.
  destruct (String.eqb url "https://github.com/loot/skyrimse.git"); reflexivity.
Qed.

Lemma migrateRepositoryUrl_fo4vr (url : string) :
  migrateRepositoryUrl GameId.fo4vr url =
  if String.eqb url "https://github.com/loot/fallout4.git"
  then ("https://github.com/loot/fallout4vr.git",
        [LogCall LogLevel.info
           ("Updating masterlist repository URL from " +:+ url +:+ " to " +:+
            "https://github.com/loot/fallout4vr.git")])
  else (url, []).
Proof.
  unfold migrateRepositoryUrl, W_bind, W_ret, tell.
  rewrite (bool_decide_eq_false_2 (GameId.fo4vr = GameId.tes5vr)) by discriminate.
  rewrite (bool_decide_eq_true_2 (GameId.fo4vr = GameId.fo4vr)) by reflexivity.
  cbn [andb fst snd app].
  destruct (String.eqb url "https://github.com/loot/fallout4.git"); reflexivity.
Qed.

(** X1: the two VR redirections.  For every identity other than Skyrim VR
    and Fallout 4 VR the URL comes back as it is, with no log call.  For
    Skyrim VR exactly the URL of the Skyrim SE repository, and for Fallout 4
    VR exactly the URL of the Fallout 4 repository, is replaced by that of
    the VR repository.  The redirection is idempotent, and it logs exactly
    when it changes the URL. *)
Theorem migrateRepositoryUrl_redirections :
  (forall (GameId : GameId.t) (url : string),
      GameId <> GameId.tes5vr -> GameId <> GameId.fo4vr ->
      migrateRepositoryUrl GameId url = (url, [])) /\
  (forall url : string,
      fst (migrateRepositoryUrl GameId.tes5vr url) =
      if String.eqb url "https://github.com/loot/skyrimse.git"
      then "https://github.com/loot/skyrimvr.git" else url) /\
  (forall url : string,
      fst (migrateRepositoryUrl GameId.fo4vr url) =
      if String.eqb url "https://github.com/loot/fallout4.git"
      then "https://github.com/loot/fallout4vr.git" else url) /\
  (forall (GameId : GameId.t) (url : string),
      fst (migrateRepositoryUrl GameId (fst (migrateRepositoryUrl GameId url))) =
      fst (migrateRepositoryUrl GameId url)) /\
  (forall (GameId : GameId.t) (url : string),
      snd (migrateRepositoryUrl GameId url) = [] <->
      fst (migrateRepositoryUrl GameId url) = url).
Proof.
  split; [|split; [|split; [|split]]].
  - apply migrateRepositoryUrl_other.
  - intros url. rewrite migrateRepositoryUrl_tes5vr. now destruct (String.eqb _ _).
  - intros url. rewrite migrateRepositoryUrl_fo4vr. now destruct (String.eqb _ _).
  - intros g url.
    destruct (decide (g = GameId.tes5vr)) as [-> | H1];
      [|destruct (decide (g = GameId.fo4vr)) as [-> | H2]].
    + rewrite (migrateRepositoryUrl_tes5vr url).
      destruct (String.eqb url _) eqn:E; cbn [fst];
        rewrite migrateRepositoryUrl_tes5vr; [reflexivity | now rewrite E].
    + rewrite (migrateRepositoryUrl_fo4vr url).
      destruct (String.eqb url _) eqn:E; cbn [fst];
        rewrite migrateRepositoryUrl_fo4vr; [reflexivity | now rewrite E].
    + now rewrite !migrateRepositoryUrl_other.
  - intros g url.
    destruct (decide (g = GameId.tes5vr)) as [-> | H1];
      [|destruct (decide (g = GameId.fo4vr)) as [-> | H2]].
    + rewrite migrateRepositoryUrl_tes5vr.
      destruct (String.eqb_spec url "https://github.com/loot/skyrimse.git");
        cbn [fst snd]; [|easy]. subst. split; discriminate.
    + rewrite migrateRepositoryUrl_fo4vr.
      destruct (String.eqb_spec url "https://github.com/loot/fallout4.git");
        cbn [fst snd]; [|easy]. subst. split; discriminate.
    + now rewrite migrateRepositoryUrl_other.
Qed.

(** ** Local clones and remote URLs *)

Lemma migrateBranch_log_info (branch : string) (c : log_call) :
  c ∈ snd (migrateBranch branch) -> call_level c = LogLevel.info.
Proof.
  unfold migrateBranch, W_bind, W_ret, tell.
  destruct (bool_decide (branch ∈ oldDefaultBranches)); cbn [fst snd app]; intros H.
  - apply list_elem_of_singleton in H. now subst.
  - now apply elem_of_nil in H.
Qed.

Lemma migrateRepositoryUrl_log_info (GameId : GameId.t) (url : string) (c : log_call) :
  c ∈ snd (migrateRepositoryUrl GameId url) -> call_level c = LogLevel.info.
Proof.
  destruct (decide (GameId = GameId.tes5vr)) as [-> | H1];
    [|destruct (decide (GameId = GameId.fo4vr)) as [-> | H2]].
  - rewrite migrateRepositoryUrl_tes5vr. destruct (String.eqb url _); cbn [snd];
      intros H; [apply list_elem_of_singleton in H; now subst | now apply elem_of_nil in H].
  - rewrite migrateRepositoryUrl_fo4vr. destruct (String.eqb url _); cbn [snd];
      intros H; [apply list_elem_of_singleton in H; now subst | now apply elem_of_nil in H].
  - rewrite migrateRepositoryUrl_other by assumption. intros H. now apply elem_of_nil in H.
Qed.

Lemma migrateRepositoryUrl_remote (GameId : GameId.t) (url : string) :
  Text.starts_with url "http://" || Text.starts_with url "https://" = true ->
  Text.starts_with (fst (migrateRepositoryUrl GameId url)) "http://" ||
  Text.starts_with (fst (migrateRepositoryUrl GameId url)) "https://" = true.
Proof.
  intros H.
  destruct (decide (GameId = GameId.tes5vr)) as [-> | H1];
    [|destruct (decide (GameId = GameId.fo4vr)) as [-> | H2]].
  - rewrite migrateRepositoryUrl_tes5vr. now destruct (String.eqb url _).
  - rewrite migrateRepositoryUrl_fo4vr. now destruct (String.eqb url _).
  - now rewrite migrateRepositoryUrl_other.
Qed.

Lemma isLocalPath_remote (fs : FileSystem) (location filename : string) :
  Text.starts_with location "http://" || Text.starts_with location "https://" = true ->
  isLocalPath fs location filename = Done false.
Proof. intros H. unfold isLocalPath. now rewrite H. Qed.

(** The log of a migration that finds a local clone. *)
Lemma migrateMasterlistRepoSettings_local_log
    (fs : FileSystem) (GameId : GameId.t) (url branch : string) :
  isLocalPath fs (fst (migrateRepositoryUrl GameId url)) "masterlist.yaml" = Done true ->
  snd (migrateMasterlistRepoSettings fs GameId url branch) =
  (snd (migrateBranch branch) ++ snd (migrateRepositoryUrl GameId url) ++
   if isBranchCheckedOut fs (fst (migrateRepositoryUrl GameId url)) (fst (migrateBranch branch))
   then []
   else [LogCall LogLevel.warning
           (not_checked_out_warning (fst (migrateRepositoryUrl GameId url))
              (fst (migrateBranch branch)))])%list.
Proof.
  intros Hl. unfold migrateMasterlistRepoSettings, M_bind, M_ret, lift, quiet, W_ret, tell.
  cbn [fst snd]. rewrite Hl. cbn [fst snd].
  destruct (isBranchCheckedOut _ _ _); cbn [negb fst snd app];
    now rewrite ?app_nil_r.
Qed.

(** X2: a legacy URL that is the path of a local clone (masterlist.yaml and
    .git/HEAD are regular files under it) resolves to the masterlist file in
    that clone, whatever branch is configured.  The warning about the
    branch is logged exactly when the first line of .git/HEAD is not the
    reference to the (possibly migrated) branch. *)
Theorem local_clone_is_the_source
    (fs : FileSystem) (GameId : GameId.t) (url branch : string) :
  isLocalPath fs (fst (migrateRepositoryUrl GameId url)) "masterlist.yaml" = Done true ->
  fst (migrateMasterlistRepoSettings fs GameId url branch) =
  Done (Some (fst (migrateRepositoryUrl GameId url) // "masterlist.yaml")) /\
  (LogCall LogLevel.warning
     (not_checked_out_warning (fst (migrateRepositoryUrl GameId url))
        (fst (migrateBranch branch)))
     ∈ snd (migrateMasterlistRepoSettings fs GameId url branch) <->
   isBranchCheckedOut fs (fst (migrateRepositoryUrl GameId url))
     (fst (migrateBranch branch)) = false) /\
  (LogCall LogLevel.warning not_github_warning
     ∉ snd (migrateMasterlistRepoSettings fs GameId url branch)).
Proof.
  intros Hl. split; [|split].
  - rewrite migrateMasterlistRepoSettings_value. cbv zeta. now rewrite Hl.
  - rewrite migrateMasterlistRepoSettings_local_log by assumption.
    rewrite !elem_of_app. split.
    + intros [H | [H | H]].
      * apply migrateBranch_log_info in H. discriminate H.
      * apply migrateRepositoryUrl_log_info in H. discriminate H.
      * destruct (isBranchCheckedOut _ _ _); [now apply elem_of_nil in H | reflexivity].
    + intros ->. right. right. apply list_elem_of_here.
  - rewrite migrateMasterlistRepoSettings_local_log by assumption.
    rewrite !elem_of_app. intros [H | [H | H]].
    + apply migrateBranch_log_info in H. discriminate H.
    + apply migrateRepositoryUrl_log_info in H. discriminate H.
    + destruct (isBranchCheckedOut _ _ _); [now apply elem_of_nil in H|].
      apply list_elem_of_singleton in H. injection H as E. discriminate E.
Qed.

Lemma local_clone_is_the_source_witness :
  fst (migrateMasterlistRepoSettings Sample.cloneDisk GameId.tes4 "/repo" "master") =
  Done (Some "/repo/masterlist.yaml") /\
  LogCall LogLevel.warning (not_checked_out_warning "/repo" "v0.23")
    ∈ snd (migrateMasterlistRepoSettings Sample.cloneDisk GameId.tes4 "/repo" "master").
Proof.
  split.
  - apply (proj1 (local_clone_is_the_source Sample.cloneDisk GameId.tes4
                    "/repo" "master" eq_refl)).
  - apply (proj1 (proj2 (local_clone_is_the_source Sample.cloneDisk GameId.tes4
                           "/repo" "master" eq_refl))).
    reflexivity.
Defined.

(** X3: for a legacy URL that starts with http:// or https:// the migration
    never looks at the disk: its result and its log are the same on any two
    file systems. *)
Theorem remote_url_ignores_disk
    (fs fs' : FileSystem) (GameId : GameId.t) (url branch : string) :
  Text.starts_with url "http://" = true \/ Text.starts_with url "https://" = true ->
  migrateMasterlistRepoSettings fs GameId url branch =
  migrateMasterlistRepoSettings fs' GameId url branch.
Proof.
  intros H.
  assert (Text.starts_with url "http://" || Text.starts_with url "https://" = true) as Hr
    by (apply orb_true_iff; exact H).
  pose proof (migrateRepositoryUrl_remote GameId url Hr) as Hr'.
  unfold migrateMasterlistRepoSettings, M_bind, M_ret, lift, quiet. cbn [fst snd].
  now rewrite !(isLocalPath_remote _ _ _ Hr').
Qed.

Lemma remote_url_ignores_disk_witness :
  migrateMasterlistRepoSettings Sample.cloneDisk GameId.tes5vr
    "https://github.com/loot/skyrimse.git" "v0.17" =
  migrateMasterlistRepoSettings Sample.emptyDisk GameId.tes5vr
    "https://github.com/loot/skyrimse.git" "v0.17".
Proof.
  apply remote_url_ignores_disk. right. reflexivity.
Defined.

(** X4: at most one branch counts as checked out in a clone: if the test
    succeeds for two branch names they are the same name.  It fails for
    every branch when .git/HEAD cannot be opened. *)
Theorem isBranchCheckedOut_unique
    (fs : FileSystem) (localGitRepo branch1 branch2 : string) :
  isBranchCheckedOut fs localGitRepo branch1 = true ->
  isBranchCheckedOut fs localGitRepo branch2 = true ->
  branch1 = branch2 /\
  fs_getline fs (localGitRepo // ".git" // "HEAD") = Some ("ref: refs/heads/" +:+ branch1).
Proof.
  unfold isBranchCheckedOut. cbv zeta.
  destruct (fs_getline fs (localGitRepo // ".git" // "HEAD")) as [line|];
    [|discriminate].
  intros H1 H2. apply String.eqb_eq in H1, H2. subst line.
  split; [|reflexivity]. now apply TextFacts.app_inv_head in H2.
Qed.

Lemma isBranchCheckedOut_unique_witness :
  "main" = "main" /\
  fs_getline Sample.cloneDisk ("/repo" // ".git" // "HEAD") = Some "ref: refs/heads/main".
Proof.
  apply (isBranchCheckedOut_unique Sample.cloneDisk "/repo" "main" "main");
    reflexivity.
Defined.

(** ** The old default repositories *)

Ltac in_list :=
  repeat first [apply list_elem_of_here | apply list_elem_of_further].

Lemma old_default_migration
    (fs : FileSystem) (GameId : GameId.t) (url repo branch : string) :
  fst (migrateRepositoryUrl GameId url) = url ->
  Text.starts_with url "https://" = true ->
  GithubRepoUrlRegex.regex_match url = [url; "loot"; repo] ->
  fst (migrateMasterlistRepoSettings fs GameId url branch) =
  Done (Some (legacyMasterlistUrl repo (fst (migrateBranch branch)))).
Proof.
  intros Hu Hs Hm. rewrite migrateMasterlistRepoSettings_value. cbv zeta.
  rewrite Hu, Hm. rewrite isLocalPath_remote by (rewrite Hs; apply orb_true_r).
  reflexivity.
Qed.

(** X5: [getOldDefaultRepoUrl] knows the nine base identities and fails for
    Nehrim, Enderal, Enderal SE and Starfield with the underlying value of
    the identity.  Each URL it returns is a GitHub URL of owner loot for an
    official repository, and the migration of that URL, on any disk and for
    any branch, is the raw masterlist URL of that repository at the
    (possibly migrated) branch; the VR redirections take the old default
    URL of the base game to that of the VR game. *)
Theorem old_default_repo_urls :
  (forall (GameId : GameId.t) (url : string),
      getOldDefaultRepoUrl GameId = inr url ->
      exists repo : string,
        repo ∈ officialMasterlistRepos /\
        GithubRepoUrl.matches url "loot" repo /\
        forall (fs : FileSystem) (branch : string),
          fst (migrateMasterlistRepoSettings fs GameId url branch) =
          Done (Some ("https://raw.githubusercontent.com/loot/" +:+ repo +:+ "/" +:+
                      fst (migrateBranch branch) +:+ "/masterlist.yaml"))) /\
  (forall GameId : GameId.t,
      GameId ∈ [GameId.nehrim; GameId.enderal; GameId.enderalse; GameId.starfield] <->
      getOldDefaultRepoUrl GameId = inl (UnrecognisedGameType (underlying GameId))) /\
  (forall url : string,
      getOldDefaultRepoUrl GameId.tes5se = inr url ->
      getOldDefaultRepoUrl GameId.tes5vr = inr (fst (migrateRepositoryUrl GameId.tes5vr url))) /\
  (forall url : string,
      getOldDefaultRepoUrl GameId.fo4 = inr url ->
      getOldDefaultRepoUrl GameId.fo4vr = inr (fst (migrateRepositoryUrl GameId.fo4vr url))).
Proof.
  split; [|split; [|split]].
  - intros g url H.
    assert (forall repo,
               repo ∈ officialMasterlistRepos ->
               fst (migrateRepositoryUrl g url) = url ->
               Text.starts_with url "https://" = true ->
               GithubRepoUrlRegex.regex_match url = [url; "loot"; repo] ->
               exists repo : string,
                 repo ∈ officialMasterlistRepos /\
                 GithubRepoUrl.matches url "loot" repo /\
                 forall (fs : FileSystem) (branch : string),
                   fst (migrateMasterlistRepoSettings fs g url branch) =
                   Done (Some ("https://raw.githubusercontent.com/loot/" +:+ repo +:+ "/" +:+
                               fst (migrateBranch branch) +:+ "/masterlist.yaml"))) as Hgen.
    { intros repo Hin Hu Hs Hm. exists repo. split; [exact Hin|]. split.
      - now apply RegexFacts.regex_match_spec.
      - intros fs branch. now apply old_default_migration. }
    destruct g; try discriminate; injection H as <-.
    + apply (Hgen "morrowind"); try reflexivity. in_list.
    + apply (Hgen "oblivion"); try reflexivity. in_list.
    + apply (Hgen "skyrim"); try reflexivity. in_list.
    + apply (Hgen "skyrimse"); try reflexivity. in_list.
    + apply (Hgen "skyrimvr"); try reflexivity. in_list.
    + apply (Hgen "fallout3"); try reflexivity. in_list.
    + apply (Hgen "falloutnv"); try reflexivity. in_list.
    + apply (Hgen "fallout4"); try reflexivity. in_list.
    + apply (Hgen "fallout4vr"); try reflexivity. in_list.
  - intros g. rewrite !elem_of_cons, elem_of_nil.
    destruct g; cbn [getOldDefaultRepoUrl underlying]; split; intros H;
      try reflexivity; try discriminate H; try tauto;
      repeat (destruct H as [H | H]; [discriminate H|]); contradiction.
  - intros url [= <-]. reflexivity.
  - intros url [= <-]. reflexivity.
Qed.

(** ** The current default URL *)

(** A string splits at its last separator in one way only. *)
Lemma last_slash_unique (a b x y : string) :
  Text.no_slash x = true -> Text.no_slash y = true ->
  a +:+ String Text.slash x = b +:+ String Text.slash y -> a = b /\ x = y.
Proof.
  intros Hx Hy. revert b. induction a as [|c a IH]; intros [|d b] H; simpl in H.
  - injection H as ->. auto.
  - injection H as _ H. subst x. rewrite TextFacts.no_slash_app in Hx.
    apply andb_prop in Hx as [_ Hx]. discriminate Hx.
  - injection H as _ H. subst y. rewrite TextFacts.no_slash_app in Hy.
    apply andb_prop in Hy as [_ Hy]. discriminate Hy.
  - injection H as -> H. destruct (IH b H) as [-> ->]. auto.
Qed.

(** A current default URL is not one of the legacy URLs, whatever the
    repository name. *)
Lemma default_url_not_legacy (repositoryName R B : string) :
  B ∈ oldDefaultBranches ->
  GetDefaultMasterlistUrl repositoryName <> legacyMasterlistUrl R B.
Proof.
  intros HB E.
  unfold GetDefaultMasterlistUrl, legacyMasterlistUrl in E.
  apply TextFacts.app_inv_head in E.
  change (repositoryName +:+ "/" +:+ DEFAULT_MASTERLIST_BRANCH +:+ "/masterlist.yaml")
    with (repositoryName +:+ String Text.slash (DEFAULT_MASTERLIST_BRANCH +:+ "/masterlist.yaml"))
    in E.
  change (R +:+ "/" +:+ B +:+ "/masterlist.yaml")
    with (R +:+ String Text.slash (B +:+ "/masterlist.yaml")) in E.
  assert (Text.no_slash DEFAULT_MASTERLIST_BRANCH = true) as Hd by reflexivity.
  assert (Text.no_slash B = true) as HB'.
  { apply superseded_cases in HB. destruct_or!; subst; reflexivity. }
  assert (forall b : string,
             b +:+ "/masterlist.yaml" = (b +:+ "/") +:+ "masterlist.yaml") as Hsplit.
  { intros b. now rewrite TextFacts.app_assoc. }
  rewrite (Hsplit DEFAULT_MASTERLIST_BRANCH), (Hsplit B) in E.
  assert (forall r b : string,
             r +:+ String Text.slash ((b +:+ "/") +:+ "masterlist.yaml") =
             ((r +:+ String Text.slash b) +:+ "/") +:+ "masterlist.yaml") as Hre.
  { intros r b. rewrite !TextFacts.app_assoc. reflexivity. }
  rewrite !Hre in E. apply TextFacts.app_inv_tail in E. apply TextFacts.app_inv_tail in E.
  apply last_slash_unique in E as [_ E]; try assumption.
  apply default_branch_current. now rewrite E.
Qed.

(** X6: the current default masterlist URL of a repository, whatever its
    name, is never rewritten by [migrateMasterlistSource], and nothing is
    logged for it. *)
Theorem current_default_url_is_final (repositoryName : string) :
  migrateMasterlistSource (GetDefaultMasterlistUrl repositoryName) =
  (GetDefaultMasterlistUrl repositoryName, []).
Proof.
  apply migrateMasterlistSource_miss. intros R B _ HB.
  now apply default_url_not_legacy.
Qed.

(** ** Classification of Skyrim entries *)

Section ClassifierFacts.

Context {double : Type}.
Variable conv : Toml.Conversions double.
Variable fs : FileSystem.

Local Abbreviation table := (gmap string (Toml.node double)).

Lemma enderalHeuristics_spec (t : table) (expectedLocalFolder : string) :
  enderalHeuristics conv t expectedLocalFolder = true <->
  GetLocalFolder t = Some expectedLocalFolder \/
  (exists name, Toml.value_string (t !! "name") = Some name /\
                Text.contains_ignoring_case name "enderal") \/
  (exists folder, Toml.value_string (t !! "folder") = Some folder /\
                  Text.contains_ignoring_case folder "enderal") \/
  Toml.value_bool conv (t !! "isBaseGameInstance") = Some false.
Proof.
  unfold enderalHeuristics. cbv zeta. rewrite !orb_true_iff.
  assert (forall o : option string,
             match o with Some n => Text.icontains n "enderal" | None => false end = true <->
             exists n, o = Some n /\ Text.contains_ignoring_case n "enderal") as Hc.
  { intros [n|]; [rewrite TextFacts.icontains_spec|]; split.
    - intros H; now exists n.
    - now intros (n' & [= <-] & H).
    - discriminate.
    - now intros (n' & [=] & _). }
  rewrite !Hc.
  assert (match GetLocalFolder t with
          | Some l => String.eqb l expectedLocalFolder
          | None => false
          end = true <-> GetLocalFolder t = Some expectedLocalFolder) as Hl.
  { destruct (GetLocalFolder t) as [l|]; [|easy].
    rewrite String.eqb_eq. split; congruence. }
  assert (match Toml.value_bool conv (t !! "isBaseGameInstance") with
          | Some b => negb b
          | None => false
          end = true <->
          Toml.value_bool conv (t !! "isBaseGameInstance") = Some false) as Hb.
  { destruct (Toml.value_bool conv (t !! "isBaseGameInstance")) as [[|]|]; easy. }
  rewrite Hl, Hb. tauto.
Qed.

Lemma IsEnderalIn_installed (t : table) (expectedLocalFolder path : string) :
  Toml.value_string (t !! "path") = Some path -> path <> "" ->
  fs_exists fs path = Some true ->
  IsEnderalIn conv fs t expectedLocalFolder = exists_ fs (path // "Enderal Launcher.exe").
Proof.
  intros Hp Hne Hex. unfold IsEnderalIn, exists_ at 1. cbv zeta. rewrite Hp.
  apply String.eqb_neq in Hne. now rewrite Hne, Hex.
Qed.

Lemma IsEnderalIn_heuristic (t : table) (expectedLocalFolder : string) :
  (forall path : string,
      Toml.value_string (t !! "path") = Some path ->
      path = "" \/ fs_exists fs path = Some false) ->
  IsEnderalIn conv fs t expectedLocalFolder =
  Done (enderalHeuristics conv t expectedLocalFolder).
Proof.
  intros Hno. unfold IsEnderalIn, exists_. cbv zeta.
  destruct (Toml.value_string (t !! "path")) as [path|]; [|reflexivity].
  destruct (Hno path eq_refl) as [-> | Hex]; [reflexivity|].
  rewrite Hex. now destruct (negb _).
Qed.

(** X7: Enderal classification of a raw game entry.  With a non-empty
    install path that exists on disk, [IsEnderal] and [IsEnderalSE] both
    give what the query for Enderal Launcher.exe under that path gives.
    With no install path, an empty one, or one that does not exist, both
    return, and each is true exactly when the local folder of the entry is
    its expected one (enderal, or Enderal Special Edition), or the name or
    the folder contains enderal in any letter case, or isBaseGameInstance is
    retrieved as false.  The two classifiers can only disagree on an entry
    whose local folder is one of the two expected folders. *)
Theorem IsEnderal_classification (t : table) :
  (forall path : string,
      Toml.value_string (t !! "path") = Some path -> path <> "" ->
      fs_exists fs path = Some true ->
      IsEnderal conv fs t = exists_ fs (path // "Enderal Launcher.exe") /\
      IsEnderalSE conv fs t = exists_ fs (path // "Enderal Launcher.exe")) /\
  ((forall path : string,
       Toml.value_string (t !! "path") = Some path ->
       path = "" \/ fs_exists fs path = Some false) ->
   (exists b b' : bool, IsEnderal conv fs t = Done b /\ IsEnderalSE conv fs t = Done b') /\
   (IsEnderal conv fs t = Done true <->
    GetLocalFolder t = Some "enderal" \/
    (exists name, Toml.value_string (t !! "name") = Some name /\
                  Text.contains_ignoring_case name "enderal") \/
    (exists folder, Toml.value_string (t !! "folder") = Some folder /\
                    Text.contains_ignoring_case folder "enderal") \/
    Toml.value_bool conv (t !! "isBaseGameInstance") = Some false) /\
   (IsEnderalSE conv fs t = Done true <->
    GetLocalFolder t = Some "Enderal Special Edition" \/
    (exists name, Toml.value_string (t !! "name") = Some name /\
                  Text.contains_ignoring_case name "enderal") \/
    (exists folder, Toml.value_string (t !! "folder") = Some folder /\
                    Text.contains_ignoring_case folder "enderal") \/
    Toml.value_bool conv (t !! "isBaseGameInstance") = Some false)) /\
  (IsEnderal conv fs t <> IsEnderalSE conv fs t ->
   GetLocalFolder t = Some "enderal" \/
   GetLocalFolder t = Some "Enderal Special Edition").
Proof.
  split; [|split].
  - intros path Hp Hne Hex. unfold IsEnderal, IsEnderalSE.
    now rewrite !(IsEnderalIn_installed t _ path Hp Hne Hex).
  - intros Hno. unfold IsEnderal, IsEnderalSE.
    rewrite !(IsEnderalIn_heuristic t _ Hno). split; [eauto|].
    rewrite <- !enderalHeuristics_spec. split; split; congruence.
  - unfold IsEnderal, IsEnderalSE, IsEnderalIn, enderalHeuristics. cbv zeta.
    intros Hd.
    destruct (GetLocalFolder t) as [l|].
    + destruct (String.eqb l "enderal") eqn:E1;
        [apply String.eqb_eq in E1; subst l; now left|].
      destruct (String.eqb l "Enderal Special Edition") eqn:E2;
        [apply String.eqb_eq in E2; subst l; now right|].
      exfalso. apply Hd. reflexivity.
    + exfalso. apply Hd. reflexivity.
Qed.

Lemma filename_no_slash (p : string) : Text.no_slash (Path.filename p) = true.
Proof.
  induction p as [|c p IH]; [reflexivity|]. cbn [Path.filename].
  destruct (Text.no_slash (String c p)) eqn:E; [exact E | exact IH].
Qed.

Lemma filename_suffix (p : string) :
  exists dir : string,
    p = dir +:+ Path.filename p /\ (dir = "" \/ Text.ends_with dir "/" = true).
Proof.
  induction p as [|c p IH]; [exists ""; split; [reflexivity | now left]|].
  cbn [Path.filename].
  destruct (Text.no_slash (String c p)) eqn:E;
    [exists ""; split; [reflexivity | now left]|].
  destruct IH as (dir & Hp & Hd). exists (String c dir). split.
  - simpl. now rewrite <- Hp.
  - right. destruct Hd as [-> | Hd].
    + pose proof (filename_no_slash p) as Hn. simpl in Hp. rewrite <- Hp in Hn.
      simpl in E. rewrite Hn, andb_true_r in E.
      apply negb_false_iff, TextFacts.is_slash_true in E. now subst c.
    + cbn [Text.ends_with]. rewrite Hd. apply orb_true_r.
Qed.

(** X8: the local folder of an entry.  A local_folder key wins over a
    local_path key; without it the folder is the last component of
    local_path: what follows its last separator, free of separators; and
    there is no local folder exactly when both keys are absent (or not
    strings). *)
Theorem GetLocalFolder_precedence (t : table) :
  (forall folder : string,
      Toml.value_string (t !! "local_folder") = Some folder ->
      GetLocalFolder t = Some folder) /\
  (forall path : string,
      Toml.value_string (t !! "local_folder") = None ->
      Toml.value_string (t !! "local_path") = Some path ->
      exists name dir : string,
        GetLocalFolder t = Some name /\ path = dir +:+ name /\
        Text.no_slash name = true /\ (dir = "" \/ Text.ends_with dir "/" = true)) /\
  (GetLocalFolder t = None <->
   Toml.value_string (t !! "local_folder") = None /\
   Toml.value_string (t !! "local_path") = None).
Proof.
  unfold GetLocalFolder. cbv zeta. split; [|split].
  - intros folder ->. reflexivity.
  - intros path -> ->. destruct (filename_suffix path) as (dir & Hp & Hd).
    exists (Path.filename path), dir. repeat split; try assumption.
    apply filename_no_slash.
  - destruct (Toml.value_string (t !! "local_folder")),
             (Toml.value_string (t !! "local_path")); split; intros H; try easy;
      destruct H; easy.
Qed.

End ClassifierFacts.

(** ** More on settings resolution *)

Section SettingsMore.

Context {double float : Type}.
Variable catalog : GameCatalog float.
Variable conv : Toml.Conversions double.
Variable narrow : double -> float.
Variable fs : FileSystem.

Local Abbreviation table := (gmap string (Toml.node double)).

(** The class of the identity that the chain of comparisons gives does not
    depend on what the classifiers answer. *)
Lemma declaredGameId_class
    (catalog' : GameCatalog float) (conv' : Toml.Conversions double) (fs' : FileSystem)
    (t t' : table) (gameType : string) (g g' : GameId.t) :
  fst (declaredGameId catalog conv fs t gameType) = Done g ->
  fst (declaredGameId catalog' conv' fs' t' gameType) = Done g' ->
  GetGameType g = GetGameType g'.
Proof.
  unfold declaredGameId, quiet, M_bind, M_ret, throw.
  repeat match goal with
         | |- context [String.eqb gameType ?x] =>
             destruct (String.eqb gameType x); cbn [orb]; cbv iota
         end;
    cbn [fst snd];
    repeat match goal with
           | |- context [match ?o with Done _ => _ | Thrown _ => _ | Undefined => _ end] =>
               destruct o as [[|]|?|]
           end;
    cbn [fst snd]; intros E E'; try discriminate E; try discriminate E';
    injection E as <-; injection E' as <-; reflexivity.
Qed.

Lemma entryType_Some (catalog0 : GameCatalog float) (conv0 : Toml.Conversions double)
    (fs0 : FileSystem) (t : table) (ty : GameType.t) :
  entryType catalog0 conv0 fs0 (Toml.Table t) = Some ty ->
  exists gameType g,
    Toml.value_string (t !! "gameId") = Some gameType /\
    fst (declaredGameId catalog0 conv0 fs0 t gameType) = Done g /\
    is_Some (Toml.value_string (t !! "folder")) /\
    ty = GetGameType g.
Proof.
  rewrite entryType_table. unfold candidate, M_bind, M_ret, throw. cbv zeta.
  destruct (Toml.value_string (t !! "gameId")) as [gameType|]; cbn [fst snd];
    [|discriminate].
  destruct (fst (declaredGameId catalog0 conv0 fs0 t gameType)) as [g|e|] eqn:Hg;
    cbn [fst snd]; try discriminate.
  destruct (Toml.value_string (t !! "folder")) as [folder|]; cbn [fst snd];
    [|discriminate].
  intros [= <-]. exists gameType, g. eauto.
Qed.

(** X9: the engine-type class of an entry, when it has one, is fixed by its
    gameId string alone: the variant heuristics, the disk, the number
    conversions and the catalogue tables never change which requested games
    an entry can match.  The disk can only take the class away, by a query
    of a classifier that fails: two entries with the same gameId, a folder
    and no install path have the same class, or both none; and an entry
    with a recognised gameId and a folder that has no class is one for which
    the chain of comparisons ends in the error of a disk query. *)
Theorem class_from_declared_type
    (catalog' : GameCatalog float) (conv' : Toml.Conversions double) (fs' : FileSystem)
    (t t' : table) :
  Toml.value_string (t !! "gameId") = Toml.value_string (t' !! "gameId") ->
  (forall ty ty' : GameType.t,
      entryType catalog conv fs (Toml.Table t) = Some ty ->
      entryType catalog' conv' fs' (Toml.Table t') = Some ty' ->
      ty = ty') /\
  (is_Some (Toml.value_string (t !! "folder")) ->
   is_Some (Toml.value_string (t' !! "folder")) ->
   Toml.value_string (t !! "path") = None ->
   Toml.value_string (t' !! "path") = None ->
   entryType catalog conv fs (Toml.Table t) = entryType catalog' conv' fs' (Toml.Table t')) /\
  (forall gameType : string,
      Toml.value_string (t !! "gameId") = Some gameType ->
      gameType ∈ declaredTypes ->
      is_Some (Toml.value_string (t !! "folder")) ->
      entryType catalog conv fs (Toml.Table t) = None ->
      exists path,
        declaredGameId catalog conv fs t gameType = (Thrown (FilesystemError path), [])).
Proof.
  intros Hid. split; [|split].
  - intros ty ty' H H'.
    apply entryType_Some in H as (gameType & g & Hg & Hd & _ & ->).
    apply entryType_Some in H' as (gameType' & g' & Hg' & Hd' & _ & ->).
    assert (gameType' = gameType) as -> by congruence.
    exact (declaredGameId_class catalog' conv' fs' t t' gameType g g' Hd Hd').
  - intros [f Hf] [f' Hf'] Hp Hp'. rewrite !entryType_table.
    unfold candidate, M_bind, M_ret, throw. cbv zeta. rewrite <- Hid, Hf, Hf'.
    destruct (Toml.value_string (t !! "gameId")) as [gameType|]; [|reflexivity].
    cbn [fst snd].
    unfold declaredGameId, IsNehrim, IsEnderal, IsEnderalSE, IsEnderalIn, quiet,
      M_bind, M_ret, throw.
    cbv zeta. rewrite Hp, Hp'.
    repeat match goal with
           | |- context [String.eqb gameType ?x] =>
               destruct (String.eqb gameType x); cbn [orb]; cbv iota
           end; cbn [fst snd]; try reflexivity;
      repeat match goal with
             | |- context [if ?b then _ else _] => destruct b
             end; reflexivity.
  - intros gameType Hg Hin [f Hf] Hnone.
    destruct (declaredGameId_recognised catalog conv fs t gameType Hin)
      as [(g & E) | (path & E)]; [|now exists path].
    exfalso. revert Hnone. rewrite entryType_table.
    unfold candidate, M_bind, M_ret, throw. cbv zeta. rewrite Hg, Hf. cbn [fst snd].
    rewrite E. discriminate.
Qed.

(** The scan never ends in an exception, and it keeps the engine-type
    class of the profile. *)
Lemma scanGames_outcome (m : GameSettings float) (games : list (Toml.node double)) :
  (forall e, fst (scanGames catalog conv narrow fs m games) <> Thrown e) /\
  (forall s, fst (scanGames catalog conv narrow fs m games) = Done s -> type_ s = type_ m).
Proof.
  induction games as [|game rest [IH1 IH2]]; [split; [discriminate | now intros s [= <-]]|].
  cbn [scanGames].
  destruct (fst (tryGame catalog conv narrow fs m game)) as [[s'|]|e|] eqn:E; cbn [fst].
  - split; [discriminate|]. intros s [= <-].
    now apply (accepted_class catalog conv narrow fs m s' game).
  - now split.
  - now split.
  - split; discriminate.
Qed.

Lemma getSettings_outcome (w : Worker float) (settings : table) :
  fst (getSettings catalog conv narrow fs w (Parsed settings)) =
  match fst (if Toml.is_array_of_tables (settings !! "games")
             then scanGames catalog conv narrow fs (m_GameSettings w)
                    (Toml.as_array (settings !! "games"))
             else M_ret (m_GameSettings w)) with
  | Done resolved =>
      Done {| m_GameId := m_GameId w;
              m_Language :=
                if String.eqb (m_Language w) ""
                then Toml.value_or (settings !! "language") DEFAULT_LANGUAGE
                else m_Language w;
              m_GamePath := m_GamePath w; m_GameSettings := resolved |}
  | Thrown e => Thrown e
  | Undefined => Undefined
  end.
Proof. now rewrite getSettings_parsed. Qed.

(** What a returning [getSettings] has read, and what it leaves in the
    worker. *)
Lemma getSettings_done (w w' : Worker float) (file : SettingsFile double) :
  fst (getSettings catalog conv narrow fs w file) = Done w' ->
  exists settings : table,
    file = Parsed settings /\
    type_ (m_GameSettings w') = type_ (m_GameSettings w) /\
    m_GameId w' = m_GameId w /\ m_GamePath w' = m_GamePath w /\
    m_Language w' =
    if String.eqb (m_Language w) ""
    then match Toml.value_string (settings !! "language") with
         | Some language => language
         | None => DEFAULT_LANGUAGE
         end
    else m_Language w.
Proof.
  destruct file as [|what|settings]; [discriminate | discriminate |].
  rewrite getSettings_outcome. intros H. exists settings. split; [reflexivity|].
  revert H. destruct (Toml.is_array_of_tables (settings !! "games")).
  - destruct (scanGames_outcome (m_GameSettings w) (Toml.as_array (settings !! "games")))
      as [H1 H2].
    destruct (fst (scanGames _ _ _ _ _ _)) as [s|e|]; try discriminate.
    intros [= <-]. cbn. repeat split. now apply H2.
  - cbn [fst M_ret]. intros [= <-]. cbn. auto.
Qed.

(** X10: what [getSettings] throws and what it keeps.  It ends in an
    exception exactly when the settings file cannot be opened or does not
    parse, with the error of that step; what an entry of the games array
    throws is caught.  When it returns, the file has been parsed, the
    profile is still of the engine-type class asked for, the requested
    identity and the game path of the worker are untouched, and the
    language is the one given before if there was one, else the string under
    the language key, else the default language. *)
Theorem getSettings_invariants (w : Worker float) (file : SettingsFile double) :
  (forall e,
      fst (getSettings catalog conv narrow fs w file) = Thrown e <->
      (file = CannotOpen /\ e = CouldNotBeOpened) \/
      (exists what, file = Malformed what /\ e = ParseError what)) /\
  (forall w',
      fst (getSettings catalog conv narrow fs w file) = Done w' ->
      exists settings : table,
        file = Parsed settings /\
        type_ (m_GameSettings w') = type_ (m_GameSettings w) /\
        m_GameId w' = m_GameId w /\ m_GamePath w' = m_GamePath w /\
        m_Language w' =
        if String.eqb (m_Language w) ""
        then match Toml.value_string (settings !! "language") with
             | Some language => language
             | None => DEFAULT_LANGUAGE
             end
        else m_Language w).
Proof.
  split; [|intros w'; apply getSettings_done].
  intros e. destruct file as [|what|settings].
  - split.
    + intros [= <-]. now left.
    + intros [[_ ->] | (what & [=] & _)]. reflexivity.
  - split.
    + intros [= <-]. right. now exists what.
    + intros [[[=] _] | (what' & [= <-] & ->)]. reflexivity.
  - rewrite getSettings_outcome. split.
    + destruct (Toml.is_array_of_tables (settings !! "games")); [|discriminate].
      destruct (scanGames_outcome (m_GameSettings w) (Toml.as_array (settings !! "games")))
        as [H1 _].
      destruct (fst (scanGames _ _ _ _ _ _)) as [s|e'|];
        [discriminate | now destruct (H1 e') | discriminate].
    + intros [[[=] _] | (what & [=] & _)].
Qed.

(** The overrides run into undefined behaviour only through the source
    statement. *)
Lemma mergeOverrides_undefined (t : table) (c : GameSettings float) :
  fst (mergeOverrides catalog conv narrow fs t c) = Undefined ->
  Toml.value_string (t !! "masterlistSource") = None /\
  (Toml.value_string (t !! "repo") = None \/ Toml.value_string (t !! "branch") = None).
Proof.
  intros H.
  assert (forall g, fst (resolveSource fs t g) = Undefined ->
                    Toml.value_string (t !! "masterlistSource") = None /\
                    (Toml.value_string (t !! "repo") = None \/
                     Toml.value_string (t !! "branch") = None)) as Hsrc.
  { intros g Hg.
    destruct (Toml.value_string (t !! "masterlistSource")) as [src|] eqn:Hs.
    - exfalso. apply (resolveSource_keys fs t g); [left; rewrite Hs; eauto | exact Hg].
    - split; [reflexivity|].
      destruct (Toml.value_string (t !! "repo")) as [url|] eqn:Hu; [|now left].
      destruct (Toml.value_string (t !! "branch")) as [branch|] eqn:Hb; [|now right].
      exfalso. apply (resolveSource_keys fs t g); [|exact Hg].
      right. rewrite Hu, Hb. eauto. }
  revert H. unfold mergeOverrides, M_bind. cbv zeta.
  destruct (Toml.value_string (t !! "name")),
           (Toml.value_string (t !! "master")),
           (Toml.value_double conv (t !! "minimumHeaderVersion"));
    cbn [id_ SetName SetMaster SetMinimumHeaderVersion];
    destruct (fst (resolveSource fs t (id_ c))) as [[src|]|e|] eqn:Hr;
    try (intros _; now apply (Hsrc (id_ c)));
    cbn [fst snd M_ret throw];
    destruct (Toml.value_string (t !! "path")),
             (Toml.value_string (t !! "local_path")),
             (Toml.value_string (t !! "local_folder")); discriminate.
Qed.

(** X11: the only undefined behaviour of [getSettings] is the unchecked
    dereference of the legacy keys: if it does not return, the settings
    file has been parsed and its games array holds an entry of the requested
    engine-type class that has no masterlistSource and lacks repo or
    branch. *)
Theorem getSettings_undefined_only_by_missing_key
    (w : Worker float) (file : SettingsFile double) :
  fst (getSettings catalog conv narrow fs w file) = Undefined ->
  exists (settings t : table),
    file = Parsed settings /\
    Toml.Table t ∈ Toml.as_array (settings !! "games") /\
    entryType catalog conv fs (Toml.Table t) = Some (type_ (m_GameSettings w)) /\
    Toml.value_string (t !! "masterlistSource") = None /\
    (Toml.value_string (t !! "repo") = None \/ Toml.value_string (t !! "branch") = None).
Proof.
  destruct file as [|what|settings]; [discriminate | discriminate |].
  rewrite getSettings_outcome. intros H.
  cut (exists t : table,
          Toml.Table t ∈ Toml.as_array (settings !! "games") /\
          entryType catalog conv fs (Toml.Table t) = Some (type_ (m_GameSettings w)) /\
          Toml.value_string (t !! "masterlistSource") = None /\
          (Toml.value_string (t !! "repo") = None \/
           Toml.value_string (t !! "branch") = None)).
  { intros (t & Ht). exists settings, t. auto. }
  revert H.
  destruct (Toml.is_array_of_tables (settings !! "games")); [|discriminate].
  generalize (Toml.as_array (settings !! "games")). intros games.
  destruct (fst (scanGames catalog conv narrow fs (m_GameSettings w) games)) eqn:E;
    try discriminate. intros _.
  induction games as [|game rest IH]; [discriminate|].
  cbn [scanGames] in E.
  destruct (fst (tryGame catalog conv narrow fs (m_GameSettings w) game))
    as [[s'|]|e|] eqn:Et; cbn [fst] in E; try discriminate.
  - destruct (IH E) as (t & Hin & H). exists t. split; [now right | exact H].
  - destruct (IH E) as (t & Hin & H). exists t. split; [now right | exact H].
  - destruct game as [| | | | | |t]; try discriminate Et.
    rewrite tryGame_table in Et. exists t. split; [now left|].
    rewrite entryType_table.
    destruct (fst (candidate catalog conv fs t)) as [c|e|] eqn:Ec.
    + case_bool_decide as Hty.
      * destruct (fst (mergeOverrides catalog conv narrow fs t c)) eqn:Em;
          try discriminate.
        split; [now rewrite Hty|]. now apply (mergeOverrides_undefined t c).
      * discriminate.
    + discriminate.
    + destruct (candidate_cases catalog conv fs t) as [(e & Hc & _) | (c & Hc & _)];
        rewrite Hc in Ec; discriminate.
Qed.

(** X12: the profile a run hands to the sorter.  Whatever the settings file
    holds, when the resolution returns the game path of the profile is the
    one of the command line (a path key of the settings file never
    survives), the engine-type class is that of the requested game, and the
    requested identity is unchanged. *)
Theorem runSettings_command_line_path
    (w w' : Worker float) (settings : string) (file : SettingsFile double) :
  fst (runSettings catalog conv narrow fs w settings file) = Done w' ->
  gamePath_ (m_GameSettings w') = m_GamePath w /\
  type_ (m_GameSettings w') = GetGameType (m_GameId w) /\
  m_GameId w' = m_GameId w.
Proof.
  unfold runSettings, M_bind, quiet, exists_, query. cbv zeta. cbn [fst snd].
  destruct (fs_exists fs settings) as [[|]|]; cbn [fst snd]; [| |discriminate].
  - match goal with
    | |- context [getSettings catalog conv narrow fs ?w0 file] =>
        pose proof (fun w1 => getSettings_done w0 w1 file) as Hinv;
        destruct (fst (getSettings catalog conv narrow fs w0 file)) as [w1| |];
        try discriminate;
        destruct (Hinv w1 eq_refl) as (configuration & _ & Hty & Hid & Hp & _)
    end.
    cbn [fst snd M_ret]. intros [= <-]. cbn in *. now rewrite Hp, Hty, Hid.
  - cbn [fst snd M_ret]. intros [= <-]. cbn. auto.
Qed.

(** X13: a games key that does not hold an array of tables switches the
    scan off altogether.  If the key is absent, is no array, is an empty
    array, or is an array with an element that is no table (next to
    whatever tables), [getSettings] leaves the profile as it was, resolves
    the language, and logs nothing. *)
Theorem games_not_array_of_tables (w : Worker float) (settings : table) :
  (forall elements : list (Toml.node double),
      settings !! "games" = Some (Toml.Array elements) ->
      elements = [] \/ exists e, e ∈ elements /\ Toml.is_table e = false) ->
  getSettings catalog conv narrow fs w (Parsed settings) =
  (Done {| m_GameId := m_GameId w;
           m_Language :=
             if String.eqb (m_Language w) ""
             then Toml.value_or (settings !! "language") DEFAULT_LANGUAGE
             else m_Language w;
           m_GamePath := m_GamePath w; m_GameSettings := m_GameSettings w |}, []).
Proof.
  intros H.
  assert (Toml.is_array_of_tables (settings !! "games") = false) as Hn.
  { unfold Toml.is_array_of_tables.
    destruct (settings !! "games") as [[| | | | |elements|]|]; try reflexivity.
    destruct elements as [|e es]; [reflexivity|].
    destruct (H (e :: es) eq_refl) as [? | (x & Hx & Hnt)]; [discriminate|].
    apply not_true_is_false. intros Hall.
    rewrite forallb_forall in Hall. apply list_elem_of_In in Hx.
    rewrite (Hall x Hx) in Hnt. discriminate. }
  rewrite getSettings_parsed. cbv zeta. now rewrite Hn.
Qed.

Lemma candidate_shape (t : table) (c : GameSettings float) :
  fst (candidate catalog conv fs t) = Done c ->
  exists gameId folder, c = newGameSettings catalog gameId folder.
Proof.
  unfold candidate, M_bind, M_ret, throw. cbv zeta.
  destruct (Toml.value_string (t !! "gameId")) as [gameType|]; cbn [fst snd];
    [|discriminate].
  destruct (declaredGameId_cases catalog conv fs t gameType)
    as [-> | [(path & ->) | (gameId & -> & _)]];
    cbn [fst snd]; [discriminate | discriminate |].
  destruct (Toml.value_string (t !! "folder")) as [folder|]; cbn [fst snd];
    [|discriminate].
  intros [= <-]. eauto.
Qed.

(** X14: round trip with the catalogue defaults.  An entry of the requested
    class whose overrides, where present, repeat the values of its
    candidate (name, master, minimum header version, game path, local
    path), whose masterlistSource is the default URL of the candidate, and
    which has no local_folder, is accepted with the candidate itself: the
    catalogue defaults for its identity and folder; nothing is logged. *)
Theorem defaults_round_trip (m c : GameSettings float) (t : table) :
  fst (candidate catalog conv fs t) = Done c ->
  type_ c = type_ m ->
  Toml.value_string (t !! "masterlistSource") = Some (masterlistSource_ c) ->
  (forall n, Toml.value_string (t !! "name") = Some n -> n = name_ c) ->
  (forall f, Toml.value_string (t !! "master") = Some f -> f = masterFile_ c) ->
  (forall v, Toml.value_double conv (t !! "minimumHeaderVersion") = Some v ->
             narrow v = minimumHeaderVersion_ c) ->
  (forall p, Toml.value_string (t !! "path") = Some p -> p = gamePath_ c) ->
  (forall p, Toml.value_string (t !! "local_path") = Some p -> p = gameLocalPath_ c) ->
  Toml.value_string (t !! "local_folder") = None ->
  tryGame catalog conv narrow fs m (Toml.Table t) = (Done (Some c), []).
Proof.
  intros Hc Hty Hsrc Hn Hm Hv Hp Hlp Hlf.
  destruct (candidate_cases catalog conv fs t) as [(e & Hc' & _) | (c' & Hc' & _)];
    rewrite Hc' in Hc; [discriminate|]. injection Hc as ->.
  assert (mergeOverrides catalog conv narrow fs t c = (Done c, [])) as Hmerge.
  { assert (migrateMasterlistSource (masterlistSource_ c) = (masterlistSource_ c, []))
      as Hfix.
    { destruct (candidate_shape t c) as (gameId & folder & ->); [now rewrite Hc'|].
      apply migrateMasterlistSource_miss. intros R B _ HB.
      now apply default_url_not_legacy. }
    unfold mergeOverrides, resolveSource, M_bind. cbv zeta. rewrite Hsrc, Hlf.
    unfold lift. rewrite Hfix. cbn [fst snd M_ret app].
    destruct (Toml.value_string (t !! "name")) as [n|];
      [rewrite (Hn n eq_refl)|];
      (destruct (Toml.value_string (t !! "master")) as [f|];
       [rewrite (Hm f eq_refl)|]);
      (destruct (Toml.value_double conv (t !! "minimumHeaderVersion")) as [v|];
       [rewrite (Hv v eq_refl)|]);
      (destruct (Toml.value_string (t !! "path")) as [p|];
       [rewrite (Hp p eq_refl)|]);
      (destruct (Toml.value_string (t !! "local_path")) as [lp|];
       [rewrite (Hlp lp eq_refl)|]);
      destruct c; reflexivity. }
  rewrite tryGame_table, Hc'. cbn [fst snd].
  rewrite bool_decide_eq_true_2 by assumption. now rewrite Hmerge.
Qed.

End SettingsMore.

Lemma class_from_declared_type_witness :
  entryType Sample.catalog Sample.conv Sample.emptyDisk (Toml.Table Sample.nehrimFields) =
  entryType Sample.catalog Sample.conv Sample.cloneDisk
    (Toml.Table (list_to_map [("gameId", Toml.String_ "Oblivion");
                              ("folder", Toml.String_ "Elsewhere");
                              ("path", Toml.String_ "/repo")])).
Proof.
  assert (entryType Sample.catalog Sample.conv Sample.emptyDisk
            (Toml.Table Sample.nehrimFields) = Some GameType.tes4) as E
      by (vm_compute; reflexivity).
  assert (entryType Sample.catalog Sample.conv Sample.cloneDisk
            (Toml.Table (list_to_map [("gameId", Toml.String_ "Oblivion");
                                      ("folder", Toml.String_ "Elsewhere");
                                      ("path", Toml.String_ "/repo")])) =
          Some GameType.tes4) as E'
      by (vm_compute; reflexivity).
  rewrite E, E'. apply (f_equal Some).
  refine (proj1 (class_from_declared_type Sample.catalog Sample.conv Sample.emptyDisk
                   Sample.catalog Sample.conv Sample.cloneDisk
                   Sample.nehrimFields
                   (list_to_map [("gameId", Toml.String_ "Oblivion");
                                 ("folder", Toml.String_ "Elsewhere");
                                 ("path", Toml.String_ "/repo")]) _) _ _ E E').
  vm_compute. reflexivity.
Defined.

Lemma getSettings_undefined_only_by_missing_key_witness :
  exists settings t : gmap string (Toml.node Z),
    Parsed (list_to_map [("games", Toml.Array [Sample.oblivionEntry;
                                               Toml.Table Sample.bareFields])]) =
    Parsed settings /\
    Toml.Table t ∈ Toml.as_array (settings !! "games") /\
    entryType Sample.catalog Sample.conv Sample.emptyDisk (Toml.Table t) =
    Some (type_ (m_GameSettings (Sample.worker GameId.tes3))) /\
    Toml.value_string (t !! "masterlistSource") = None /\
    (Toml.value_string (t !! "repo") = None \/ Toml.value_string (t !! "branch") = None).
Proof.
  apply (getSettings_undefined_only_by_missing_key Sample.catalog Sample.conv
           Sample.narrow Sample.emptyDisk (Sample.worker GameId.tes3)).
  vm_compute. reflexivity.
Defined.

Lemma runSettings_command_line_path_witness :
  exists w',
    fst (runSettings Sample.catalog Sample.conv Sample.narrow Sample.cloneDisk
           (Sample.worker GameId.tes4) "/repo"
           (Parsed (list_to_map
                      [("games",
                        Toml.Array
                          [Sample.entry
                             [("gameId", Toml.String_ "Oblivion");
                              ("folder", Toml.String_ "Oblivion");
                              ("masterlistSource", Toml.String_ "/lists/oblivion.yaml");
                              ("path", Toml.String_ "/from/settings")]])]))) = Done w' /\
    gamePath_ (m_GameSettings w') = "/games/current".
Proof.
  eexists. split.
  - vm_compute. reflexivity.
  - refine (proj1 (runSettings_command_line_path Sample.catalog Sample.conv Sample.narrow
                     Sample.cloneDisk (Sample.worker GameId.tes4) _ "/repo"
                     (Parsed (list_to_map
                                [("games",
                                  Toml.Array
                                    [Sample.entry
                                       [("gameId", Toml.String_ "Oblivion");
                                        ("folder", Toml.String_ "Oblivion");
                                        ("masterlistSource",
                                         Toml.String_ "/lists/oblivion.yaml");
                                        ("path", Toml.String_ "/from/settings")]])])) _)).
    vm_compute. reflexivity.
Defined.

Lemma games_not_array_of_tables_witness :
  getSettings Sample.catalog Sample.conv Sample.narrow Sample.emptyDisk
    (Sample.worker GameId.tes4)
    (Parsed (list_to_map [("games", Toml.Array [Sample.oblivionEntry; Toml.Integer 3]);
                          ("language", Toml.String_ "de")])) =
  (Done {| m_GameId := GameId.tes4; m_Language := "de"; m_GamePath := "/games/current";
           m_GameSettings := newGameSettings Sample.catalog GameId.tes4 "Oblivion" |}, []).
Proof.
  apply (games_not_array_of_tables Sample.catalog Sample.conv Sample.narrow
           Sample.emptyDisk (Sample.worker GameId.tes4)).
  intros elements H. vm_compute in H. injection H as <-.
  right. exists (Toml.Integer 3). split; [in_list | reflexivity].
Defined.

Lemma defaults_round_trip_witness :
  tryGame Sample.catalog Sample.conv Sample.narrow Sample.emptyDisk
    (m_GameSettings (Sample.worker GameId.tes3))
    (Toml.Table
       (list_to_map
          [("gameId", Toml.String_ "Morrowind"); ("folder", Toml.String_ "Morrowind");
           ("name", Toml.String_ "TES III: Morrowind");
           ("masterlistSource",
            Toml.String_
              "https://raw.githubusercontent.com/loot/morrowind/v0.23/masterlist.yaml")])) =
  (Done (Some (newGameSettings Sample.catalog GameId.tes3 "Morrowind")), []).
Proof.
  apply defaults_round_trip; try reflexivity;
    intros x H; vm_compute in H; try discriminate H.
  now injection H as <-.
Defined.

(** ** The requested game *)

Lemma tolower_idempotent (c : ascii) : Text.tolower (Text.tolower c) = Text.tolower c.
Proof. destruct c as [[] [] [] [] [] [] [] []]; reflexivity. Qed.

Lemma ToLower_idempotent (s : string) : ToLower (ToLower s) = ToLower s.
Proof.
  induction s as [|c s IH]; [reflexivity|]. cbn [ToLower].
  now rewrite tolower_idempotent, IH.
Qed.

(** X15: [setGame] looks only at the lower-cased name.  Two names with the
    same lower-casing get the same identity or are both refused; a name is
    accepted exactly when its lower-casing is one of the thirteen keys of
    the table, with the identity listed there; a refused name is thrown
    back as it was given. *)
Theorem setGame_ignores_case :
  (forall (a b : string) (g : GameId.t),
      ToLower a = ToLower b -> setGame a = Done g -> setGame b = Done g) /\
  (forall (s : string) (g : GameId.t),
      setGame s = Done g <-> setGame (ToLower s) = Done g) /\
  (forall (s : string) (g : GameId.t),
      setGame s = Done g <->
      (ToLower s, g) ∈
        [ ("morrowind", GameId.tes3); ("oblivion", GameId.tes4);
          ("fallout3", GameId.fo3); ("fallout4", GameId.fo4);
          ("fallout4vr", GameId.fo4vr); ("falloutnv", GameId.fonv);
          ("skyrim", GameId.tes5); ("skyrimse", GameId.tes5se);
          ("skyrimvr", GameId.tes5vr); ("nehrim", GameId.nehrim);
          ("enderal", GameId.enderal); ("enderalse", GameId.enderalse);
          ("starfield", GameId.starfield) ]) /\
  (forall s : string,
      (exists g, setGame s = Done g) \/ setGame s = Thrown (InvalidGameName s)).
Proof.
  assert (forall s g, setGame s = Done g <-> gameMap !! ToLower s = Some g) as Hset.
  { intros s g. unfold setGame. destruct (gameMap !! ToLower s); split; congruence. }
  split; [|split; [|split]].
  - intros a b g E. rewrite !Hset. now rewrite E.
  - intros s g. rewrite !Hset. now rewrite ToLower_idempotent.
  - intros s g. rewrite Hset. unfold gameMap. symmetry.
    apply elem_of_list_to_map. cbn [fmap list_fmap fst].
    repeat (apply NoDup_cons; split;
            [rewrite ?elem_of_cons, elem_of_nil; intros H;
             repeat (destruct H as [H | H]; [discriminate H|]); exact H|]).
    apply NoDup_nil_2.
  - intros s. unfold setGame. destruct (gameMap !! ToLower s); eauto.
Qed.

(** ** Log lines *)

Lemma chars_app (a b : string) :
  list_ascii_of_string (a +:+ b) = (list_ascii_of_string a ++ list_ascii_of_string b)%list.
Proof. induction a as [|x a IH]; simpl; [reflexivity | now rewrite IH]. Qed.

Lemma replace_char_chars (c x : ascii) (by_ s : string) :
  x ∈ list_ascii_of_string (Text.replace_char c by_ s) ->
  x ∈ list_ascii_of_string by_ \/ (x ∈ list_ascii_of_string s /\ x <> c).
Proof.
  induction s as [|y s IH]; cbn [Text.replace_char list_ascii_of_string].
  - intros H. now apply elem_of_nil in H.
  - destruct (Ascii.eqb_spec y c) as [-> | Hne].
    + rewrite chars_app, elem_of_app. intros [H | H]; [now left|].
      destruct (IH H) as [? | [? ?]]; [now left|]. right. split; [now right | assumption].
    + cbn [list_ascii_of_string]. rewrite elem_of_cons. intros [-> | H].
      * right. split; [now left | assumption].
      * destruct (IH H) as [? | [? ?]]; [now left|]. right. split; [now right | assumption].
Qed.

Lemma replace_char_absent (c : ascii) (by_ s : string) :
  c ∉ list_ascii_of_string s -> Text.replace_char c by_ s = s.
Proof.
  induction s as [|y s IH]; [reflexivity|].
  cbn [Text.replace_char list_ascii_of_string]. rewrite not_elem_of_cons.
  intros [Hne H]. destruct (Ascii.eqb_spec y c) as [-> | _]; [congruence|].
  now rewrite IH.
Qed.

(** X16: a printed log line is one line.  Whatever the message, the text
    that [log] prints holds neither a line feed nor a carriage return, and a
    message without either is printed as it is. *)
Theorem log_line_is_single_line
    (m_LogLevel : LogLevel.t) (c : log_call) (level : LogLevels.t) (line : string) :
  (level, line) ∈ log m_LogLevel c ->
  ("010"%char ∉ list_ascii_of_string line) /\
  ("013"%char ∉ list_ascii_of_string line) /\
  level = fromLootLogLevel (call_level c) /\
  ("010"%char ∉ list_ascii_of_string (call_message c) ->
   "013"%char ∉ list_ascii_of_string (call_message c) ->
   line = call_message c).
Proof.
  unfold log. destruct (_ <? _)%nat; [intros H; now apply elem_of_nil in H|].
  intros H. apply list_elem_of_singleton in H. injection H as -> ->.
  unfold escapeNewlines. repeat split.
  - intros H. apply replace_char_chars in H as [H | [H _]].
    + cbn [list_ascii_of_string] in H.
      rewrite !elem_of_cons, elem_of_nil in H.
      repeat (destruct H as [H | H]; [discriminate H|]). exact H.
    + apply replace_char_chars in H as [H | [_ H]]; [|congruence].
      cbn [list_ascii_of_string] in H.
      rewrite !elem_of_cons, elem_of_nil in H.
      repeat (destruct H as [H | H]; [discriminate H|]). exact H.
  - intros H. apply replace_char_chars in H as [H | [_ H]]; [|congruence].
    cbn [list_ascii_of_string] in H.
    rewrite !elem_of_cons, elem_of_nil in H.
    repeat (destruct H as [H | H]; [discriminate H|]). exact H.
  - intros Hn Hr. rewrite (replace_char_absent "010"%char) by assumption.
    now rewrite replace_char_absent.
Qed.

Lemma log_line_is_single_line_witness :
  ("010"%char ∉ list_ascii_of_string
                  ("first" +:+ "\n" +:+ "second")) /\
  fromLootLogLevel LogLevel.fatal = LogLevels.Error.
Proof.
  destruct (log_line_is_single_line LogLevel.info
              (LogCall LogLevel.fatal
                 ("first" +:+ String "010"%char EmptyString +:+ "second"))
              LogLevels.Error ("first" +:+ "\n" +:+ "second"))
    as (H1 & _ & H2 & _).
  - vm_compute. apply list_elem_of_here.
  - split; [exact H1 | symmetry; exact H2].
Defined.

(** X17: log levels.  The two conversions are inverse to each other except
    that fatal comes back as error.  Lowering the minimum level never
    silences a call, and with a minimum level that comes from the command
    line a call at level error or fatal is always printed. *)
Theorem log_level_conversions :
  (forall level : LogLevels.t, fromLootLogLevel (toLootLogLevel level) = level) /\
  (forall level : LogLevel.t,
      toLootLogLevel (fromLootLogLevel level) =
      match level with LogLevel.fatal => LogLevel.error | _ => level end) /\
  (forall (m m' : LogLevel.t) (c : log_call),
      LogLevel.rank m' <= LogLevel.rank m -> log m c <> [] -> log m' c <> []) /\
  (forall (level : LogLevels.t) (c : log_call),
      call_level c = LogLevel.error \/ call_level c = LogLevel.fatal ->
      log (toLootLogLevel level) c <> []).
Proof.
  split; [|split; [|split]].
  - now intros [].
  - now intros [].
  - intros m m' c Hle. rewrite !log_prints. lia.
  - intros level c H. apply log_prints.
    destruct level, H as [-> | ->]; cbn; lia.
Qed.

(** ** Quoting *)

Lemma escape_cons (x : ascii) (s : string) :
  escape (String x s) =
  if Ascii.eqb x dquote then String backslash (String dquote (escape s))
  else String x (escape s).
Proof. unfold escape. cbn [Text.replace_char]. now destruct (Ascii.eqb x dquote). Qed.

Lemma escape_head (s r : string) : escape s <> String dquote r.
Proof.
  destruct s as [|x s]; [discriminate|]. rewrite escape_cons.
  destruct (Ascii.eqb_spec x dquote) as [-> | Hne]; [discriminate|].
  intros [= E _]. contradiction.
Qed.

(** Wherever a double quote stands in the escaped text, what comes before
    it ends with a backslash. *)
Lemma escape_quote_preceded (s pre post : string) :
  escape s = pre +:+ String dquote post ->
  exists pre' : string, pre = pre' +:+ String backslash "".
Proof.
  revert pre. induction s as [|x s IH]; intros pre E.
  - destruct pre; discriminate E.
  - rewrite escape_cons in E. destruct (Ascii.eqb_spec x dquote) as [-> | Hne].
    + destruct pre as [|p0 pre]; [discriminate E|]. injection E as <- E.
      destruct pre as [|p1 pre]; [now exists ""|]. injection E as <- E.
      destruct (IH pre E) as [pre' ->].
      now exists (String backslash (String dquote pre')).
    + destruct pre as [|p0 pre]; [injection E as E _; contradiction|].
      injection E as <- E. destruct (IH pre E) as [pre' ->].
      now exists (String x pre').
Qed.

(** X18: [escape] loses nothing: two strings with the same escaped text are
    the same string.  In the escaped text a backslash stands right before
    every double quote, at whatever position the quote is; so the text
    never begins with a quote.  A string without a double quote is left as
    it is. *)
Theorem escape_injective :
  (forall a b : string, escape a = escape b -> a = b) /\
  (forall s pre post : string,
      escape s = pre +:+ String dquote post ->
      exists pre' : string, pre = pre' +:+ String backslash "") /\
  (forall s r : string, escape s <> String dquote r) /\
  (forall s : string, dquote ∉ list_ascii_of_string s -> escape s = s).
Proof.
  split; [|split; [|split]].
  - induction a as [|x a IH]; intros [|y b] E.
    + reflexivity.
    + rewrite escape_cons in E. destruct (Ascii.eqb y dquote); discriminate E.
    + rewrite escape_cons in E. destruct (Ascii.eqb x dquote); discriminate E.
    + rewrite !escape_cons in E.
      destruct (Ascii.eqb_spec x dquote) as [-> | Hx],
               (Ascii.eqb_spec y dquote) as [-> | Hy].
      * injection E as E. f_equal. now apply IH.
      * injection E as _ E. symmetry in E. now apply escape_head in E.
      * injection E as _ E. now apply escape_head in E.
      * injection E as -> E. f_equal. now apply IH.
  - apply escape_quote_preceded.
  - apply escape_head.
  - intros s. apply replace_char_absent.
Qed.

(** ** Command-line parameters *)

Lemma find_from_spec (x : string) (arguments : list string) :
  (Cli.find_from x arguments = [] /\ x ∉ arguments) \/
  exists pre post,
    arguments = (pre ++ x :: post)%list /\ (x ∉ pre) /\
    Cli.find_from x arguments = x :: post.
Proof.
  induction arguments as [|a rest IH]; [left; split; [reflexivity | apply not_elem_of_nil]|].
  cbn [Cli.find_from]. destruct (String.eqb_spec a x) as [-> | Hne].
  - right. exists [], rest. repeat split. apply not_elem_of_nil.
  - destruct IH as [[E Hn] | (pre & post & -> & Hn & E)].
    + left. split; [exact E|]. apply not_elem_of_cons. split; congruence.
    + right. exists (a :: pre), post. repeat split; [|exact E].
      apply not_elem_of_cons. split; congruence.
Qed.

Lemma first_occurrence_unique (x : string) (pre pre' post post' : list string) :
  (pre ++ x :: post = pre' ++ x :: post')%list -> x ∉ pre -> x ∉ pre' ->
  pre = pre' /\ post = post'.
Proof.
  revert pre'. induction pre as [|a pre IH]; intros [|a' pre'] E H H'; cbn in E.
  - injection E as ->. auto.
  - injection E as <- _. destruct H'. now left.
  - injection E as -> _. destruct H. now left.
  - injection E as -> E. apply not_elem_of_cons in H as [_ H].
    apply not_elem_of_cons in H' as [_ H'].
    destruct (IH pre' E H H') as [-> ->]. auto.
Qed.

(** X19: command-line parameters.  [getParameter] returns the argument that
    follows the first occurrence of --key, whatever it is, and fails with
    "argument missing" exactly when --key does not occur or its first
    occurrence is the last argument.  The boolean variant is true exactly
    when --key occurs, and the optional variant returns the default exactly
    when [getParameter] fails. *)
Theorem getParameter_first_occurrence (arguments : list string) (key : string) :
  (forall value : string,
      Cli.getParameter arguments key = inr value <->
      exists pre post,
        arguments = (pre ++ ("--" +:+ key) :: value :: post)%list /\
        ("--" +:+ key) ∉ pre) /\
  (Cli.getParameter arguments key = inl (Cli.ArgumentMissing key) <->
   ("--" +:+ key) ∉ arguments \/
   exists pre, arguments = (pre ++ ["--" +:+ key])%list /\ ("--" +:+ key) ∉ pre) /\
  (Cli.getParameter_bool arguments key = true <-> ("--" +:+ key) ∈ arguments) /\
  (forall def : string,
      Cli.getOptionalParameter arguments key def =
      match Cli.getParameter arguments key with
      | inr value => value
      | inl _ => def
      end).
Proof.
  unfold Cli.getOptionalParameter, Cli.getParameter, Cli.getParameter_bool.
  destruct (find_from_spec ("--" +:+ key) arguments)
    as [[E Hn] | (pre & post & Ha & Hn & E)]; rewrite E.
  - split; [|split; [|split]]; try reflexivity.
    + intros value. split; [discriminate|].
      intros (pre & post & -> & _). destruct Hn. apply elem_of_app. right. now left.
    + split; [now left | reflexivity].
    + split; [discriminate | contradiction].
  - assert (("--" +:+ key) ∈ arguments) as Hin
        by (rewrite Ha; apply elem_of_app; right; now left).
    destruct post as [|value post].
    + split; [|split; [|split]]; try reflexivity.
      * intros value. split; [discriminate|].
        intros (pre' & post' & Ha' & Hn'). rewrite Ha in Ha'.
        apply first_occurrence_unique in Ha' as [_ Ha']; [discriminate | assumption..].
      * split; [|reflexivity]. intros _. right. now exists pre.
      * split; [now intros _ | reflexivity].
    + split; [|split; [|split]]; try reflexivity.
      * intros value'. split.
        -- intros [= <-]. now exists pre, post.
        -- intros (pre' & post' & Ha' & Hn'). rewrite Ha in Ha'.
           apply first_occurrence_unique in Ha' as [_ Ha']; [|assumption..].
           now injection Ha' as -> _.
      * split; [discriminate|]. intros [Hno | (pre' & Ha' & Hn')]; [contradiction|].
        rewrite Ha in Ha'.
        apply first_occurrence_unique in Ha' as [_ Ha']; [discriminate | assumption..].
      * split; [now intros _ | reflexivity].
Qed.

(** ** More on report assembly *)

Section ReportMore.

Variable game : GameInterface.
Variable m_Language : string.

(** The plugins for which the loop of [createPlugins] goes through: the
    game holds the plugin and the database answers. *)
Local Abbreviation answered n :=
  (is_Some (GetPlugin game n) /\ exists metaData, GetPluginMetadata game n = inr metaData).

Lemma pluginObject_refused (pluginName what : string) :
  GetPluginMetadata game pluginName = inl what ->
  pluginObject game m_Language pluginName = Thrown (SorterError what).
Proof. intros H. unfold pluginObject, library. cbv zeta. now rewrite H. Qed.

Lemma pluginObject_unloaded (pluginName : string) (metaData : option PluginMetadata) :
  GetPluginMetadata game pluginName = inr metaData ->
  GetPlugin game pluginName = None ->
  pluginObject game m_Language pluginName = Undefined.
Proof.
  intros Hm H. unfold pluginObject, createMissingMasters, library. cbv zeta.
  now rewrite Hm, H.
Qed.

(** The loop ends at the first plugin for which it does not go through. *)
Lemma createPlugins_stops (pre post : list string) (n : string) :
  (forall x, x ∈ pre -> answered x) ->
  createPlugins game m_Language (pre ++ n :: post) =
  match pluginObject game m_Language n with
  | Done o => createPlugins game m_Language (pre ++ n :: post)
  | Thrown e => Thrown e
  | Undefined => Undefined
  end.
Proof.
  intros Hpre. induction pre as [|x pre IH]; cbn [app].
  - rewrite createPlugins_cons. now destruct (pluginObject game m_Language n).
  - rewrite createPlugins_cons.
    destruct (pluginObject_loaded game m_Language x) as (o & -> & _);
      [apply Hpre; now left..|].
    cbn [outcome_bind]. rewrite IH by (intros y Hy; apply Hpre; now right).
    now destruct (pluginObject game m_Language n).
Qed.

(** A load order is one for which the loop goes through, or it has a first
    plugin for which the database refuses, or a first one that the game
    does not hold while the database answers. *)
Lemma load_order_split (sortedPlugins : list string) :
  (forall n, n ∈ sortedPlugins -> answered n) \/
  (exists pre n post what,
      sortedPlugins = (pre ++ n :: post)%list /\ (forall x, x ∈ pre -> answered x) /\
      GetPluginMetadata game n = inl what) \/
  (exists pre n post,
      sortedPlugins = (pre ++ n :: post)%list /\ (forall x, x ∈ pre -> answered x) /\
      (exists metaData, GetPluginMetadata game n = inr metaData) /\
      GetPlugin game n = None).
Proof.
  induction sortedPlugins as [|n rest IH].
  - left. intros n H. now apply elem_of_nil in H.
  - destruct (GetPluginMetadata game n) as [what|metaData] eqn:Hm.
    { right. left. exists [], n, rest, what.
      split; [reflexivity|]. split; [|first [assumption | reflexivity]].
      intros x H. now apply elem_of_nil in H. }
    destruct (GetPlugin game n) as [plugin|] eqn:Hp.
    2:{ right. right. exists [], n, rest.
        split; [reflexivity|]. split; [intros x H; now apply elem_of_nil in H|].
        split; [eauto | first [assumption | reflexivity]]. }
    assert (answered n) as Hn by (split; eauto).
    assert (forall (pre : list string) (x : string),
               (forall y, y ∈ pre -> answered y) -> x ∈ n :: pre -> answered x) as Hcons.
    { intros pre x Hpre Hx. apply elem_of_cons in Hx as [-> | Hx]; [exact Hn | now apply Hpre]. }
    destruct IH as [Hall | [(pre & x & post & what & -> & Hpre & Hx) |
                            (pre & x & post & -> & Hpre & Hx & Hnone)]].
    + left. intros x. now apply (Hcons rest).
    + right. left. exists (n :: pre), x, post, what.
      split; [reflexivity|]. split; [|assumption]. intros y. now apply Hcons.
    + right. right. exists (n :: pre), x, post.
      split; [reflexivity|]. split; [|now split]. intros y. now apply Hcons.
Qed.

(** X20: how [createPlugins] ends.  It returns exactly when the game holds
    every plugin of the load order and the database answers for each.
    Otherwise the first plugin for which this fails decides: if the
    database refuses its metadata, [createPlugins] throws what the database
    threw; if the database answers and the game does not hold the plugin,
    the null pointer is dereferenced, which is undefined behaviour. *)
Theorem createPlugins_outcome (sortedPlugins : list string) :
  ((exists plugins, createPlugins game m_Language sortedPlugins = Done plugins) <->
   forall n, n ∈ sortedPlugins ->
     is_Some (GetPlugin game n) /\
     exists metaData, GetPluginMetadata game n = inr metaData) /\
  (createPlugins game m_Language sortedPlugins = Undefined <->
   exists pre n post,
     sortedPlugins = (pre ++ n :: post)%list /\
     (forall x, x ∈ pre ->
        is_Some (GetPlugin game x) /\
        exists metaData, GetPluginMetadata game x = inr metaData) /\
     (exists metaData, GetPluginMetadata game n = inr metaData) /\
     GetPlugin game n = None) /\
  (forall e : exn,
      createPlugins game m_Language sortedPlugins = Thrown e <->
      exists pre n post what,
        sortedPlugins = (pre ++ n :: post)%list /\
        (forall x, x ∈ pre ->
           is_Some (GetPlugin game x) /\
           exists metaData, GetPluginMetadata game x = inr metaData) /\
        GetPluginMetadata game n = inl what /\ e = SorterError what).
Proof.
  assert (forall pre n post what,
             (forall x, x ∈ pre -> answered x) -> GetPluginMetadata game n = inl what ->
             createPlugins game m_Language (pre ++ n :: post) = Thrown (SorterError what))
    as Hthrown.
  { intros pre n post what Hpre Hn. rewrite (createPlugins_stops pre post n Hpre).
    now rewrite (pluginObject_refused n what Hn). }
  assert (forall pre n post,
             (forall x, x ∈ pre -> answered x) ->
             (exists metaData, GetPluginMetadata game n = inr metaData) ->
             GetPlugin game n = None ->
             createPlugins game m_Language (pre ++ n :: post) = Undefined) as Hundef.
  { intros pre n post Hpre [md Hm] Hn. rewrite (createPlugins_stops pre post n Hpre).
    now rewrite (pluginObject_unloaded n md Hm Hn). }
  assert ((forall n, n ∈ sortedPlugins -> answered n) ->
          exists plugins, createPlugins game m_Language sortedPlugins = Done plugins)
    as Hdone.
  { intros Hall.
    destruct (createPlugins_loaded game m_Language sortedPlugins) as (plugins & Hp & _);
      [intros n Hn; now apply Hall.. | now exists plugins]. }
  split; [|split].
  - split; [|exact Hdone]. intros [plugins Hp].
    destruct (load_order_split sortedPlugins)
      as [Hall | [(pre & n & post & what & E & Hpre & Hn) |
                  (pre & n & post & E & Hpre & Hm & Hn)]]; [exact Hall | exfalso..].
    + rewrite E, (Hthrown pre n post what Hpre Hn) in Hp. discriminate Hp.
    + rewrite E, (Hundef pre n post Hpre Hm Hn) in Hp. discriminate Hp.
  - split.
    + intros Hu.
      destruct (load_order_split sortedPlugins)
        as [Hall | [(pre & n & post & what & E & Hpre & Hn) |
                    (pre & n & post & E & Hpre & Hm & Hn)]].
      * destruct (Hdone Hall) as [plugins Hp]. rewrite Hp in Hu. discriminate Hu.
      * rewrite E, (Hthrown pre n post what Hpre Hn) in Hu. discriminate Hu.
      * exists pre, n, post. auto.
    + intros (pre & n & post & -> & Hpre & Hm & Hn). now apply Hundef.
  - intros e. split.
    + intros Ht.
      destruct (load_order_split sortedPlugins)
        as [Hall | [(pre & n & post & what & E & Hpre & Hn) |
                    (pre & n & post & E & Hpre & Hm & Hn)]].
      * destruct (Hdone Hall) as [plugins Hp]. rewrite Hp in Ht. discriminate Ht.
      * rewrite E, (Hthrown pre n post what Hpre Hn) in Ht. injection Ht as <-.
        exists pre, n, post, what. auto.
      * rewrite E, (Hundef pre n post Hpre Hm Hn) in Ht. discriminate Ht.
    + intros (pre & n & post & what & -> & Hpre & Hn & ->). now apply Hthrown.
Qed.

Lemma createPlugins_filter
    (sortedPlugins : list string) (plugins : list Json.value) :
  createPlugins game m_Language sortedPlugins = Done plugins ->
  Forall2 (fun n v =>
             exists o, v = Json.Object o /\
                       pluginObject game m_Language n = Done o /\
                       o !! "name" = Some (Json.String_ n))
          (List.filter (hasDetails game m_Language) sortedPlugins) plugins.
Proof.
  revert plugins. induction sortedPlugins as [|n rest IH]; intros plugins H.
  - injection H as <-. constructor.
  - rewrite createPlugins_cons in H.
    destruct (GetPluginMetadata game n) as [what|metaData] eqn:Hm;
      [rewrite (pluginObject_refused n what Hm) in H; discriminate H|].
    destruct (GetPlugin game n) as [plugin|] eqn:Hp;
      [|rewrite (pluginObject_unloaded n metaData Hm Hp) in H; discriminate H].
    destruct (pluginObject_loaded game m_Language n) as (o & Ho & Hname & Hsize & _);
      [rewrite Hp; eauto | rewrite Hm; eauto |].
    rewrite Ho in H. cbn [outcome_bind] in H.
    destruct (createPlugins game m_Language rest) as [ps|e|]; try discriminate H.
    cbn [outcome_bind] in H. injection H as <-. cbn [List.filter].
    specialize (IH ps eq_refl).
    destruct (Nat.ltb_spec 1 (size o)) as [Hs | Hs].
    + rewrite (proj1 Hsize Hs). constructor; [|exact IH]. now exists o.
    + destruct (hasDetails game m_Language n) eqn:Hd; [|exact IH].
      assert (1 < size o) by now apply Hsize.
      lia.
Qed.

(** X21: the plugins array lists, in load order and one object each,
    exactly the plugins that have details: its elements are objects whose
    names are, in this order, the names of those plugins. *)
Theorem createPlugins_in_load_order
    (sortedPlugins : list string) (plugins : list Json.value) :
  createPlugins game m_Language sortedPlugins = Done plugins ->
  Forall2 (fun n v => exists o, v = Json.Object o /\ o !! "name" = Some (Json.String_ n))
          (List.filter (hasDetails game m_Language) sortedPlugins) plugins.
Proof.
  intros H. apply createPlugins_filter in H.
  eapply Forall2_impl; [exact H|].
  intros n v (o & -> & _ & Hname). now exists o.
Qed.

Lemma Done_inj {A : Type} (a b : A) : Done a = Done b -> a = b.
Proof. now intros [= ->]. Qed.

Lemma stats_not_empty (time : Z) (lootcliVersion lootVersion : string) :
  Json.isEmpty
    (Json.Object
       (<["lootVersion" := Json.String_ lootVersion]>
          (<["lootcliVersion" := Json.String_ lootcliVersion]>
             (<["time" := Json.Number time]> ∅)))) = false.
Proof.
  cbn [Json.isEmpty]. apply Nat.eqb_neq.
  apply (map_size_ne_0_lookup_2 _ "time"). rewrite !lookup_insert_ne by discriminate.
  rewrite lookup_insert_eq. eauto.
Qed.

(** X22: the root of the report, when the report is assembled.  It always
    has the stats member, with the elapsed time and the two versions; it
    has the plugins member exactly when some plugin of the load order has
    details, and the messages member exactly when some general message,
    among those the database has answered with, has a text for the
    language; it has no other member. *)
Theorem createJsonReport_members
    (sortedPlugins : list string) (time : Z) (lootcliVersion lootVersion : string)
    (root : Json.object) :
  createJsonReport game m_Language sortedPlugins time lootcliVersion lootVersion = Done root ->
  root !! "stats" =
  Some (Json.Object
          (<["lootVersion" := Json.String_ lootVersion]>
             (<["lootcliVersion" := Json.String_ lootcliVersion]>
                (<["time" := Json.Number time]> ∅)))) /\
  (is_Some (root !! "plugins") <->
   exists n, n ∈ sortedPlugins /\ hasDetails game m_Language n = true) /\
  (exists messages : list Message,
      GetGeneralMessages game = inr messages /\
      (is_Some (root !! "messages") <->
       exists m, m ∈ messages /\
                 is_Some (SelectMessageContent game (GetContent m) m_Language))) /\
  (forall k, is_Some (root !! k) -> k ∈ ["messages"; "plugins"; "stats"]).
Proof.
  unfold createJsonReport, library. cbv zeta.
  destruct (GetGeneralMessages game) as [what|messages];
    cbn [outcome_bind]; [intros Hroot; discriminate Hroot|].
  destruct (createPlugins game m_Language sortedPlugins) as [plugins|e|] eqn:Ep;
    cbn [outcome_bind]; intros Hroot; [|discriminate Hroot..].
  apply Done_inj in Hroot. subst root.
  pose proof (createPlugins_filter sortedPlugins plugins Ep) as Hf.
  apply Forall2_length in Hf.
  assert (Json.isEmpty (Json.Array plugins) = false <->
          exists n, n ∈ sortedPlugins /\ hasDetails game m_Language n = true) as Hpl.
  { cbn [Json.isEmpty]. rewrite <- Hf, filter_empty, negb_false_iff, existsb_exists.
    split; intros (n & Hn & Hd); exists n; split; try assumption;
      now apply list_elem_of_In. }
  assert (Json.isEmpty (createMessages game m_Language messages) = false <->
          exists m, m ∈ messages /\
                    is_Some (SelectMessageContent game (GetContent m) m_Language)) as Hms.
  { rewrite createMessages_empty, negb_false_iff, existsb_exists.
    split; intros (m & Hm & Hd); exists m; split;
      try (now apply list_elem_of_In);
      [now apply bool_decide_eq_true in Hd | now apply bool_decide_eq_true]. }
  pose proof (stats_not_empty time lootcliVersion lootVersion) as Hst.
  split; [|split; [|split]].
  - unfold set at 1. rewrite Hst. apply lookup_insert_eq.
  - rewrite set_lookup_ne by discriminate. rewrite <- Hpl. unfold set at 1.
    destruct (Json.isEmpty (Json.Array plugins)).
    + rewrite set_lookup_ne, lookup_empty by discriminate. split; [intros [? H]; discriminate H | intros H; discriminate H].
    + rewrite lookup_insert_eq. split; eauto.
  - exists messages. split; [reflexivity|].
    do 2 rewrite set_lookup_ne by discriminate. rewrite <- Hms. unfold set.
    destruct (Json.isEmpty (createMessages _ _ _)).
    + rewrite lookup_empty. split; [intros [? H]; discriminate H | intros H; discriminate H].
    + rewrite lookup_insert_eq. split; eauto.
  - intros k [v Hk].
    destruct (decide (k = "stats")) as [-> | H1]; [in_list|].
    destruct (decide (k = "plugins")) as [-> | H2]; [in_list|].
    destruct (decide (k = "messages")) as [-> | H3]; [in_list|].
    rewrite !set_lookup_ne, lookup_empty in Hk by assumption. discriminate.
Qed.

(** X23: the incompatibilities of a plugin.  There is one object, in order,
    for each incompatible file that names a loaded plugin, and none for the
    others; the object holds the name, and the display name exactly when
    that differs from the name and is not empty; it holds nothing else. *)
Theorem createIncompatibilities_entries (data : list File) :
  exists objects : list Json.object,
    createIncompatibilities game data = Json.Array (map Json.Object objects) /\
    Forall2 (fun f o =>
               o !! "name" = Some (Json.String_ (GetName f)) /\
               o !! "displayName" =
               (if String.eqb (GetDisplayName f) (GetName f) ||
                   String.eqb (GetDisplayName f) ""
                then None else Some (Json.String_ (GetDisplayName f))) /\
               forall k, k <> "name" -> k <> "displayName" -> o !! k = None)
            (List.filter (fun f => isLoaded game (GetName f)) data) objects.
Proof.
  unfold createIncompatibilities.
  induction data as [|f data (objects & E & Hf)].
  - exists []. split; [reflexivity | constructor].
  - cbn [flat_map List.filter]. cbv zeta. injection E as E.
    destruct (isLoaded game (GetName f)); cbn [negb app].
    + destruct (String.eqb (GetDisplayName f) (GetName f)) eqn:E1; cbn [negb orb].
      * exists (<["name" := Json.String_ (GetName f)]> ∅ :: objects).
        split; [cbn [map]; do 2 f_equal; exact E|].
        constructor; [|exact Hf]. rewrite E1. cbn [orb]. split; [|split].
        -- apply lookup_insert_eq.
        -- now rewrite lookup_insert_ne, lookup_empty by discriminate.
        -- intros k H1 H2. now rewrite lookup_insert_ne, lookup_empty by congruence.
      * unfold set. cbn [Json.isEmpty].
        destruct (String.eqb (GetDisplayName f) "") eqn:E2.
        -- exists (<["name" := Json.String_ (GetName f)]> ∅ :: objects).
           split; [cbn [map]; do 2 f_equal; exact E|].
           constructor; [|exact Hf]. rewrite E1, E2. cbn [orb]. split; [|split].
           ++ apply lookup_insert_eq.
           ++ now rewrite lookup_insert_ne, lookup_empty by discriminate.
           ++ intros k H1 H2. now rewrite lookup_insert_ne, lookup_empty by congruence.
        -- exists (<["displayName" := Json.String_ (GetDisplayName f)]>
                     (<["name" := Json.String_ (GetName f)]> ∅) :: objects).
           split; [cbn [map]; do 2 f_equal; exact E|].
           constructor; [|exact Hf]. rewrite E1, E2. cbn [orb]. split; [|split].
           ++ rewrite lookup_insert_ne by discriminate. apply lookup_insert_eq.
           ++ apply lookup_insert_eq.
           ++ intros k H1 H2. now rewrite !lookup_insert_ne, lookup_empty by congruence.
    + exists objects. split; [f_equal; exact E | exact Hf].
Qed.

End ReportMore.

Lemma sortedGame_loaded (n : string) :
  n ∈ ["Skyrim.esm"; "Quiet.esp"; "Patch.esp"] -> is_Some (GetPlugin Sample.sortedGame n).
Proof.
  rewrite !elem_of_cons, elem_of_nil. intros H.
  destruct_or!; subst; try contradiction; vm_compute; eexists; reflexivity.
Qed.

Lemma sortedGame_answers (n : string) :
  n ∈ ["Skyrim.esm"; "Quiet.esp"; "Patch.esp"] ->
  exists metaData, GetPluginMetadata Sample.sortedGame n = inr metaData.
Proof.
  rewrite !elem_of_cons, elem_of_nil. intros H.
  destruct_or!; subst; try contradiction; vm_compute; eexists; reflexivity.
Qed.

Lemma createPlugins_outcome_witness :
  createPlugins Sample.refusingGame "en" ["Skyrim.esm"; "Patch.esp"; "Ghost.esp"] =
  Thrown (SorterError "invalid condition").
Proof.
  apply (proj2 (proj2 (createPlugins_outcome Sample.refusingGame "en"
                         ["Skyrim.esm"; "Patch.esp"; "Ghost.esp"]))).
  exists ["Skyrim.esm"], "Patch.esp", ["Ghost.esp"], "invalid condition".
  split; [reflexivity|]. split; [|split; reflexivity].
  intros x Hx. apply list_elem_of_singleton in Hx as ->.
  split; vm_compute; eexists; reflexivity.
Defined.

Lemma createPlugins_in_load_order_witness :
  exists plugins,
    createPlugins Sample.sortedGame "en" ["Skyrim.esm"; "Quiet.esp"; "Patch.esp"] =
    Done plugins /\
    Forall2 (fun n v => exists o, v = Json.Object o /\ o !! "name" = Some (Json.String_ n))
            ["Skyrim.esm"; "Patch.esp"] plugins.
Proof.
  destruct (createPlugins_loaded Sample.sortedGame "en"
              ["Skyrim.esm"; "Quiet.esp"; "Patch.esp"] sortedGame_loaded sortedGame_answers)
    as (plugins & Hp & _).
  exists plugins. split; [exact Hp|].
  assert (List.filter (hasDetails Sample.sortedGame "en")
                      ["Skyrim.esm"; "Quiet.esp"; "Patch.esp"] =
          ["Skyrim.esm"; "Patch.esp"]) as E
      by (vm_compute; reflexivity).
  rewrite <- E.
  exact (createPlugins_in_load_order Sample.sortedGame "en" _ plugins Hp).
Defined.

Lemma createJsonReport_members_witness :
  exists root,
    createJsonReport Sample.sortedGame "en" ["Skyrim.esm"; "Quiet.esp"; "Patch.esp"]
                     1500 "1.5.0" "0.23.1" = Done root /\
    is_Some (root !! "stats") /\
    is_Some (root !! "plugins") /\
    root !! "messages" = None.
Proof.
  destruct (createPlugins_loaded Sample.sortedGame "en"
              ["Skyrim.esm"; "Quiet.esp"; "Patch.esp"] sortedGame_loaded sortedGame_answers)
    as (plugins & Hp & _).
  eexists. split.
  { unfold createJsonReport. cbv zeta. rewrite Hp. cbn [outcome_bind]. reflexivity. }
  match goal with
  | |- is_Some (?r !! _) /\ _ =>
      assert (createJsonReport Sample.sortedGame "en"
                ["Skyrim.esm"; "Quiet.esp"; "Patch.esp"] 1500 "1.5.0" "0.23.1" = Done r) as Hr
          by (unfold createJsonReport; cbv zeta; rewrite Hp; reflexivity);
      destruct (createJsonReport_members Sample.sortedGame "en" _ _ _ _ r Hr)
        as (Hstats & Hplugins & (messages & Hanswer & Hmessages) & _)
  end.
  split; [rewrite Hstats; eauto|]. split.
  - apply Hplugins. exists "Patch.esp". split; [in_list | reflexivity].
  - apply eq_None_not_Some. intros H. apply Hmessages in H as (m & Hm & _).
    injection Hanswer as <-. now apply elem_of_nil in Hm.
Defined.
